(** * PharmaCalc: price engine, input handling and voice session

    A shallow embedding of [src/App.tsx].  JavaScript numbers are IEEE 754
    binary64 values; they are modelled by the Standard Library's executable
    specification of floating-point arithmetic ([SpecFloat]) at precision 53
    and maximal exponent 1024, so every arithmetic step of the source rounds
    here exactly as it does in the browser. *)

From Stdlib Require Import ZArith QArith Qabs Qpower Qround Bool List String Ascii.
From Stdlib Require Import Lia Lqa DecimalString.
From Stdlib Require DecimalFacts DecimalPos DecimalN.
From Stdlib Require Import Floats.SpecFloat.
Import ListNotations.
Local Open Scope Z_scope.

(** ** JavaScript numbers *)

Module Num.

Definition prec : Z := 53.
Definition emax : Z := 1024.

Definition number : Type := spec_float.

Definition NaN : number := S754_nan.

Definition mul : number -> number -> number := SFmul prec emax.
Definition div : number -> number -> number := SFdiv prec emax.
Definition add : number -> number -> number := SFadd prec emax.
Definition sub : number -> number -> number := SFsub prec emax.

(** [x > y] and [x >= y]; both are false as soon as one side is NaN *)
Definition gt (x y : number) : bool := SFltb y x.
Definition ge (x y : number) : bool := SFleb y x.

Definition isNaN (x : number) : bool :=
  match x with S754_nan => true | _ => false end.

(** same number, representation-wise ([Object.is]) *)
Definition same (x y : number) : bool :=
  match x, y with
  | S754_nan, S754_nan => true
  | S754_zero a, S754_zero b => Bool.eqb a b
  | S754_infinity a, S754_infinity b => Bool.eqb a b
  | S754_finite a m e, S754_finite b n f =>
      Bool.eqb a b && Pos.eqb m n && Z.eqb e f
  | _, _ => false
  end.

(** the number nearest to an integer *)
Definition of_Z (n : Z) : number := binary_normalize prec emax n 0 false.

(** the number nearest to [m * 10^p]: the value of a decimal literal.  The
    quotient of two integers is rounded once, whatever their size. *)
Definition decimal (m p : Z) : number :=
  match p with
  | Zneg k =>
      match m with
      | Z0 => S754_zero false
      | Zpos a => div (S754_finite false a 0) (S754_finite false (Pos.pow 10 k) 0)
      | Zneg a => div (S754_finite true a 0) (S754_finite false (Pos.pow 10 k) 0)
      end
  | _ => of_Z (m * 10 ^ p)
  end.

(** the rational a finite number stands for (0 for the others) *)
Definition value (x : number) : Q :=
  match x with
  | S754_finite s m e => (inject_Z (cond_Zopp s (Z.pos m)) * 2 ^ e)%Q
  | _ => 0%Q
  end.

(** [Math.max] on two arguments *)
Definition Math_max (a b : number) : number :=
  match SFcompare a b with
  | None => NaN
  | Some Lt => b
  | Some Gt => a
  | Some Eq => match a with S754_zero true => b | _ => a end
  end.

(** integral part, towards zero *)
Definition truncate (x : number) : Z :=
  match x with
  | S754_finite s m e =>
      cond_Zopp s (match e with
                   | Zneg k => Z.pos m / Z.pow_pos 2 k
                   | _ => Z.pos m * 2 ^ e
                   end)
  | _ => 0
  end.

(** [ToInt16]: what a store into an [Int16Array] keeps of a number *)
Definition ToInt16 (x : number) : Z :=
  let int16bit := truncate x mod 65536 in
  if 32768 <=? int16bit then int16bit - 65536 else int16bit.

(** what a store into a [Float32Array] keeps of a number, read back *)
Definition fround (x : number) : number :=
  match x with
  | S754_finite s m e =>
      match binary_round 24 128 s m e with
      | S754_finite s' m' e' => binary_round prec emax s' m' e'
      | y => y
      end
  | _ => x
  end.

(** a positive, finite, well-formed binary64 number *)
Definition positive_finite (x : number) : bool :=
  match x with
  | S754_finite false m e => bounded prec emax m e
  | _ => false
  end.

End Num.

Import Num.

Declare Scope num_scope.
Delimit Scope num_scope with num.
Bind Scope num_scope with number.
Infix "*" := mul : num_scope.
Infix "/" := div : num_scope.
Infix "+" := add : num_scope.
Infix "-" := sub : num_scope.

(** Numeric literals of the source, each the binary64 number nearest to the
    decimal written there. *)
Definition n_1 : number := decimal 1 0.
Definition n_100 : number := decimal 100 0.
Definition n_105 : number := decimal 105 0.
Definition n_0_80 : number := decimal 80 (-2).
Definition n_0_05 : number := decimal 5 (-2).
Definition n_6_25 : number := decimal 625 (-2).
Definition n_11_02 : number := decimal 1102 (-2).
Definition n_32768 : number := decimal 32768 0.
Definition n_0 : number := S754_zero false.

(** ** JavaScript strings of numbers *)

Module JsString.

Local Open Scope string_scope.

Definition is_digit (c : ascii) : bool :=
  let n := nat_of_ascii c in (48 <=? n)%nat && (n <=? 57)%nat.

(** white space that [parseFloat] skips, among the characters a string
    holds here (code units 0 to 255): TAB, LF, VT, FF, CR, SPACE and the
    no-break space; the white space beyond 255 (U+FEFF, U+2028, ...) cannot
    occur in such a string *)
Definition is_space (c : ascii) : bool :=
  let n := nat_of_ascii c in
  ((9 <=? n)%nat && (n <=? 13)%nat) || (n =? 32)%nat || (n =? 160)%nat.

Definition digit_value (c : ascii) : Z := Z.of_nat (nat_of_ascii c) - 48.

Fixpoint trim_start (s : string) : string :=
  match s with
  | String c r => if is_space c then trim_start r else s
  | EmptyString => s
  end.

(** longest prefix of decimal digits, and what follows it *)
Fixpoint span_digits (s : string) : string * string :=
  match s with
  | String c r =>
      if is_digit c then let '(d, t) := span_digits r in (String c d, t)
      else (EmptyString, s)
  | EmptyString => (EmptyString, EmptyString)
  end.

Fixpoint digits_value (acc : Z) (s : string) : Z :=
  match s with
  | String c r => digits_value (10 * acc + digit_value c) r
  | EmptyString => acc
  end.

Definition string_of_Z (n : Z) : string :=
  NilZero.string_of_uint (N.to_uint (Z.to_N n)).

Fixpoint zeros (n : nat) : string :=
  match n with O => EmptyString | S k => String "0" (zeros k) end.

(** *** [/^\d*\.?\d*$/.test(s)] *)
Definition decimal_pattern (s : string) : bool :=
  let rest := snd (span_digits s) in
  let rest := match rest with String "." r => r | _ => rest end in
  match snd (span_digits rest) with
  | EmptyString => true
  | _ => false
  end.

(** *** [parseFloat]: the longest prefix that is a decimal literal *)
Definition parse_exponent (s : string) : Z :=
  match s with
  | String c r =>
      if (Ascii.eqb c "e" || Ascii.eqb c "E")%bool then
        let '(neg, r') :=
          match r with
          | String "-" t => (true, t)
          | String "+" t => (false, t)
          | _ => (false, r)
          end in
        let ds := fst (span_digits r') in
        match ds with
        | EmptyString => 0
        | _ => if neg then - digits_value 0 ds else digits_value 0 ds
        end
      else 0
  | EmptyString => 0
  end.

Definition parseFloat (input : string) : number :=
  let t := trim_start input in
  let '(neg, t) :=
    match t with
    | String "-" r => (true, r)
    | String "+" r => (false, r)
    | _ => (false, t)
    end in
  if prefix "Infinity" t then S754_infinity neg
  else
    let '(ip, r1) := span_digits t in
    let '(fp, r2) :=
      match r1 with
      | String "." r => span_digits r
      | _ => (EmptyString, r1)
      end in
    match ip ++ fp with
    | EmptyString => NaN
    | ds =>
        let v := decimal (digits_value 0 ds)
                   (parse_exponent r2 - Z.of_nat (String.length fp)) in
        if neg then SFopp v else v
    end.

(** *** [Number.prototype.toString]: the shortest decimal that reads back *)

(** first [n], from [n - 1] on, with [v < 10^n] *)
Fixpoint decade_up (fuel : nat) (v : Q) (n : Z) : Z :=
  match fuel with
  | O => n
  | S f => if Qle_bool (10 ^ n) v then decade_up f v (n + 1) else n
  end.

Definition decade (m : positive) (e : Z) : Z :=
  decade_up 4 (value (S754_finite false m e))
    ((Z.pos (digits2_pos m) + e - 1) * 30103 / 100000 - 1).

(** the [k]-digit candidates around [v], when one of them reads back as
    [x]: the nearer one, the even one on a tie; returns [(s, n)] with
    [s * 10^(n-k)] the decimal *)
Definition try_digits (x : number) (v : Q) (n0 k : Z) : option (Z * Z) :=
  let p := n0 - k in
  let lo := Qfloor (v / 10 ^ p) in
  let hi := lo + 1 in
  let ok s := same (decimal s p) x in
  let norm (s : Z) := if (s =? 10 ^ k)%Z then (10 ^ (k - 1), n0 + 1) else (s, n0) in
  let dlo := (v - inject_Z lo * 10 ^ p)%Q in
  let dhi := (inject_Z hi * 10 ^ p - v)%Q in
  match ok lo, ok hi with
  | true, true =>
      match (dlo ?= dhi)%Q with
      | Lt => Some (norm lo)
      | Gt => Some (norm hi)
      | Eq => Some (norm (if Z.even lo then lo else hi))
      end
  | true, false => Some (norm lo)
  | false, true => Some (norm hi)
  | false, false => None
  end.

Fixpoint shortest (fuel : nat) (x : number) (v : Q) (n0 k : Z) : Z * Z * Z :=
  match fuel with
  | O => (Qfloor (v / 10 ^ (n0 - k)), n0, k)
  | S f =>
      match try_digits x v n0 k with
      | Some (s, n) => (s, n, k)
      | None => shortest f x v n0 (k + 1)
      end
  end.

Definition render (s n k : Z) : string :=
  let ds := string_of_Z s in
  if ((k <=? n) && (n <=? 21))%Z then ds ++ zeros (Z.to_nat (n - k))
  else if ((0 <? n) && (n <=? 21))%Z then
    substring 0 (Z.to_nat n) ds ++ "." ++ substring (Z.to_nat n) (Z.to_nat (k - n)) ds
  else if ((-6 <? n) && (n <=? 0))%Z then "0." ++ zeros (Z.to_nat (- n)) ++ ds
  else
    let e := n - 1 in
    let sign := if (e <? 0)%Z then "-" else "+" in
    let es := string_of_Z (Z.abs e) in
    if (k =? 1)%Z then ds ++ "e" ++ sign ++ es
    else substring 0 1 ds ++ "." ++ substring 1 (Z.to_nat (k - 1)) ds
           ++ "e" ++ sign ++ es.

Definition Number_toString (x : number) : string :=
  match x with
  | S754_nan => "NaN"
  | S754_zero _ => "0"
  | S754_infinity s => if s then "-Infinity" else "Infinity"
  | S754_finite s m e =>
      let ax := S754_finite false m e in
      let '(d, n, k) := shortest 17 ax (value ax) (decade m e) 1 in
      (if s then "-" else "") ++ render d n k
  end.

End JsString.

Import JsString.

(** ** The calculator ([types.ts] and the core of [App]) *)

Inductive Mode : Type := original | new.

Record CalculationRow : Type := {
  id : string;
  label : string;
  reductionPercent : number;
  inputMrp : number;
  newMrp : number;
  intermediateTradePrice : number;
  finalTradePrice : number;
  gstAmount : number
}.

Record CalculationResult : Type := {
  row12 : CalculationRow;
  row18 : CalculationRow
}.

(** [processRow], the closure of [calculate], with the [mode] it captures *)
Definition processRow (mode : Mode) (val reductionPercent : number)
    (label : string) : CalculationRow :=
  let '(originalMrp, newMrp) :=
    match mode with
    | original => (val, val * (n_1 - (reductionPercent / n_100)))
    | new => (val / (n_1 - (reductionPercent / n_100)), val)
    end%num in
  let intermediatePrice := (newMrp * (n_100 / n_105))%num in
  let finalTradePrice := (intermediatePrice * n_0_80)%num in
  let gstAmount := (finalTradePrice * n_0_05)%num in
  {| id := label;
     label := label;
     reductionPercent := reductionPercent;
     inputMrp := originalMrp;
     newMrp := newMrp;
     intermediateTradePrice := intermediatePrice;
     finalTradePrice := finalTradePrice;
     gstAmount := gstAmount |}.

(** the React state of the component *)
Record AppState : Type := {
  mrpInput : string;
  calculationMode : Mode;
  results : option CalculationResult;
  aiAnalysis : string;
  isLoadingAi : bool;
  isLiveActive : bool;
  isAiSpeaking : bool
}.

Definition initialState : AppState :=
  {| mrpInput := "100";
     calculationMode := original;
     results := None;
     aiAnalysis := "";
     isLoadingAi := false;
     isLiveActive := false;
     isAiSpeaking := false |}.

Definition setMrpInput (v : string) (st : AppState) : AppState :=
  {| mrpInput := v;
     calculationMode := calculationMode st;
     results := results st;
     aiAnalysis := aiAnalysis st;
     isLoadingAi := isLoadingAi st;
     isLiveActive := isLiveActive st;
     isAiSpeaking := isAiSpeaking st |}.

Definition setCalculationMode (m : Mode) (st : AppState) : AppState :=
  {| mrpInput := mrpInput st;
     calculationMode := m;
     results := results st;
     aiAnalysis := aiAnalysis st;
     isLoadingAi := isLoadingAi st;
     isLiveActive := isLiveActive st;
     isAiSpeaking := isAiSpeaking st |}.

Definition setResults (r : option CalculationResult) (st : AppState) : AppState :=
  {| mrpInput := mrpInput st;
     calculationMode := calculationMode st;
     results := r;
     aiAnalysis := aiAnalysis st;
     isLoadingAi := isLoadingAi st;
     isLiveActive := isLiveActive st;
     isAiSpeaking := isAiSpeaking st |}.

Definition setAiAnalysis (a : string) (st : AppState) : AppState :=
  {| mrpInput := mrpInput st;
     calculationMode := calculationMode st;
     results := results st;
     aiAnalysis := a;
     isLoadingAi := isLoadingAi st;
     isLiveActive := isLiveActive st;
     isAiSpeaking := isAiSpeaking st |}.

Definition setIsLiveActive (b : bool) (st : AppState) : AppState :=
  {| mrpInput := mrpInput st;
     calculationMode := calculationMode st;
     results := results st;
     aiAnalysis := aiAnalysis st;
     isLoadingAi := isLoadingAi st;
     isLiveActive := b;
     isAiSpeaking := isAiSpeaking st |}.

Definition setIsAiSpeaking (b : bool) (st : AppState) : AppState :=
  {| mrpInput := mrpInput st;
     calculationMode := calculationMode st;
     results := results st;
     aiAnalysis := aiAnalysis st;
     isLoadingAi := isLoadingAi st;
     isLiveActive := isLiveActive st;
     isAiSpeaking := b |}.

(** the two rows [calculate] builds *)
Definition snapshot (amount : number) (mode : Mode) : CalculationResult :=
  {| row12 := processRow mode amount n_6_25 "12% GST Rule";
     row18 := processRow mode amount n_11_02 "18% GST Rule" |}.

Definition calculate (amount : number) (mode : Mode) (st : AppState) : AppState :=
  setAiAnalysis "" (setResults (Some (snapshot amount mode)) st).

(** the effect that re-runs whenever [mrpInput] or [calculationMode] change *)
Definition recalculate (st : AppState) : AppState :=
  let num := parseFloat (mrpInput st) in
  if negb (isNaN num) && gt num n_0
  then calculate num (calculationMode st) st
  else setResults None st.

Definition handleInputChange (value : string) (st : AppState) : AppState :=
  if String.eqb value "" || decimal_pattern value
  then setMrpInput value st
  else st.

(** the two mode buttons and the clear button *)
Definition clickMode (m : Mode) (st : AppState) : AppState :=
  setCalculationMode m st.

Definition clickClear (st : AppState) : AppState := setMrpInput "" st.

(** ** Values that arrive in tool-call arguments *)

#[local] Unset Elimination Schemes.

Inductive jsval : Type :=
| JUndefined
| JNull
| JBool (b : bool)
| JNum (x : number)
| JStr (s : string)
| JArr (items : list jsval)
| JObj (fields : list (string * jsval)).

#[local] Set Elimination Schemes.

Fixpoint lookup {A : Type} (key : string) (fields : list (string * A)) : option A :=
  match fields with
  | [] => None
  | (k, v) :: rest => if String.eqb k key then Some v else lookup key rest
  end.

(** [String(v)]; [None] is a [TypeError].  An array is joined with commas,
    [undefined] and [null] elements counting as empty.  An object is turned
    into a primitive through its [toString]: with an own key of that name --
    never a function in what JSON carries -- the inherited method is hidden,
    [valueOf] gives the object back and the conversion throws; without one
    the inherited method answers "[object Object]". *)
Fixpoint ToString (v : jsval) : option string :=
  match v with
  | JUndefined => Some "undefined"
  | JNull => Some "null"
  | JBool b => Some (if b then "true" else "false")
  | JNum x => Some (Number_toString x)
  | JStr s => Some s
  | JArr items =>
      (fix join (l : list jsval) : option string :=
         match l with
         | [] => Some ""
         | x :: r =>
             match (match x with JUndefined | JNull => Some "" | _ => ToString x end) with
             | Some sx =>
                 match r with
                 | [] => Some sx
                 | _ =>
                     match join r with
                     | Some sr => Some (sx ++ "," ++ sr)
                     | None => None
                     end
                 end
             | None => None
             end
         end) items
  | JObj fields =>
      match lookup "toString" fields with
      | Some _ => None
      | None => Some "[object Object]"
      end
  end%string.

(** ** The voice session: handles, messages, effects *)

Definition AudioContext : Type := nat.
Definition LiveSession : Type := nat.
Definition MediaStreamTrack : Type := nat.
Definition AudioBufferSourceNode : Type := nat.

Record MediaStream : Type := { getTracks : list MediaStreamTrack }.

Record FunctionCall : Type := {
  fc_id : option string;
  fc_name : option string;
  fc_args : option (list (string * jsval))
}.

Record FunctionResponse : Type := {
  fr_id : option string;
  fr_name : option string;
  fr_result : string
}.

(** A server message: its tool call (whose list of calls may be missing) and
    the audio payload of its first part.  The payload arrives as a base64
    text; [audioData] is [None] when there is no such text or the text is
    empty (the handler tests the text), and otherwise the binary string that
    [atob] makes of the text -- which is empty for a text of white space.  A
    text that [atob] refuses has no [LiveServerMessage]; [onmessage_base64]
    below handles the message with its text. *)
Record LiveServerMessage : Type := {
  toolCall : option (option (list FunctionCall));
  audioData : option string
}.

Record AudioBuffer : Type := {
  numberOfChannels : Z;
  frameCount : Z;
  sampleRate : Z;
  channelData : list (list number)
}.

Definition duration (b : AudioBuffer) : number :=
  (of_Z (frameCount b) / of_Z (sampleRate b))%num.

(** what the component does to the outside *)
Inductive Effect : Type :=
| TrackStopped (t : MediaStreamTrack)
| ContextClosed (c : AudioContext)
| SessionClosed (s : LiveSession)
| SourceStopped (n : AudioBufferSourceNode)
| SourceStarted (n : AudioBufferSourceNode) (when : number)
| ToolResponseSent (r : FunctionResponse)
| RealtimeInputSent (pcm : list Z)
| Alerted (msg : string)
| Logged (msg : string).

(** the [useRef] cells *)
Record Refs : Type := {
  audioContextRef : option AudioContext;
  inputAudioContextRef : option AudioContext;
  sessionRef : option LiveSession;
  mediaStreamRef : option MediaStream;
  nextStartTimeRef : number;
  sourcesRef : list AudioBufferSourceNode
}.

Definition initialRefs : Refs :=
  {| audioContextRef := None;
     inputAudioContextRef := None;
     sessionRef := None;
     mediaStreamRef := None;
     nextStartTimeRef := n_0;
     sourcesRef := [] |}.

Record World : Type := {
  app : AppState;
  refs : Refs;
  trace : list Effect;
  nodes : nat
}.

Definition initialWorld : World :=
  {| app := initialState; refs := initialRefs; trace := []; nodes := O |}.

(** ** Handlers run in a state monad with exceptions *)

Inductive exn : Type :=
  TypeError | RangeError | NotSupportedError | InvalidCharacterError.

Inductive Outcome (A : Type) : Type :=
| Returned (a : A) (w : World)
| Thrown (e : exn) (w : World).

Arguments Returned {A} a w.
Arguments Thrown {A} e w.

Definition M (A : Type) : Type := World -> Outcome A.

Definition ret {A : Type} (a : A) : M A := fun w => Returned a w.

Definition bind {A B : Type} (m : M A) (k : A -> M B) : M B :=
  fun w =>
    match m w with
    | Returned a w' => k a w'
    | Thrown e w' => Thrown e w'
    end.

Definition throw {A : Type} (e : exn) : M A := fun w => Thrown e w.

Notation "x <- m ;; k" := (bind m (fun x => k))
  (at level 61, m at next level, right associativity).
Notation "m ;; k" := (bind m (fun _ => k))
  (at level 61, right associativity).

Definition final {A : Type} (o : Outcome A) : World :=
  match o with Returned _ w | Thrown _ w => w end.

Definition getRefs : M Refs := fun w => Returned (refs w) w.
Definition getApp : M AppState := fun w => Returned (app w) w.

Definition setState (f : AppState -> AppState) : M unit :=
  fun w => Returned tt
    {| app := f (app w); refs := refs w; trace := trace w; nodes := nodes w |}.

Definition setRefs (f : Refs -> Refs) : M unit :=
  fun w => Returned tt
    {| app := app w; refs := f (refs w); trace := trace w; nodes := nodes w |}.

Definition emit (es : list Effect) : M unit :=
  fun w => Returned tt
    {| app := app w; refs := refs w; trace := trace w ++ es; nodes := nodes w |}.

Definition createBufferSource : M AudioBufferSourceNode :=
  fun w => Returned (nodes w)
    {| app := app w; refs := refs w; trace := trace w; nodes := S (nodes w) |}.

(** a method call on what a ref holds: a [TypeError] on [null] *)
Definition invoke {H : Type} (h : option H) (effects : H -> list Effect) : M unit :=
  match h with
  | Some x => emit (effects x)
  | None => throw TypeError
  end.

Fixpoint forEach {A : Type} (l : list A) (f : A -> M unit) : M unit :=
  match l with
  | [] => ret tt
  | x :: r => f x ;; forEach r f
  end.

Definition set_audioContextRef (v : option AudioContext) (r : Refs) : Refs :=
  {| audioContextRef := v;
     inputAudioContextRef := inputAudioContextRef r;
     sessionRef := sessionRef r;
     mediaStreamRef := mediaStreamRef r;
     nextStartTimeRef := nextStartTimeRef r;
     sourcesRef := sourcesRef r |}.

Definition set_inputAudioContextRef (v : option AudioContext) (r : Refs) : Refs :=
  {| audioContextRef := audioContextRef r;
     inputAudioContextRef := v;
     sessionRef := sessionRef r;
     mediaStreamRef := mediaStreamRef r;
     nextStartTimeRef := nextStartTimeRef r;
     sourcesRef := sourcesRef r |}.

Definition set_sessionRef (v : option LiveSession) (r : Refs) : Refs :=
  {| audioContextRef := audioContextRef r;
     inputAudioContextRef := inputAudioContextRef r;
     sessionRef := v;
     mediaStreamRef := mediaStreamRef r;
     nextStartTimeRef := nextStartTimeRef r;
     sourcesRef := sourcesRef r |}.

Definition set_mediaStreamRef (v : option MediaStream) (r : Refs) : Refs :=
  {| audioContextRef := audioContextRef r;
     inputAudioContextRef := inputAudioContextRef r;
     sessionRef := sessionRef r;
     mediaStreamRef := v;
     nextStartTimeRef := nextStartTimeRef r;
     sourcesRef := sourcesRef r |}.

Definition set_nextStartTimeRef (v : number) (r : Refs) : Refs :=
  {| audioContextRef := audioContextRef r;
     inputAudioContextRef := inputAudioContextRef r;
     sessionRef := sessionRef r;
     mediaStreamRef := mediaStreamRef r;
     nextStartTimeRef := v;
     sourcesRef := sourcesRef r |}.

Definition set_sourcesRef (v : list AudioBufferSourceNode) (r : Refs) : Refs :=
  {| audioContextRef := audioContextRef r;
     inputAudioContextRef := inputAudioContextRef r;
     sessionRef := sessionRef r;
     mediaStreamRef := mediaStreamRef r;
     nextStartTimeRef := nextStartTimeRef r;
     sourcesRef := v |}.

(** [if (ref.current) { body }] *)
Definition whenSet {H : Type} (ref : Refs -> option H) (body : M unit) : M unit :=
  r <- getRefs ;;
  match ref r with
  | Some _ => body
  | None => ret tt
  end.

(** [ref.current.method()] *)
Definition call {H : Type} (ref : Refs -> option H) (effects : H -> list Effect) : M unit :=
  r <- getRefs ;; invoke (ref r) effects.

(** *** [stopAudio] *)
Definition stopAudio : M unit :=
  whenSet mediaStreamRef
    (call mediaStreamRef (fun s => map TrackStopped (getTracks s)) ;;
     setRefs (set_mediaStreamRef None)) ;;
  whenSet inputAudioContextRef
    (call inputAudioContextRef (fun c => [ContextClosed c]) ;;
     setRefs (set_inputAudioContextRef None)) ;;
  whenSet audioContextRef
    (call audioContextRef (fun c => [ContextClosed c]) ;;
     setRefs (set_audioContextRef None)) ;;
  whenSet sessionRef
    (call sessionRef (fun s => [SessionClosed s]) ;;
     setRefs (set_sessionRef None)) ;;
  r <- getRefs ;;
  forEach (sourcesRef r) (fun source => emit [SourceStopped source]) ;;
  setRefs (set_sourcesRef []) ;;
  setState (setIsLiveActive false) ;;
  setState (setIsAiSpeaking false).

(** *** PCM encoding of captured samples ([processor.onaudioprocess]) *)
Definition encodeSample (x : number) : Z := ToInt16 (x * n_32768)%num.

Definition onaudioprocess (inputData : list number) : M unit :=
  let pcmData := map encodeSample inputData in
  emit [RealtimeInputSent pcmData].

(** *** [decodeAudioData] *)

(** the bytes of a binary string ([charCodeAt] into a [Uint8Array]) *)
Definition base64ToUint8Array (binaryString : string) : list Z :=
  map (fun c => Z.of_nat (nat_of_ascii c)) (list_ascii_of_string binaryString).

Fixpoint int16_view (bytes : list Z) : list Z :=
  match bytes with
  | lo :: hi :: rest =>
      let u := lo + 256 * hi in
      (if 32768 <=? u then u - 65536 else u) :: int16_view rest
  | _ => []
  end.

(** [new Int16Array(data.buffer)]: a [RangeError] on an odd byte length *)
Definition Int16Array_of (data : list Z) : M (list Z) :=
  if Nat.even (List.length data) then ret (int16_view data) else throw RangeError.

Definition decodeSample (v : Z) : number := fround (of_Z v / n_32768)%num.

Definition decodeAudioData (data : list Z) (sampleRate numChannels : Z) : M AudioBuffer :=
  dataInt16 <- Int16Array_of data ;;
  let frames := Z.of_nat (List.length dataInt16) / numChannels in
  if (numChannels <=? 0) || (frames <=? 0) then throw NotSupportedError
  else
    let sample (channel i : nat) : number :=
      match nth_error dataInt16 (i * Z.to_nat numChannels + channel)%nat with
      | Some v => decodeSample v
      | None => NaN
      end in
    ret {| numberOfChannels := numChannels;
           frameCount := frames;
           sampleRate := sampleRate;
           channelData :=
             map (fun channel => map (sample channel) (seq 0 (Z.to_nat frames)))
                 (seq 0 (Z.to_nat numChannels)) |}.

(** *** Tool calls *)

Definition name_is (fc : FunctionCall) (n : string) : bool :=
  match fc_name fc with
  | Some s => String.eqb s n
  | None => false
  end.

(** [(fc.args as any).key] *)
Definition property (fc : FunctionCall) (key : string) : M jsval :=
  match fc_args fc with
  | None => throw TypeError
  | Some fields =>
      match lookup key fields with
      | Some v => ret v
      | None => ret JUndefined
      end
  end.

(** [v.toString()]: a [TypeError] on [undefined] and [null], which have no
    properties, and wherever the conversion to a string throws (an own
    [toString] key is not a function; an array joins its elements) *)
Definition toString_method (v : jsval) : M string :=
  match v with
  | JUndefined | JNull => throw TypeError
  | _ =>
      match ToString v with
      | Some text => ret text
      | None => throw TypeError
      end
  end.

Definition mode_of (v : jsval) : option Mode :=
  match v with
  | JStr s =>
      if String.eqb s "original" then Some original
      else if String.eqb s "new" then Some new
      else None
  | _ => None
  end.

Definition mode_name (m : Mode) : string :=
  match m with original => "original" | new => "new" end.

Definition handleFunctionCall (fc : FunctionCall) : M unit :=
  if name_is fc "updateMrp" then
    newAmount <- property fc "amount" ;;
    text <- toString_method newAmount ;;
    setState (setMrpInput text) ;;
    emit [ToolResponseSent {| fr_id := fc_id fc;
                              fr_name := fc_name fc;
                              fr_result := "ok, updated value" |}]
  else if name_is fc "switchMode" then
    mode <- property fc "mode" ;;
    match mode_of mode with
    | Some m =>
        setState (setCalculationMode m) ;;
        emit [ToolResponseSent {| fr_id := fc_id fc;
                                  fr_name := fc_name fc;
                                  fr_result := ("switched to " ++ mode_name m ++ " mode")%string |}]
    | None => ret tt
    end
  else ret tt.

(** *** Playback scheduling *)
Definition schedule (source : AudioBufferSourceNode) (now : number) (buffer : AudioBuffer) : M unit :=
  r <- getRefs ;;
  let startTime := Math_max now (nextStartTimeRef r) in
  emit [SourceStarted source startTime] ;;
  setRefs (set_nextStartTimeRef (startTime + duration buffer)%num) ;;
  r <- getRefs ;;
  setRefs (set_sourcesRef (sourcesRef r ++ [source])).

(** *** [onmessage]; [now] is the playback clock when the buffer is scheduled *)
Definition onmessage (msg : LiveServerMessage) (now : number) : M unit :=
  match toolCall msg with
  | Some tc =>
      match tc with
      | Some functionCalls => forEach functionCalls handleFunctionCall
      | None => throw TypeError
      end
  | None => ret tt
  end ;;
  r <- getRefs ;;
  match audioData msg, audioContextRef r with
  | Some binaryString, Some ctx =>
      setState (setIsAiSpeaking true) ;;
      buffer <- decodeAudioData (base64ToUint8Array binaryString) 24000 1 ;;
      source <- createBufferSource ;;
      schedule source now buffer
  | _, _ => ret tt
  end.

(** [source.onended] *)
Definition onended (source : AudioBufferSourceNode) : M unit :=
  r <- getRefs ;;
  setRefs (set_sourcesRef (filter (fun s => negb (Nat.eqb s source)) (sourcesRef r))) ;;
  r <- getRefs ;;
  match sourcesRef r with
  | [] => setState (setIsAiSpeaking false)
  | _ => ret tt
  end.

Definition onclose : M unit :=
  emit [Logged "Live session closed"] ;;
  setState (setIsLiveActive false).

Definition onerror : M unit :=
  emit [Logged "Live session error"] ;;
  stopAudio.

(** *** [toggleLive], cut at its [await]s *)
Definition toggleLive (hasKey : bool) (inputCtx outputCtx : AudioContext)
    (currentTime : number) : M bool :=
  a <- getApp ;;
  if isLiveActive a then stopAudio ;; ret false
  else if negb hasKey then emit [Alerted "API Key is missing."] ;; ret false
  else
    setState (setIsLiveActive true) ;;
    setRefs (set_inputAudioContextRef (Some inputCtx)) ;;
    setRefs (set_audioContextRef (Some outputCtx)) ;;
    setRefs (set_nextStartTimeRef currentTime) ;;
    ret true.

Definition toggleLive_gotUserMedia (stream : MediaStream) : M unit :=
  setRefs (set_mediaStreamRef (Some stream)).

Definition toggleLive_connected (session : LiveSession) : M unit :=
  setRefs (set_sessionRef (Some session)).

Definition toggleLive_catch : M unit :=
  emit [Logged "error"] ;;
  stopAudio ;;
  emit [Alerted "Failed to start voice session. Make sure microphone permissions are allowed."].

(** the tool responses a run has sent, in order *)
Definition sent (w : World) : list FunctionResponse :=
  flat_map (fun e => match e with ToolResponseSent r => [r] | _ => [] end) (trace w).

(** ** Notions the statements below are phrased with *)

(** Feeding the new MRP of an "original" run back in "new" mode, for one rule. *)
Definition roundTrip (reductionPercent a : number) : number :=
  let forward := processRow original a reductionPercent "" in
  inputMrp (processRow new (newMrp forward) reductionPercent "").

(** a subnormal amount, about 4e-323 *)
Definition tiny_amount : number := S754_finite false 8 (-1074).

(** [x] is finite and within relative distance [tol] of [a] *)
Definition close_to (tol : Q) (x a : number) : Prop :=
  match x with
  | S754_finite _ _ _ => (Qabs (value x - value a) <= tol * Qabs (value a))%Q
  | _ => False
  end.

Definition close_to_b (tol : Q) (x a : number) : bool :=
  match x with
  | S754_finite _ _ _ => Qle_bool (Qabs (value x - value a)) (tol * Qabs (value a))
  | _ => false
  end.

(** [x] is finite and within absolute distance [tol] of the rational [q] *)
Definition near (tol : Q) (x : number) (q : Q) : bool :=
  match x with
  | S754_finite _ _ _ => Qle_bool (Qabs (value x - q)) tol
  | _ => false
  end.

(** a clock reading or a duration: zero, positive finite or [+Infinity] *)
Definition time_ok (x : number) : bool :=
  match x with
  | S754_zero false => true
  | S754_finite false m e => bounded prec emax m e
  | S754_infinity false => true
  | _ => false
  end.

(** the order of such numbers, read off their representation *)
Definition rank (x : number) : Z * Z :=
  match x with
  | S754_finite _ m e => (e, Z.pos m)
  | S754_infinity _ => (972, 0)
  | _ => (-1075, 0)
  end.

Definition lex_le (a b : Z * Z) : Prop :=
  fst a < fst b \/ (fst a = fst b /\ snd a <= snd b).

(** the shift record [mrs] is the quotient [N / D] with the position of the
    remainder relative to one half *)
Definition represents (mrs : shr_record) (N D : Z) : Prop :=
  shr_m mrs = N / D /\
  shr_r mrs = (D <=? 2 * (N mod D)) /\
  shr_s mrs = negb (N mod D =? 0) && negb (2 * (N mod D) =? D).

(** one buffer arriving when the playback clock reads [now] *)
Definition arrival : Type := (number * AudioBuffer)%type.

Definition playAll (arrivals : list arrival) : M unit :=
  forEach arrivals
    (fun '(now, buffer) => source <- createBufferSource ;; schedule source now buffer).

(** the start times handed to [source.start], in order *)
Definition started (w : World) : list number :=
  flat_map (fun e => match e with SourceStarted _ t => [t] | _ => [] end) (trace w).

(** The scheduling rule in the words of the specification: each buffer
    starts at the later of the clock and the next free time, and the next
    free time moves to the end of that buffer. *)
Fixpoint spec_startTimes (nextStartTime : number) (arrivals : list arrival) : list number :=
  match arrivals with
  | [] => []
  | (clockNow, buffer) :: rest =>
      let startTime := Math_max clockNow nextStartTime in
      startTime :: spec_startTimes (startTime + duration buffer)%num rest
  end.

Fixpoint spec_nextStartTime (nextStartTime : number) (arrivals : list arrival) : number :=
  match arrivals with
  | [] => nextStartTime
  | (clockNow, buffer) :: rest =>
      spec_nextStartTime (Math_max clockNow nextStartTime + duration buffer)%num rest
  end.

(** all four handles are null and nothing is scheduled *)
Definition released (r : Refs) : Prop :=
  mediaStreamRef r = None /\ inputAudioContextRef r = None /\
  audioContextRef r = None /\ sessionRef r = None /\ sourcesRef r = [].

(** a tool-call message of one call, and a call by name and arguments *)
Definition toolCallMessage (fc : FunctionCall) : LiveServerMessage :=
  {| toolCall := Some (Some [fc]); audioData := None |}.

Definition functionCall (callId name : string) (args : list (string * jsval)) : FunctionCall :=
  {| fc_id := Some callId; fc_name := Some name; fc_args := Some args |}.

(** a call the handler passes over *)
Definition ignored_call (fc : FunctionCall) : bool :=
  negb (name_is fc "updateMrp") &&
  (negb (name_is fc "switchMode") ||
   match fc_args fc with
   | Some fields =>
       match lookup "mode"%string fields with
       | Some v => match mode_of v with Some _ => false | None => true end
       | None => true
       end
   | None => true
   end).

Definition bad_mode_call : FunctionCall :=
  functionCall "call-1" "switchMode" [("mode"%string, JStr "both")].

Definition unknown_call : FunctionCall :=
  functionCall "call-2" "updateAmount" [("amount"%string, JNum (decimal 250 0))].

Definition is_negative (x : number) : bool :=
  match x with
  | S754_finite true _ _ | S754_infinity true => true
  | _ => false
  end.

(** a session in full swing: microphone, both clocks and the stream are
    held, and two buffers are scheduled *)
Definition activeWorld : World :=
  {| app := setIsAiSpeaking true (setIsLiveActive true initialState);
     refs := {| audioContextRef := Some 2%nat;
                inputAudioContextRef := Some 1%nat;
                sessionRef := Some 7%nat;
                mediaStreamRef := Some {| getTracks := [3%nat] |};
                nextStartTimeRef := decimal 5 (-1);
                sourcesRef := [0%nat; 1%nat] |};
     trace := [];
     nodes := 2%nat |}.

Definition arrival_ok (a : arrival) : bool :=
  time_ok (fst a) && time_ok (duration (snd a)).

(** a mono buffer of silence at the playback rate *)
Definition silence (frames : Z) : AudioBuffer :=
  {| numberOfChannels := 1;
     frameCount := frames;
     sampleRate := 24000;
     channelData := [repeat n_0 (Z.to_nat frames)] |}.

(** three buffers that arrive together when the clock reads one half *)
Definition burst : list arrival :=
  [(decimal 5 (-1), silence 2400); (decimal 5 (-1), silence 4800);
   (decimal 5 (-1), silence 1200)].

(** a sample as the capture buffer can hold it: a zero or a well-formed
    finite number *)
Definition sample_ok (x : number) : bool :=
  match x with
  | S754_zero _ => true
  | S754_finite _ m e => bounded prec emax m e
  | _ => false
  end.

(** ** Base64 transport of PCM data *)

(** the bytes behind an [Int16Array] ([pcmData.buffer]): two per element,
    low byte first *)
Definition Int16Array_buffer (pcm : list Z) : list Z :=
  flat_map (fun v => let u := v mod 65536 in [u mod 256; u / 256]) pcm.

(** [String.fromCharCode] on a byte, and the binary string of a byte array *)
Definition fromCharCode (b : Z) : ascii := ascii_of_nat (Z.to_nat b).

Definition binaryString_of (bytes : list Z) : string :=
  string_of_list_ascii (map fromCharCode bytes).

Definition base64_alphabet : string :=
  "ABCDEFGHIJKLMNOPQRSTUVWXYZabcdefghijklmnopqrstuvwxyz0123456789+/".

Definition sextet_char (n : Z) : ascii :=
  match String.get (Z.to_nat n) base64_alphabet with
  | Some c => c
  | None => "="%char
  end.

Definition char_sextet (c : ascii) : option Z :=
  let n := Z.of_nat (nat_of_ascii c) in
  if (65 <=? n) && (n <=? 90) then Some (n - 65)
  else if (97 <=? n) && (n <=? 122) then Some (n - 71)
  else if (48 <=? n) && (n <=? 57) then Some (n + 4)
  else if n =? 43 then Some 62
  else if n =? 47 then Some 63
  else None.

(** [btoa] on the bytes of a binary string: three bytes make four
    characters, and a last group of one or two bytes is padded with "=" *)
Fixpoint btoa_bytes (bytes : list Z) : list ascii :=
  match bytes with
  | a :: b :: c :: rest =>
      let n := a * 65536 + b * 256 + c in
      sextet_char (n / 262144) :: sextet_char (n / 4096 mod 64) ::
      sextet_char (n / 64 mod 64) :: sextet_char (n mod 64) :: btoa_bytes rest
  | [a; b] =>
      let n := a * 65536 + b * 256 in
      [sextet_char (n / 262144); sextet_char (n / 4096 mod 64);
       sextet_char (n / 64 mod 64); "="%char]
  | [a] =>
      let n := a * 65536 in
      [sextet_char (n / 262144); sextet_char (n / 4096 mod 64); "="%char; "="%char]
  | [] => []
  end.

Definition btoa (binary : string) : string :=
  string_of_list_ascii
    (btoa_bytes (map (fun c => Z.of_nat (nat_of_ascii c)) (list_ascii_of_string binary))).

(** [arrayBufferToBase64] *)
Definition arrayBufferToBase64 (buffer : list Z) : string :=
  btoa (binaryString_of buffer).

(** [atob]: the forgiving base64 decoding.  White space is dropped; one or
    two "=" at the end of a length that is a multiple of four are dropped; a
    length that then leaves remainder one, or any character outside the
    alphabet, is an [InvalidCharacterError] ([None]); a last group of two or
    three characters gives one or two bytes. *)
Definition is_base64_space (c : ascii) : bool :=
  let n := nat_of_ascii c in
  (n =? 9)%nat || (n =? 10)%nat || (n =? 12)%nat || (n =? 13)%nat || (n =? 32)%nat.

Definition strip_padding (data : list ascii) : list ascii :=
  if (Nat.modulo (List.length data) 4 =? 0)%nat then
    match rev data with
    | last :: r =>
        if Ascii.eqb last "=" then
          match r with
          | before :: r' => if Ascii.eqb before "=" then rev r' else rev r
          | [] => rev r
          end
        else data
    | [] => data
    end
  else data.

Fixpoint sextets (data : list ascii) : option (list Z) :=
  match data with
  | [] => Some []
  | c :: rest =>
      match char_sextet c, sextets rest with
      | Some n, Some l => Some (n :: l)
      | _, _ => None
      end
  end.

Fixpoint atob_bytes (s : list Z) : list Z :=
  match s with
  | a :: b :: c :: d :: rest =>
      let n := ((a * 64 + b) * 64 + c) * 64 + d in
      n / 65536 :: n / 256 mod 256 :: n mod 256 :: atob_bytes rest
  | [a; b; c] =>
      let n := ((a * 64 + b) * 64 + c) / 4 in
      [n / 256; n mod 256]
  | [a; b] => [(a * 64 + b) / 16]
  | _ => []
  end.

Definition atob (data : string) : option string :=
  let data := filter (fun c => negb (is_base64_space c)) (list_ascii_of_string data) in
  let data := strip_padding data in
  if (Nat.modulo (List.length data) 4 =? 1)%nat then None
  else
    match sextets data with
    | Some s => Some (binaryString_of (atob_bytes s))
    | None => None
    end.

(** what the capture handler hands to [sendRealtimeInput] as [data] *)
Definition realtimeInputData (inputData : list number) : string :=
  arrayBufferToBase64 (Int16Array_buffer (map encodeSample inputData)).

(** [base64ToUint8Array] with its [atob] *)
Definition base64ToUint8Array_atob (base64 : string) : option (list Z) :=
  option_map base64ToUint8Array (atob base64).

(** [onmessage] on the message as it arrives, its audio payload still the
    base64 text: the handler tests the text (an empty one is skipped), turns
    the speaking flag on and has [base64ToUint8Array] decode the text, where
    [atob] throws an [InvalidCharacterError] on a text that is not base64 *)
Definition onmessage_base64 (tc : option (option (list FunctionCall)))
    (text : option string) (now : number) : M unit :=
  match tc with
  | Some calls =>
      match calls with
      | Some functionCalls => forEach functionCalls handleFunctionCall
      | None => throw TypeError
      end
  | None => ret tt
  end ;;
  r <- getRefs ;;
  match text, audioContextRef r with
  | Some (String c rest), Some ctx =>
      setState (setIsAiSpeaking true) ;;
      match base64ToUint8Array_atob (String c rest) with
      | Some bytes =>
          buffer <- decodeAudioData bytes 24000 1 ;;
          source <- createBufferSource ;;
          schedule source now buffer
      | None => throw InvalidCharacterError
      end
  | _, _ => ret tt
  end.

(** the characters [btoa] writes before the padding, as numbers, and the
    padding *)
Fixpoint encode_sextets (bytes : list Z) : list Z :=
  match bytes with
  | a :: b :: c :: rest =>
      let n := a * 65536 + b * 256 + c in
      n / 262144 :: n / 4096 mod 64 :: n / 64 mod 64 :: n mod 64 :: encode_sextets rest
  | [a; b] =>
      let n := a * 65536 + b * 256 in
      [n / 262144; n / 4096 mod 64; n / 64 mod 64]
  | [a] =>
      let n := a * 65536 in
      [n / 262144; n / 4096 mod 64]
  | [] => []
  end.

Fixpoint padding (bytes : list Z) : list ascii :=
  match bytes with
  | _ :: _ :: _ :: rest => padding rest
  | [_; _] => ["="%char]
  | [_] => ["="%char; "="%char]
  | [] => []
  end.

Definition is_byte (b : Z) : Prop := 0 <= b <= 255.
Definition is_int16 (v : Z) : Prop := -32768 <= v <= 32767.
(** a number below 64 is written as a character of the alphabet that reads
    back as that number *)
Definition sextet_ok (k : nat) : bool :=
  let c := sextet_char (Z.of_nat k) in
  match char_sextet c with
  | Some n => (n =? Z.of_nat k) && negb (is_base64_space c) && negb (Ascii.eqb c "=")
  | None => false
  end.

(** ** Notions for the life cycle of a session *)

(** what a teardown does to the outside, read off the refs it finds: the
    tracks of the stream, the capture clock, the playback clock, the
    session, and the scheduled sources, in this order *)
Definition teardown_effects (r : Refs) : list Effect :=
  match mediaStreamRef r with
  | Some stream => map TrackStopped (getTracks stream)
  | None => []
  end ++
  match inputAudioContextRef r with Some c => [ContextClosed c] | None => [] end ++
  match audioContextRef r with Some c => [ContextClosed c] | None => [] end ++
  match sessionRef r with Some s => [SessionClosed s] | None => [] end ++
  map SourceStopped (sourcesRef r).

(** the refs after a teardown: only the next start time is kept *)
Definition released_refs (r : Refs) : Refs :=
  {| audioContextRef := None; inputAudioContextRef := None;
     sessionRef := None; mediaStreamRef := None;
     nextStartTimeRef := nextStartTimeRef r;
     sourcesRef := [] |}.

(** the state with both session flags off *)
Definition idle (a : AppState) : AppState :=
  setIsAiSpeaking false (setIsLiveActive false a).

(** what a start that gets its microphone stream and its connection does to
    the state and to the refs: the segments of [toggleLive] between its
    [await]s.  The calls it makes to the outside on the way ([getUserMedia],
    [connect], and the [onopen] callback with its log line and its capture
    graph) touch neither and are not part of it. *)
Definition startSession (inputCtx outputCtx : AudioContext) (currentTime : number)
    (stream : MediaStream) (session : LiveSession) : M unit :=
  toggleLive true inputCtx outputCtx currentTime ;;
  toggleLive_gotUserMedia stream ;;
  toggleLive_connected session.

(** ** Notions for tool calls *)

(** the [amount] argument of a call, when it has arguments at all *)
Definition amount_of (fc : FunctionCall) : option jsval :=
  match fc_args fc with
  | Some fields =>
      Some (match lookup "amount"%string fields with Some v => v | None => JUndefined end)
  | None => None
  end.

(** what [v.toString()] returns; [None] where it throws *)
Definition stringified (v : jsval) : option string :=
  match v with
  | JUndefined | JNull => None
  | _ => ToString v
  end.

(** values on which [.toString()] returns *)
Definition has_toString (v : jsval) : bool :=
  match stringified v with Some _ => true | None => false end.

(** calls on which the handler throws: an [updateMrp] without arguments or
    with an amount whose [toString()] throws (missing, null, an object with
    an own [toString] key, an array holding such an object), a [switchMode]
    without arguments *)
Definition throwing_call (fc : FunctionCall) : bool :=
  if name_is fc "updateMrp" then
    match amount_of fc with
    | Some v => negb (has_toString v)
    | None => true
    end
  else if name_is fc "switchMode" then
    match fc_args fc with None => true | Some _ => false end
  else false.

(** the amount text a call asks for, and the mode it asks for *)
Definition text_of (fc : FunctionCall) : option string :=
  if name_is fc "updateMrp" then
    match amount_of fc with
    | Some v => stringified v
    | None => None
    end
  else None.

Definition requested_mode (fc : FunctionCall) : option Mode :=
  if name_is fc "updateMrp" then None
  else if name_is fc "switchMode" then
    match fc_args fc with
    | Some fields =>
        match lookup "mode"%string fields with
        | Some v => mode_of v
        | None => None
        end
    | None => None
    end
  else None.

(** the acknowledgment a call gets, if any *)
Definition ack_of (fc : FunctionCall) : option FunctionResponse :=
  if name_is fc "updateMrp" then
    Some {| fr_id := fc_id fc; fr_name := fc_name fc; fr_result := "ok, updated value" |}
  else
    match requested_mode fc with
    | Some m => Some {| fr_id := fc_id fc; fr_name := fc_name fc;
                        fr_result := ("switched to " ++ mode_name m ++ " mode")%string |}
    | None => None
    end.

Definition acks (calls : list FunctionCall) : list FunctionResponse :=
  flat_map (fun fc => match ack_of fc with Some r => [r] | None => [] end) calls.

(** the last value asked for, or the one there was *)
Definition last_some {A : Type} (asked : list (option A)) (current : A) : A :=
  fold_left (fun acc o => match o with Some x => x | None => acc end) asked current.

(** ** Notions for the amount text *)

Fixpoint all_digits (s : string) : bool :=
  match s with
  | String c r => is_digit c && all_digits r
  | EmptyString => true
  end.

(** the first character, if any, is not a digit *)
Definition no_leading_digit (s : string) : bool :=
  match s with
  | String c _ => negb (is_digit c)
  | EmptyString => true
  end.

(** ** Notions for rounding to nearest *)

(** [R] is the integer nearest to [N / D], the even one of two *)
Definition nearest_even (N D R : Z) : Prop :=
  2 * Z.abs (R * D - N) <= D /\ (2 * Z.abs (R * D - N) = D -> Z.even R = true).

(** the number that stands for [R * 2^e1]: zero, a well-formed finite
    number, or infinity from [2^1024] on *)
Definition rounded (sx : bool) (R e1 : Z) (y : number) : Prop :=
  (R = 0 /\ y = S754_zero sx) \/
  (exists m' e', y = S754_finite sx m' e' /\ bounded prec emax m' e' = true /\
                 e1 <= e' /\ Z.pos m' * 2 ^ (e' - e1) = R) \/
  (y = S754_infinity sx /\ 971 <= e1 /\ 2 ^ 53 <= R * 2 ^ (e1 - 971)).

(** the exponent of the number nearest to the positive rational [q]: the
    one that leaves 53 bits before the binary point, and at least the
    lowest one *)
Definition exponent_of (q : Q) (e1 : Z) : Prop :=
  (e1 = -1074 /\ (q < 2 ^ (-1021))%Q) \/
  (-1074 < e1 /\ (2 ^ (e1 + 52) <= q)%Q /\ (q < 2 ^ (e1 + 53))%Q).

(** [R * u] is the multiple of [u] nearest to [q], the even one of two *)
Definition nearest_multiple (q u : Q) (R : Z) : Prop :=
  (q - u * (1 # 2) <= inject_Z R * u)%Q /\
  (inject_Z R * u <= q + u * (1 # 2))%Q /\
  ((inject_Z R * u == q - u * (1 # 2))%Q \/ (inject_Z R * u == q + u * (1 # 2))%Q ->
   Z.even R = true).

Definition stands_for (R e1 : Z) (y : number) : Prop :=
  (R = 0 /\ y = S754_zero false) \/
  (exists m e, y = S754_finite false m e /\ bounded prec emax m e = true /\
               (value y == inject_Z R * 2 ^ e1)%Q) \/
  (y = S754_infinity false /\ (2 ^ 1024 <= inject_Z R * 2 ^ e1)%Q).

(** [y] is the binary64 number nearest to [q], ties to even *)
Definition rounds (q : Q) (y : number) : Prop :=
  exists e1 R, exponent_of q e1 /\ nearest_multiple q (2 ^ e1) R /\ stands_for R e1 y.

(** * Proofs *)

(** ** Rounding in binary64 *)

Module Binary64.

Lemma digits2_pos_size (p : positive) : digits2_pos p = Pos.size p.
Proof. induction p; simpl; congruence. Qed.

Lemma digits2_pos_bounds (p : positive) :
  2 ^ (Z.pos (digits2_pos p) - 1) <= Z.pos p < 2 ^ Z.pos (digits2_pos p).
Proof.
  rewrite digits2_pos_size. split.
  - pose proof (Pos.size_le p) as H.
    assert (E : 2 ^ Z.pos (Pos.size p) = 2 * 2 ^ (Z.pos (Pos.size p) - 1)).
    { rewrite <- Z.pow_succ_r by lia. f_equal. lia. }
    assert (H' : (2 ^ Z.pos (Pos.size p) <= 2 * Z.pos p)).
    { change 2 with (Z.pos 2). rewrite <- Pos2Z.inj_pow. 
      change (Z.pos 2 * Z.pos p) with (Z.pos (p~0)). apply Pos2Z.pos_le_pos. exact H. }
    lia.
  - pose proof (Pos.size_gt p) as H.
    change 2 with (Z.pos 2). rewrite <- Pos2Z.inj_pow. apply Pos2Z.pos_lt_pos. exact H.
Qed.

Lemma Zdigits2_unique (m d : Z) :
  0 < d -> 2 ^ (d - 1) <= m < 2 ^ d -> Zdigits2 m = d.
Proof.
  intros Hd [Hl Hu].
  assert (0 < 2 ^ (d - 1)) by (apply Z.pow_pos_nonneg; lia).
  destruct m as [|p|p]; try lia.
  simpl. pose proof (digits2_pos_bounds p) as [Bl Bu].
    destruct (Z.lt_trichotomy (Z.pos (digits2_pos p)) d) as [L|[E|G]]; trivial.
    + assert (2 ^ Z.pos (digits2_pos p) <= 2 ^ (d - 1)) by (apply Z.pow_le_mono_r; lia). lia.
    + assert (2 ^ d <= 2 ^ (Z.pos (digits2_pos p) - 1)) by (apply Z.pow_le_mono_r; lia). lia.
Qed.

Lemma iter_pos_nat {A} (f : A -> A) (p : positive) (x : A) :
  iter_pos f p x = Nat.iter (Pos.to_nat p) f x.
Proof.
  revert x. induction p as [p IH|p IH|]; intros x; cbn [iter_pos].
  - rewrite !IH.
    replace (Pos.to_nat p~1) with (Pos.to_nat p + (Pos.to_nat p + 1))%nat by lia.
    rewrite !Nat.iter_add. reflexivity.
  - rewrite !IH.
    replace (Pos.to_nat p~0) with (Pos.to_nat p + Pos.to_nat p)%nat by lia.
    rewrite Nat.iter_add. reflexivity.
  - reflexivity.
Qed.

Lemma shr_1_nonneg (m : Z) (r s : bool) :
  0 <= m ->
  shr_1 {| shr_m := m; shr_r := r; shr_s := s |} =
  {| shr_m := m / 2; shr_r := Z.odd m; shr_s := r || s |}.
Proof.
  intros Hm. destruct m as [|p|p]; try lia; [reflexivity|].
  destruct p as [p|p|]; simpl shr_1; f_equal.
  - rewrite Pos2Z.inj_xI. apply Z.div_unique with 1; lia.
  - rewrite Pos2Z.inj_xO. apply Z.div_unique with 0; lia.
Qed.

Lemma shr_1_represents (mrs : shr_record) (N D : Z) :
  0 <= N -> 0 < D -> represents mrs N D -> represents (shr_1 mrs) N (2 * D).
Proof.
  intros HN HD (Hm & Hr & Hs). destruct mrs as [m r s]. cbn [shr_m shr_r shr_s] in Hm, Hr, Hs.
  assert (Hm0 : 0 <= m) by (subst m; apply Z.div_pos; lia).
  rewrite shr_1_nonneg by assumption. unfold represents. cbn [shr_m shr_r shr_s].
  assert (Hq : N / (2 * D) = m / 2).
  { subst m. rewrite (Z.mul_comm 2 D). rewrite Z.div_div by lia. reflexivity. }
  assert (Hrem : N mod (2 * D) = N mod D + D * (m mod 2)).
  { subst m. rewrite (Z.mul_comm 2 D). apply Z.rem_mul_r; lia. }
  pose proof (Z.mod_pos_bound N D HD) as Hb.
  assert (Hodd : m mod 2 = if Z.odd m then 1 else 0).
  { rewrite Zmod_odd. reflexivity. }
  split; [|split].
  - symmetry. exact Hq.
  - rewrite Hrem, Hodd. destruct (Z.odd m); symmetry.
    + apply Z.leb_le. lia.
    + apply Z.leb_gt. lia.
  - rewrite Hrem, Hodd, Hr, Hs. 
    set (x := N mod D) in *. clearbody x.
    destruct (Z.odd m);
    repeat match goal with
           | |- context [?a =? ?b] => destruct (Z.eqb_spec a b)
           | |- context [?a <=? ?b] => destruct (Z.leb_spec a b)
           end; cbn [negb andb orb]; try reflexivity; lia.
Qed.

Lemma iter_shr_1_represents (n : nat) (mrs : shr_record) (N D : Z) :
  0 <= N -> 0 < D -> represents mrs N D ->
  represents (Nat.iter n shr_1 mrs) N (D * 2 ^ Z.of_nat n).
Proof.
  intros HN HD H. induction n as [|n IH].
  - simpl. rewrite Z.mul_1_r. exact H.
  - rewrite Nat2Z.inj_succ, Z.pow_succ_r by lia. simpl Nat.iter.
    replace (D * (2 * 2 ^ Z.of_nat n)) with (2 * (D * 2 ^ Z.of_nat n)) by ring.
    apply shr_1_represents; trivial.
    apply Z.mul_pos_pos; trivial. apply Z.pow_pos_nonneg; lia.
Qed.

Lemma shr_represents (mrs : shr_record) (e n N D : Z) :
  0 <= N -> 0 < D -> 0 <= n -> represents mrs N D ->
  represents (fst (shr mrs e n)) N (D * 2 ^ n) /\ snd (shr mrs e n) = e + n.
Proof.
  intros HN HD Hn H. destruct n as [|p|p]; try lia; cbn [shr fst snd].
  - rewrite Z.pow_0_r, Z.mul_1_r, Z.add_0_r. auto.
  - split; trivial. rewrite iter_pos_nat, <- (positive_nat_Z p).
    apply iter_shr_1_represents; trivial.
Qed.

Lemma rne_represents (mrs : shr_record) (N D : Z) :
  0 <= N -> 0 < D -> represents mrs N D ->
  let R := round_nearest_even (shr_m mrs) (loc_of_shr_record mrs) in
  N / D <= R <= N / D + 1 /\ 2 * Z.abs (R * D - N) <= D.
Proof.
  intros HN HD (Hm & Hr & Hs). destruct mrs as [m r s].
  cbn [shr_m shr_r shr_s] in Hm, Hr, Hs. cbn [shr_m].
  pose proof (Z.div_mod N D ltac:(lia)) as E.
  pose proof (Z.mod_pos_bound N D HD) as Hb.
  set (x := N mod D) in *. set (q := N / D) in *. clearbody x q. subst m.
  assert (Hr' : r = true <-> D <= 2 * x) by (rewrite Hr; apply Z.leb_le).
  assert (Hs' : s = false <-> (x = 0 \/ 2 * x = D)).
  { rewrite Hs. destruct (Z.eqb_spec x 0), (Z.eqb_spec (2 * x) D); cbn; intuition lia. }
  clear Hr Hs.
  destruct r, s; cbn [loc_of_shr_record round_nearest_even].
  - assert (D <= 2 * x) by (apply Hr'; reflexivity). nia.
  - assert (D <= 2 * x) by (apply Hr'; reflexivity).
    assert (x = 0 \/ 2 * x = D) by (apply Hs'; reflexivity).
    destruct (Z.even q); nia.
  - assert (~ D <= 2 * x) by (intros H; apply Hr' in H; discriminate). nia.
  - assert (~ D <= 2 * x) by (intros H; apply Hr' in H; discriminate).
    assert (x = 0 \/ 2 * x = D) by (apply Hs'; reflexivity). nia.
Qed.

Lemma fexp_eq (e : Z) : fexp prec emax e = Z.max (e - 53) (-1074).
Proof. reflexivity. Qed.

Lemma shr_fexp_exact_0 (p emx m e : Z) :
  fexp p emx (Zdigits2 m + e) = e ->
  shr_fexp p emx m e loc_Exact = ({| shr_m := m; shr_r := false; shr_s := false |}, e).
Proof.
  intros H. unfold shr_fexp. rewrite H, Z.sub_diag. reflexivity.
Qed.

Lemma binary_round_aux_spec (sx : bool) (mx e : Z) (lx : location) (N D : Z) :
  0 < D -> D <= N -> represents (shr_record_of_loc mx lx) N D ->
  let e1 := fexp prec emax (Zdigits2 mx + e) in
  e <= e1 ->
  exists R : Z,
    (N / (D * 2 ^ (e1 - e)) <= R <= N / (D * 2 ^ (e1 - e)) + 1) /\
    2 * Z.abs (R * (D * 2 ^ (e1 - e)) - N) <= D * 2 ^ (e1 - e) /\
    ((R = 0 /\ binary_round_aux prec emax sx mx e lx = S754_zero sx) \/
     (exists m' e', binary_round_aux prec emax sx mx e lx = S754_finite sx m' e' /\
                    bounded prec emax m' e' = true /\ e1 <= e' <= e1 + 1 /\
                    Z.pos m' * 2 ^ (e' - e1) = R /\
                    (-1074 <= Zdigits2 mx + e - 53 -> Z.pos (digits2_pos m') = 53)) \/
     (binary_round_aux prec emax sx mx e lx = S754_infinity sx /\ emax - prec <= e1)).
Proof.
  intros HD HN Hrep e1 Hk.
  assert (Hmx : mx = N / D).
  { destruct Hrep as (Hm & _). destruct lx as [|[]]; exact Hm. }
  assert (Hmx1 : 1 <= mx).
  { subst mx. apply Z.div_le_lower_bound; lia. }
  set (k := e1 - e) in *.
  assert (Hk0 : 0 <= k) by (unfold k; lia).
  assert (H2k : 0 < 2 ^ k) by (apply Z.pow_pos_nonneg; lia).
  destruct (shr_represents (shr_record_of_loc mx lx) e k N D) as [Hrep1 He1]; try lia; trivial.
  unfold binary_round_aux.
  change (shr_fexp prec emax mx e lx) with (shr (shr_record_of_loc mx lx) e k).
  destruct (shr (shr_record_of_loc mx lx) e k) as [mrs' e'] eqn:Eshr.
  cbn [fst snd] in Hrep1, He1. 
  assert (Ee : e' = e1) by (rewrite He1; unfold k; lia). clear He1. subst e'.
  assert (HDk : 0 < D * 2 ^ k) by (apply Z.mul_pos_pos; lia).
  destruct (rne_represents mrs' N (D * 2 ^ k)) as [HR1 HR2]; try lia; trivial.
  set (R := round_nearest_even (shr_m mrs') (loc_of_shr_record mrs')) in *.
  exists R. split; [exact HR1|]. split; [exact HR2|].
  assert (Hm1 : N / (D * 2 ^ k) = mx / 2 ^ k).
  { rewrite Hmx. rewrite Z.div_div by lia. reflexivity. }
  rewrite Hm1 in HR1.
  (* digits of the input mantissa *)
  destruct mx as [|pm|pm]; try lia.
  pose proof (digits2_pos_bounds pm) as [Hdl Hdu].
  cbn [Zdigits2] in e1.
  set (d := Z.pos (digits2_pos pm)) in *.
  assert (Hd : 1 <= d) by (unfold d; lia).
  assert (He1 : e1 = Z.max (d + e - 53) (-1074)) by (unfold e1; apply fexp_eq).
  destruct (Z_le_gt_dec (-1074) (d + e - 53)) as [Hnorm|Hsub].
  - (* normal range: the shifted mantissa has exactly 53 digits *)
    assert (Hkd : k = d - 53) by (unfold k; lia).
    assert (P1 : 2 ^ (d - 1) = 2 ^ 52 * 2 ^ k).
    { rewrite <- Z.pow_add_r by lia. f_equal. lia. }
    assert (P2 : 2 ^ d = 2 ^ 53 * 2 ^ k).
    { rewrite <- Z.pow_add_r by lia. f_equal. lia. }
    assert (Hlo : 2 ^ 52 <= Z.pos pm / 2 ^ k).
    { apply Z.div_le_lower_bound; lia. }
    assert (Hhi : Z.pos pm / 2 ^ k < 2 ^ 53).
    { apply Z.div_lt_upper_bound; lia. }
    destruct (Z_lt_le_dec R (2 ^ 53)) as [Hno|Hcarry].
    + assert (HdR : Zdigits2 R = 53) by (apply Zdigits2_unique; lia).
      rewrite shr_fexp_exact_0 by (rewrite HdR, fexp_eq; lia).
      cbn [shr_m]. destruct R as [|pr|pr]; try lia.
      destruct (Z.leb_spec e1 (emax - prec)) as [Hfin|Hinf].
      * right; left. exists pr, e1. cbn [Zdigits2] in HdR.
        split; [reflexivity|]. split; [|split; [lia|split]].
        -- unfold bounded, canonical_mantissa. rewrite HdR, fexp_eq.
           apply andb_true_intro; split; [apply Z.eqb_eq; lia | apply Z.leb_le; exact Hfin].
        -- rewrite Z.sub_diag. lia.
        -- intros _. exact HdR.
      * right; right. split; [reflexivity|lia].
    + assert (HR : R = 2 ^ 53) by lia.
      assert (HdR : Zdigits2 R = 54) by (rewrite HR; reflexivity).
      unfold shr_fexp. rewrite HdR, fexp_eq.
      replace (Z.max (54 + e1 - 53) (-1074) - e1) with 1 by lia.
      rewrite HR. cbn [shr_record_of_loc shr iter_pos shr_1 shr_m].
      change (Z.pow_pos 2 53) with (2 ^ 53). cbn.
      destruct (Z.leb_spec (e1 + 1) 971) as [Hfin|Hinf].
      * right; left. eexists _, (e1 + 1). split; [reflexivity|]. split; [|split; [lia|split]].
        -- unfold bounded, canonical_mantissa. 
           change (Z.pos (digits2_pos 4503599627370496)) with 53. rewrite fexp_eq.
           apply andb_true_intro; split; [apply Z.eqb_eq; lia | apply Z.leb_le; exact Hfin].
        -- replace (e1 + 1 - e1) with 1 by lia. reflexivity.
        -- intros _. reflexivity.
      * right; right. split; [reflexivity|unfold emax, prec in *; lia].
  - (* subnormal range: the exponent is emin and there is no carry out *)
    assert (He1' : e1 = -1074) by lia.
    assert (HRhi : R <= 2 ^ 52).
    { destruct (Z_le_gt_dec d k) as [Hs1|Hs2].
      - assert (2 ^ d <= 2 ^ k) by (apply Z.pow_le_mono_r; lia).
        assert (Z.pos pm / 2 ^ k = 0) by (apply Z.div_small; lia). lia.
      - assert (P : 2 ^ d = 2 ^ (d - k) * 2 ^ k).
        { rewrite <- Z.pow_add_r by lia. f_equal. lia. }
        assert (Z.pos pm / 2 ^ k < 2 ^ (d - k)) by (apply Z.div_lt_upper_bound; lia).
        assert (2 ^ (d - k) <= 2 ^ 52) by (apply Z.pow_le_mono_r; unfold k; lia).
        lia. }
    assert (HR0 : 0 <= R).
    { assert (0 <= Z.pos pm / 2 ^ k) by (apply Z.div_pos; lia). lia. }
    destruct R as [|pr|pr] eqn:ER; try lia.
    + left. split; trivial. 
      rewrite shr_fexp_exact_0 by (cbn [Zdigits2]; rewrite fexp_eq; lia). reflexivity.
    + pose proof (digits2_pos_bounds pr) as [Hrl Hru].
      assert (HdR : Z.pos (digits2_pos pr) <= 53).
      { destruct (Z_le_gt_dec (Z.pos (digits2_pos pr)) 53) as [|G]; trivial.
        assert (2 ^ 53 <= 2 ^ (Z.pos (digits2_pos pr) - 1)) by (apply Z.pow_le_mono_r; lia).
        lia. }
      rewrite shr_fexp_exact_0 by (cbn [Zdigits2]; rewrite fexp_eq; lia).
      cbn [shr_m]. destruct (Z.leb_spec e1 (emax - prec)) as [Hfin|Hinf].
      * right; left. exists pr, e1. split; [reflexivity|]. split; [|split; [lia|split]].
        -- unfold bounded, canonical_mantissa. rewrite fexp_eq.
           apply andb_true_intro; split; [apply Z.eqb_eq; lia | apply Z.leb_le; exact Hfin].
        -- rewrite Z.sub_diag. lia.
        -- cbn [Zdigits2]. fold d. lia.
      * unfold emax, prec in Hinf. lia.
Qed.

Lemma represents_exact (m : Z) :
  represents (shr_record_of_loc m loc_Exact) m 1.
Proof.
  unfold represents. cbn [shr_record_of_loc shr_m shr_r shr_s].
  rewrite Z.div_1_r, Z.mod_1_r. repeat split.
Qed.

Lemma represents_new_location (N D : Z) :
  0 <= N -> 0 < D ->
  represents (shr_record_of_loc (N / D) (new_location D (N mod D))) N D.
Proof.
  intros HN HD. pose proof (Z.mod_pos_bound N D HD) as Hb.
  set (x := N mod D) in *.
  assert (G : forall l r s, shr_record_of_loc (N / D) l = {| shr_m := N / D; shr_r := r; shr_s := s |} ->
              r = (D <=? 2 * x) -> s = negb (x =? 0) && negb (2 * x =? D) ->
              represents (shr_record_of_loc (N / D) l) N D).
  { intros l r s -> Hr Hs. unfold represents. cbn [shr_m shr_r shr_s]. fold x. auto. }
  unfold new_location, new_location_even, new_location_odd.
  destruct (Z.even D) eqn:Ev.
  - destruct (Z.eqb_spec x 0) as [E0|E0].
    + eapply G; [reflexivity| |]; rewrite E0; cbn; symmetry; [apply Z.leb_gt; lia|reflexivity].
    + destruct (Z.compare_spec (2 * x) D) as [E|L|Gt];
        (eapply G; [reflexivity| |]);
        destruct (Z.leb_spec D (2 * x)); destruct (Z.eqb_spec (2 * x) D);
        destruct (Z.eqb_spec x 0); cbn; try reflexivity; lia.
  - assert (Hodd : 2 * x <> D).
    { intros E. rewrite <- E in Ev. rewrite Z.even_mul in Ev. discriminate. }
    destruct (Z.eqb_spec x 0) as [E0|E0].
    + eapply G; [reflexivity| |]; rewrite E0; cbn; symmetry; [apply Z.leb_gt; lia|reflexivity].
    + destruct (Z.compare_spec (2 * x + 1) D) as [E|L|Gt];
        (eapply G; [reflexivity| |]);
        destruct (Z.leb_spec D (2 * x)); destruct (Z.eqb_spec (2 * x) D);
        destruct (Z.eqb_spec x 0); cbn; try reflexivity; lia.
Qed.

Lemma bounded_inv (m : positive) (e : Z) :
  bounded prec emax m e = true ->
  e = Z.max (Z.pos (digits2_pos m) + e - 53) (-1074) /\ e <= 971.
Proof.
  unfold bounded, canonical_mantissa. rewrite fexp_eq.
  intros H. apply andb_prop in H. destruct H as [H1 H2].
  apply Z.eqb_eq in H1. apply Z.leb_le in H2. unfold emax, prec in H2. lia.
Qed.

Lemma Zdigits2_mul_ge (a b : positive) :
  Z.pos (digits2_pos a) + Z.pos (digits2_pos b) - 1 <= Z.pos (digits2_pos (a * b)) <=
  Z.pos (digits2_pos a) + Z.pos (digits2_pos b).
Proof.
  pose proof (digits2_pos_bounds a) as [Al Au].
  pose proof (digits2_pos_bounds b) as [Bl Bu].
  pose proof (digits2_pos_bounds (a * b)) as [Cl Cu].
  set (da := Z.pos (digits2_pos a)) in *. set (db := Z.pos (digits2_pos b)) in *.
  set (dc := Z.pos (digits2_pos (a * b))) in *.
  assert (1 <= da) by (unfold da; lia). assert (1 <= db) by (unfold db; lia).
  assert (1 <= dc) by (unfold dc; lia).
  rewrite Pos2Z.inj_mul in *.
  assert (L : 2 ^ (da - 1) * 2 ^ (db - 1) <= Z.pos a * Z.pos b).
  { apply Z.mul_le_mono_nonneg; lia. }
  assert (U : Z.pos a * Z.pos b < 2 ^ da * 2 ^ db).
  { apply Z.mul_lt_mono_nonneg; lia. }
  rewrite <- Z.pow_add_r in L, U by lia.
  split.
  - destruct (Z_le_gt_dec (da + db - 1) dc) as [|G]; trivial.
    assert (2 ^ dc <= 2 ^ (da - 1 + (db - 1))) by (apply Z.pow_le_mono_r; lia). lia.
  - destruct (Z_le_gt_dec dc (da + db)) as [|G]; trivial.
    assert (2 ^ (da + db) <= 2 ^ (dc - 1)) by (apply Z.pow_le_mono_r; lia). lia.
Qed.

(** multiplication of two positive numbers whose product is in the normal
    range: the result is the product up to a relative error of 2^-53 *)
Lemma SFmul_normal (mx my : positive) (ex ey : Z) :
  let d := Z.pos (digits2_pos (mx * my)) in
  53 <= d ->
  -1074 <= d + (ex + ey) - 53 < 971 ->
  exists (mp : positive) (ep : Z),
    SFmul prec emax (S754_finite false mx ex) (S754_finite false my ey) = S754_finite false mp ep /\
    bounded prec emax mp ep = true /\
    Z.pos (digits2_pos mp) = 53 /\
    d + (ex + ey) - 53 <= ep <= d + (ex + ey) - 52 /\
    2 ^ 53 * Z.abs (Z.pos mp * 2 ^ (ep - (ex + ey)) - Z.pos mx * Z.pos my) <= Z.pos mx * Z.pos my.
Proof.
  intros d Hd Hrange. cbn [SFmul xorb].
  set (e := ex + ey) in *.
  pose proof (digits2_pos_bounds (mx * my)) as [Dl Du]. fold d in Dl, Du.
  destruct (binary_round_aux_spec false (Z.pos (mx * my)) e loc_Exact (Z.pos (mx * my)) 1)
    as (R & HR1 & HR2 & Hres); try lia.
  - apply represents_exact.
  - cbn [Zdigits2]. fold d. rewrite fexp_eq. lia.
  - cbn [Zdigits2] in HR1, HR2, Hres. fold d in HR1, HR2, Hres.
    rewrite fexp_eq in HR1, HR2, Hres.
    replace (Z.max (d + e - 53) (-1074) - e) with (d - 53) in * by lia.
    replace (Z.max (d + e - 53) (-1074)) with (d + e - 53) in * by lia.
    rewrite Z.mul_1_l in *.
    assert (P : 2 ^ (d - 1) = 2 ^ 52 * 2 ^ (d - 53)).
    { rewrite <- Z.pow_add_r by lia. f_equal. lia. }
    assert (Hk : 0 < 2 ^ (d - 53)) by (apply Z.pow_pos_nonneg; lia).
    assert (Hq : 2 ^ 52 <= Z.pos (mx * my) / 2 ^ (d - 53)).
    { apply Z.div_le_lower_bound; lia. }
    destruct Hres as [[HR0 _]|[(mp & ep & Hr & Hb & Hep & Hmp & Hdp)|[_ Hov]]].
    + lia.
    + exists mp, ep. split; [exact Hr|]. split; [exact Hb|].
      split; [apply Hdp; lia|].
      apply bounded_inv in Hb. destruct Hb as [Hc Hb].
      pose proof (digits2_pos_bounds mp) as [Ml Mu].
      split; [lia|].
      replace (ep - e) with ((ep - (d + e - 53)) + (d - 53)) by lia.
      rewrite Z.pow_add_r by lia. rewrite Z.mul_assoc, Hmp.
      rewrite Pos2Z.inj_mul in *. nia.
    + unfold emax, prec in Hov. lia.
Qed.

Lemma div_eucl_div_mod (a b : Z) : Z.div_eucl a b = (a / b, a mod b).
Proof. unfold Z.div, Z.modulo. destruct (Z.div_eucl a b); reflexivity. Qed.

(** division of two positive numbers whose quotient is in the normal range *)
Lemma SFdiv_normal (mx my : positive) (ex ey : Z) :
  let d1 := Z.pos (digits2_pos mx) in
  let d2 := Z.pos (digits2_pos my) in
  let E := d1 + ex - (d2 + ey) in
  let s := 53 - d1 + d2 in
  d1 <= 53 ->
  -1074 <= E - 53 -> E < 1023 ->
  exists (mq : positive) (eq : Z),
    SFdiv prec emax (S754_finite false mx ex) (S754_finite false my ey) = S754_finite false mq eq /\
    bounded prec emax mq eq = true /\
    Z.pos (digits2_pos mq) = 53 /\
    E - 53 <= eq <= E - 51 /\
    2 ^ 53 * Z.abs (Z.pos mq * 2 ^ (eq - (E - 53)) * Z.pos my - Z.pos mx * 2 ^ s) <= Z.pos mx * 2 ^ s.
Proof.
  intros d1 d2 E s Hd1 Hlo Hhi.
  pose proof (digits2_pos_bounds mx) as [Xl Xu]. fold d1 in Xl, Xu.
  pose proof (digits2_pos_bounds my) as [Yl Yu]. fold d2 in Yl, Yu.
  assert (Hd2 : 1 <= d2) by (unfold d2; lia).
  assert (Hd1' : 1 <= d1) by (unfold d1; lia).
  assert (Hs : 1 <= s) by (unfold s; lia).
  cbn [SFdiv xorb]. unfold SFdiv_core_binary. cbn [Zdigits2]. fold d1 d2.
  rewrite fexp_eq.
  replace (Z.min (Z.max (d1 + ex - (d2 + ey) - 53) (-1074)) (ex - ey)) with (E - 53)
    by (unfold E; lia).
  replace (ex - ey - (E - 53)) with s by (unfold E, s; lia).
  destruct s as [|ps|ps] eqn:Es; try lia. rewrite <- Es in *. clear Es ps.
  rewrite Z.shiftl_mul_pow2 by lia.
  set (N := Z.pos mx * 2 ^ s). rewrite div_eucl_div_mod.
  assert (H2s : 0 < 2 ^ s) by (apply Z.pow_pos_nonneg; lia).
  assert (HN : 0 < N) by (unfold N; lia).
  assert (PN1 : 2 ^ (d1 - 1) * 2 ^ s = 2 ^ 52 * 2 ^ d2).
  { rewrite <- !Z.pow_add_r by lia. f_equal. unfold s. lia. }
  assert (PN2 : 2 ^ d1 * 2 ^ s = 2 ^ 54 * 2 ^ (d2 - 1)).
  { rewrite <- !Z.pow_add_r by lia. f_equal. unfold s. lia. }
  assert (NL : 2 ^ 52 * 2 ^ d2 <= N) by (unfold N; nia).
  assert (NU : N < 2 ^ 54 * 2 ^ (d2 - 1)) by (unfold N; nia).
  assert (Hq1 : 2 ^ 52 <= N / Z.pos my).
  { apply Z.div_le_lower_bound; [lia|]. nia. }
  assert (Hq2 : N / Z.pos my < 2 ^ 54).
  { apply Z.div_lt_upper_bound; [lia|]. nia. }
  set (q := N / Z.pos my) in *.
  assert (Hdq : Zdigits2 q = 53 \/ (Zdigits2 q = 54 /\ 2 ^ 53 <= q)).
  { destruct (Z_lt_le_dec q (2 ^ 53)).
    - left. apply Zdigits2_unique; lia.
    - right. split; [apply Zdigits2_unique; lia|lia]. }
  assert (Hqle : Z.pos my * q <= N) by (apply Z.mul_div_le; lia).
  assert (Hqd : 2 ^ (Zdigits2 q - 1) <= q).
  { destruct Hdq as [-> | [-> ?]]; lia. }
  destruct (binary_round_aux_spec false q (E - 53) (new_location (Z.pos my) (N mod Z.pos my)) N (Z.pos my))
    as (R & HR1 & HR2 & Hres); try lia.
  - apply represents_new_location; lia.
  - rewrite fexp_eq. lia.
  - rewrite fexp_eq in HR1, HR2, Hres.
    set (k := Zdigits2 q - 53) in *.
    replace (Z.max (Zdigits2 q + (E - 53) - 53) (-1074) - (E - 53)) with k in * by (unfold k; lia).
    replace (Z.max (Zdigits2 q + (E - 53) - 53) (-1074)) with (E - 53 + k) in * by (unfold k; lia).
    assert (Hk : 0 <= k <= 1) by (unfold k; lia).
    assert (H2k : 0 < 2 ^ k) by (apply Z.pow_pos_nonneg; lia).
    assert (Pk : 2 ^ (Zdigits2 q - 1) = 2 ^ 52 * 2 ^ k).
    { rewrite <- Z.pow_add_r by lia. f_equal. unfold k. lia. }
    destruct Hres as [[HR0 _]|[(mq & eq & Hr & Hb & Heq & Hmq & Hdm)|[_ Hov]]].
    + assert (0 < N / (Z.pos my * 2 ^ k)); [|lia].
      apply Z.div_str_pos. split; [nia|]. nia.
    + exists mq, eq. split; [exact Hr|]. split; [exact Hb|].
      split; [apply Hdm; lia|]. split; [lia|].
      replace (eq - (E - 53)) with ((eq - (E - 53 + k)) + k) by lia.
      rewrite Z.pow_add_r by lia. rewrite Z.mul_assoc, Hmq.
      assert (A1 : Z.pos my * (2 ^ 52 * 2 ^ k) <= Z.pos my * q)
        by (apply Z.mul_le_mono_nonneg_l; lia).
      replace (R * 2 ^ k * Z.pos my - N) with (R * (Z.pos my * 2 ^ k) - N) by ring.
      clear - A1 HR2 Hqle. lia.
    + unfold emax, prec in Hov. lia.
Qed.

Lemma pow2_pos (e : Z) : (0 < 2 ^ e)%Q.
Proof. apply Qpower_0_lt. reflexivity. Qed.

Lemma pow2_add (a b : Z) : (2 ^ (a + b) == 2 ^ a * 2 ^ b)%Q.
Proof. apply Qpower_plus. discriminate. Qed.

Lemma inject_pow2 (n : Z) : 0 <= n -> (inject_Z (2 ^ n) == 2 ^ n)%Q.
Proof. intros H. apply (Zpower_Qpower 2 n H). Qed.

(** a positive finite number written at a smaller exponent *)
Lemma value_rescale (m : positive) (e b : Z) :
  b <= e ->
  (value (S754_finite false m e) == inject_Z (Z.pos m * 2 ^ (e - b)) * 2 ^ b)%Q.
Proof.
  intros H. cbn [value cond_Zopp].
  rewrite inject_Z_mult, inject_pow2 by lia.
  rewrite <- Qmult_assoc, <- pow2_add. replace (e - b + b) with e by lia. reflexivity.
Qed.

Lemma value_lt_pow2 (m : positive) (e : Z) :
  (value (S754_finite false m e) < 2 ^ (Z.pos (digits2_pos m) + e))%Q.
Proof.
  cbn [value cond_Zopp]. rewrite pow2_add.
  apply Qmult_lt_compat_r; [apply pow2_pos|].
  rewrite <- inject_pow2 by lia. rewrite <- Zlt_Qlt.
  apply digits2_pos_bounds.
Qed.

Lemma value_ge_pow2 (m : positive) (e : Z) :
  (2 ^ (Z.pos (digits2_pos m) - 1 + e) <= value (S754_finite false m e))%Q.
Proof.
  cbn [value cond_Zopp]. rewrite pow2_add.
  apply Qmult_le_compat_r; [|apply Qlt_le_weak, pow2_pos].
  rewrite <- inject_pow2 by lia. rewrite <- Zle_Qle.
  apply digits2_pos_bounds.
Qed.

Lemma round_trip_core (ma mc : positive) (ea ec : Z) :
  Z.pos (digits2_pos ma) = 53 -> Z.pos (digits2_pos mc) = 53 ->
  -1073 <= ea <= 968 -> ec <= -52 -> -1126 <= ea + ec ->
  let a := S754_finite false ma ea in
  let c := S754_finite false mc ec in
  exists (mq : positive) (eq : Z),
    SFdiv prec emax (SFmul prec emax a c) c = S754_finite false mq eq /\
    bounded prec emax mq eq = true /\
    (Qabs (value (S754_finite false mq eq) - value a) <= (1 # 1000000000) * value a)%Q.
Proof.
  intros Ha Hc Hea Hec Hsum a c. unfold a, c.
  pose proof (Zdigits2_mul_ge ma mc) as Hd. rewrite Ha, Hc in Hd.
  destruct (SFmul_normal ma mc ea ec) as (mp & ep & Ep & Bp & Dp & Hep & Hp); try lia.
  rewrite Ep.
  pose proof (SFdiv_normal mp mc ep ec) as Hdiv. cbv zeta in Hdiv.
  rewrite Dp, Hc in Hdiv.
  destruct Hdiv as (mq & eq & Eq & Bq & Dq & Heq & Hq); try lia.
  exists mq, eq. split; [exact Eq|]. split; [exact Bq|].
  replace (53 + ep - (53 + ec) - 53) with (ep - ec - 53) in * by lia.
  replace (53 - 53 + 53) with 53 in * by lia.
  set (j := ep - (ea + ec)) in *.
  set (i := eq - (ep - ec - 53)) in *.
  assert (Hj : 0 <= j) by (unfold j; lia).
  assert (Hi : 0 <= i) by (unfold i; lia).
  assert (H2j : 0 < 2 ^ j) by (apply Z.pow_pos_nonneg; lia).
  assert (H2i : 0 < 2 ^ i) by (apply Z.pow_pos_nonneg; lia).
  (* integer form of the bound, at scale 2^(ea-53) *)
  assert (Key : Z.abs (Z.pos mq * 2 ^ i * 2 ^ j - Z.pos ma * 2 ^ 53) <= 3 * Z.pos ma).
  { set (A := Z.pos ma) in *. set (C := Z.pos mc) in *.
    set (P := Z.pos mp * 2 ^ j) in *. set (X := Z.pos mq * 2 ^ i) in *.
    assert (HA : 0 < A) by (unfold A; lia). assert (HC : 0 < C) by (unfold C; lia).
    assert (HP2 : P <= 2 * (A * C)) by lia.
    assert (F2 : 2 ^ 53 * Z.abs (X * 2 ^ j * C - P * 2 ^ 53) <= P * 2 ^ 53).
    { replace (X * 2 ^ j * C - P * 2 ^ 53) with ((X * C - Z.pos mp * 2 ^ 53) * 2 ^ j)
        by (unfold P; ring).
      rewrite Z.abs_mul, (Z.abs_eq (2 ^ j)) by lia.
      replace (P * 2 ^ 53) with (Z.pos mp * 2 ^ 53 * 2 ^ j) by (unfold P; ring).
      rewrite Z.mul_assoc. apply Z.mul_le_mono_nonneg_r; lia. }
    assert (F3 : Z.abs (X * 2 ^ j * C - A * 2 ^ 53 * C) <= 3 * A * C) by lia.
    replace (X * 2 ^ j * C - A * 2 ^ 53 * C) with ((X * 2 ^ j - A * 2 ^ 53) * C) in F3 by ring.
    rewrite Z.abs_mul, (Z.abs_eq C) in F3 by lia.
    apply Z.mul_le_mono_pos_r with C; lia. }
  rewrite (value_rescale mq eq (ea - 53)) by (unfold i, j in *; lia).
  rewrite (value_rescale ma ea (ea - 53)) by lia.
  replace (eq - (ea - 53)) with (i + j) by (unfold i, j; lia).
  replace (ea - (ea - 53)) with 53 by lia.
  rewrite Z.pow_add_r, Z.mul_assoc by lia.
  set (X := Z.pos mq * 2 ^ i * 2 ^ j) in *. set (Y := Z.pos ma * 2 ^ 53) in *.
  set (s := (2 ^ (ea - 53))%Q).
  assert (Hs : (0 < s)%Q) by apply pow2_pos.
  assert (E1 : (inject_Z X * s - inject_Z Y * s == inject_Z (X - Y) * s)%Q).
  { unfold Z.sub. rewrite inject_Z_plus, inject_Z_opp. ring. }
  rewrite E1, Qabs_Qmult, (Qabs_pos s) by (apply Qlt_le_weak; exact Hs).
  rewrite Qmult_assoc. apply Qmult_le_compat_r; [|apply Qlt_le_weak; exact Hs].
  assert (E2 : (Qabs (inject_Z (X - Y)) == inject_Z (Z.abs (X - Y)))%Q).
  { destruct (Z_le_gt_dec 0 (X - Y)) as [H|H].
    - rewrite Z.abs_eq by lia. apply Qabs_pos. rewrite Zle_Qle in H. exact H.
    - assert (H' : X - Y <= 0) by lia.
      rewrite Z.abs_neq by lia. rewrite inject_Z_opp. apply Qabs_neg.
      rewrite Zle_Qle in H'. exact H'. }
  rewrite E2.
  apply Qle_trans with (inject_Z (3 * Z.pos ma)); [rewrite <- Zle_Qle; exact Key|].
  unfold Y. rewrite !inject_Z_mult.
  assert (HA : (0 < inject_Z (Z.pos ma))%Q) by (rewrite <- (Zlt_Qlt 0); lia).
  change (inject_Z (2 ^ 53)) with (9007199254740992 # 1)%Q. change (inject_Z 3) with (3 # 1)%Q.
  lra.
Qed.

End Binary64.

(** ** The price engine *)

Module Price.

Import Binary64.

Lemma roundTrip_eq (r a : number) :
  roundTrip r a = ((a * (n_1 - r / n_100)) / (n_1 - r / n_100))%num.
Proof. reflexivity. Qed.

Lemma positive_finite_inv (x : number) :
  positive_finite x = true ->
  exists (m : positive) (e : Z),
    x = S754_finite false m e /\ bounded prec emax m e = true /\ (0 < value x)%Q.
Proof.
  destruct x as [s|s| |s m e]; try discriminate. destruct s; try discriminate.
  intros B. exists m, e. split; [reflexivity|]. split; [exact B|].
  cbn [value cond_Zopp]. apply Qmult_lt_0_compat; [|apply pow2_pos].
  change 0%Q with (inject_Z 0). rewrite <- Zlt_Qlt. lia.
Qed.

(** a well-formed number that is at least 2^z, with z > -1022, is normal *)
Lemma normal_of_lower_bound (m : positive) (e z : Z) :
  bounded prec emax m e = true -> -1022 <= z ->
  (2 ^ z <= value (S754_finite false m e))%Q ->
  Z.pos (digits2_pos m) = 53 /\ z - 52 <= e.
Proof.
  intros B Hz Hlo. apply bounded_inv in B. destruct B as [Hcanon _].
  pose proof (value_lt_pow2 m e) as Hup.
  assert (Hlt : (2 ^ z < 2 ^ (Z.pos (digits2_pos m) + e))%Q)
    by (eapply Qle_lt_trans; eassumption).
  apply Qpower_lt_compat_l_inv in Hlt; [|reflexivity]. lia.
Qed.

Lemma exponent_of_upper_bound (m : positive) (e z : Z) :
  (value (S754_finite false m e) <= 2 ^ z)%Q ->
  Z.pos (digits2_pos m) - 1 + e <= z.
Proof.
  intros Hhi. pose proof (value_ge_pow2 m e) as Hdown.
  assert (Hle : (2 ^ (Z.pos (digits2_pos m) - 1 + e) <= 2 ^ z)%Q)
    by (eapply Qle_trans; eassumption).
  apply Qpower_le_compat_l_inv in Hle; [|reflexivity]. exact Hle.
Qed.

(** C1, counterexample: for the 6.25 rule the subnormal amount 8 * 2^-1074
    (about 4e-323, a finite positive number) comes back as 9 * 2^-1074, a
    relative distance of 1/8. *)
Lemma C1_round_trip_fails_on_subnormal :
  positive_finite tiny_amount = true /\
  roundTrip n_6_25 tiny_amount = S754_finite false 9 (-1074) /\
  ~ close_to (1 # 1000000000) (roundTrip n_6_25 tiny_amount) tiny_amount.
Proof.
  split; [reflexivity|]. split; [vm_compute; reflexivity|].
  intros H.
  assert (E : close_to_b (1 # 1000000000) (roundTrip n_6_25 tiny_amount) tiny_amount = false)
    by (vm_compute; reflexivity).
  replace (roundTrip n_6_25 tiny_amount)
    with (S754_finite false 9 (-1074)) in * by (vm_compute; reflexivity).
  cbn [close_to] in H. cbn [close_to_b] in E.
  apply Qle_bool_iff in H. congruence.
Qed.

(** C1, amended: for every rule whose factor [1 - reductionPercent / 100],
    as computed, lies between 2^-53 and 1 (the two fixed rules among them),
    and every positive amount [a] that is at most 2^1020 and whose product
    with the factor is at least 2^-1021, so that neither the amount nor the
    new MRP is subnormal, the "original" run followed by the "new" run on
    its new MRP gives back the amount within relative distance 1e-9. *)
Theorem C1_round_trip_in_normal_range (r a : number) :
  positive_finite (n_1 - r / n_100)%num = true ->
  (2 ^ (-53) <= value (n_1 - r / n_100)%num)%Q ->
  (value (n_1 - r / n_100)%num <= 1)%Q ->
  positive_finite a = true ->
  (value a <= 2 ^ 1020)%Q ->
  (2 ^ (-1021) <= value a * value (n_1 - r / n_100)%num)%Q ->
  positive_finite (roundTrip r a) = true /\
  close_to (1 # 1000000000) (roundTrip r a) a.
Proof.
  intros Hc Hclo Hchi Ha Hahi Hprod. rewrite roundTrip_eq.
  set (c := (n_1 - r / n_100)%num) in *. clearbody c.
  destruct (positive_finite_inv _ Hc) as (mc & ec & -> & Bc & Pc).
  destruct (positive_finite_inv _ Ha) as (ma & ea & -> & Ba & Pa).
  destruct (normal_of_lower_bound mc ec (-53) Bc ltac:(lia) Hclo) as [Dc Lc].
  pose proof (exponent_of_upper_bound mc ec 0 Hchi) as Uc.
  assert (Halo : (2 ^ (-1021) <= value (S754_finite false ma ea))%Q).
  { eapply Qle_trans; [exact Hprod|].
    rewrite <- (Qmult_1_r (value (S754_finite false ma ea))) at 2.
    apply Qmult_le_l; [exact Pa|exact Hchi]. }
  destruct (normal_of_lower_bound ma ea (-1021) Ba ltac:(lia) Halo) as [Da La].
  pose proof (exponent_of_upper_bound ma ea 1020 Hahi) as Ua.
  assert (Hsum : -1126 <= ea + ec).
  { pose proof (value_lt_pow2 ma ea) as Ta. pose proof (value_lt_pow2 mc ec) as Tc.
    rewrite Da in Ta. rewrite Dc in Tc.
    assert (Hlt : (2 ^ (-1021) < 2 ^ (53 + ea) * 2 ^ (53 + ec))%Q).
    { eapply Qle_lt_trans; [exact Hprod|].
      eapply Qle_lt_trans.
      - apply Qmult_le_compat_r; [apply Qlt_le_weak; exact Ta|apply Qlt_le_weak; exact Pc].
      - apply Qmult_lt_l; [apply pow2_pos|exact Tc]. }
    rewrite <- pow2_add in Hlt.
    apply Qpower_lt_compat_l_inv in Hlt; [|reflexivity]. lia. }
  destruct (round_trip_core ma mc ea ec Da Dc ltac:(lia) ltac:(lia) Hsum)
    as (mq & eq & Eq & Bq & Cq).
  unfold mul, div. rewrite Eq. split; [exact Bq|].
  cbn [close_to]. rewrite (Qabs_pos (value (S754_finite false ma ea))); [exact Cq|].
  apply Qlt_le_weak. exact Pa.
Qed.

(** C1, witness: the 6.25 rule at the amount 100 *)
Lemma C1_round_trip_at_100 :
  positive_finite (roundTrip n_6_25 n_100) = true /\
  close_to (1 # 1000000000) (roundTrip n_6_25 n_100) n_100.
Proof.
  apply (C1_round_trip_in_normal_range n_6_25 n_100).
  - reflexivity.
  - apply Qle_bool_iff. vm_compute. reflexivity.
  - apply Qle_bool_iff. vm_compute. reflexivity.
  - reflexivity.
  - apply Qle_bool_iff. vm_compute. reflexivity.
  - apply Qle_bool_iff. vm_compute. reflexivity.
Defined.

(** both fixed rules have their factor in that range: it is 0.9375 for
    the first and the double next to 0.8898 for the second *)
Lemma fixed_rules_in_range (r : number) :
  r = n_6_25 \/ r = n_11_02 ->
  positive_finite (n_1 - r / n_100)%num = true /\
  (2 ^ (-1) <= value (n_1 - r / n_100)%num)%Q /\
  (value (n_1 - r / n_100)%num <= 1)%Q.
Proof.
  intros [-> | ->]; (split; [reflexivity|]);
    split; apply Qle_bool_iff; vm_compute; reflexivity.
Qed.

(** C2: with the amount 100 in "original" mode, the 6.25 rule gives the new
    MRP 93.75, the intermediate trade price 93.75 * (100 / 105), which is
    89.2857142857 to the digits shown, the final trade price 0.80 times
    that, 71.42857142857, and the tax 0.05 times that, 3.571428571; the
    11.02 rule gives the new MRP 88.98.  The same snapshot is what the
    component shows for its initial input "100". *)
Theorem C2_chained_derivation :
  newMrp (row12 (snapshot n_100 original)) = decimal 9375 (-2) /\
  intermediateTradePrice (row12 (snapshot n_100 original))
    = (decimal 9375 (-2) * (n_100 / n_105))%num /\
  near (1 # 20000000000) (intermediateTradePrice (row12 (snapshot n_100 original)))
       (892857142857 # 10000000000) = true /\
  finalTradePrice (row12 (snapshot n_100 original))
    = (intermediateTradePrice (row12 (snapshot n_100 original)) * n_0_80)%num /\
  near (1 # 200000000000) (finalTradePrice (row12 (snapshot n_100 original)))
       (7142857142857 # 100000000000) = true /\
  gstAmount (row12 (snapshot n_100 original))
    = (finalTradePrice (row12 (snapshot n_100 original)) * n_0_05)%num /\
  near (1 # 2000000000) (gstAmount (row12 (snapshot n_100 original)))
       (3571428571 # 1000000000) = true /\
  newMrp (row18 (snapshot n_100 original)) = decimal 8898 (-2) /\
  results (recalculate initialState) = Some (snapshot n_100 original).
Proof. repeat split; vm_compute; reflexivity. Qed.

End Price.

(** ** The life cycle of the voice session *)

Module Session.

Lemma forEach_emit {A : Type} (f : A -> Effect) (l : list A) (w : World) :
  forEach l (fun x => emit [f x]) w =
  Returned tt {| app := app w; refs := refs w; trace := trace w ++ map f l; nodes := nodes w |}.
Proof.
  revert w. induction l as [|x l IH]; intros w.
  - cbn [forEach map ret]. rewrite app_nil_r. destruct w; reflexivity.
  - cbn [forEach map]. unfold bind, emit at 1. rewrite IH. cbn [app refs trace nodes].
    rewrite <- app_assoc. reflexivity.
Qed.

(** what [stopAudio] leaves of any world *)
Lemma stopAudio_returns (w : World) :
  exists es,
    stopAudio w =
    Returned tt
      {| app := setIsAiSpeaking false (setIsLiveActive false (app w));
         refs := {| audioContextRef := None; inputAudioContextRef := None;
                    sessionRef := None; mediaStreamRef := None;
                    nextStartTimeRef := nextStartTimeRef (refs w);
                    sourcesRef := [] |};
         trace := trace w ++ es;
         nodes := nodes w |}.
Proof.
  destruct w as [a [ac iac ss ms nst src] t n].
  unfold stopAudio.
  destruct ms as [ms|], iac as [iac|], ac as [ac|], ss as [ss|];
    cbn -[forEach]; unfold bind at 1; rewrite forEach_emit; cbn;
    rewrite <- ?app_assoc; eexists; reflexivity.
Qed.

(** C8: stopping never fails.  After a stop the four handles are null,
    nothing is scheduled and the session is not live; a second stop right
    after returns as well and changes nothing at all.  Stopping when every
    handle is already null and nothing is scheduled, as in a session that
    never started, closes and stops nothing and leaves the refs as they
    were. *)
Theorem C8_stop_is_idempotent (w : World) :
  (exists w1,
      stopAudio w = Returned tt w1 /\
      released (refs w1) /\
      isLiveActive (app w1) = false /\
      isAiSpeaking (app w1) = false /\
      stopAudio w1 = Returned tt w1) /\
  (released (refs w) ->
   exists w1, stopAudio w = Returned tt w1 /\ refs w1 = refs w /\ trace w1 = trace w) /\
  stopAudio initialWorld = Returned tt initialWorld.
Proof.
  split; [|split].
  - destruct (stopAudio_returns w) as [es E]. rewrite E.
    eexists. split; [reflexivity|]. cbn [refs app].
    split; [repeat split|]. split; [reflexivity|]. split; [reflexivity|].
    cbn. reflexivity.
  - destruct w as [a [ac iac ss ms nst src] t n]. unfold released.
    cbn [refs mediaStreamRef inputAudioContextRef audioContextRef sessionRef sourcesRef].
    intros (-> & -> & -> & -> & ->).
    eexists. split; [reflexivity|]. split; reflexivity.
  - reflexivity.
Qed.

(** C5: the close notification only turns the "live" flag off.  On a
    session in full swing the microphone stream, both clocks, the stream
    handle and the scheduled buffers are all still held afterwards, and
    nothing has been stopped or closed; the error notification, next to it,
    releases every one of them. *)
Theorem C5_onclose_releases_nothing :
  (forall w, exists w', onclose w = Returned tt w' /\ refs w' = refs w /\
                        isLiveActive (app w') = false /\
                        trace w' = trace w ++ [Logged "Live session closed"]) /\
  ~ released (refs (final (onclose activeWorld))) /\
  released (refs (final (onerror activeWorld))).
Proof.
  split; [|split].
  - intros w. eexists. split; [reflexivity|]. repeat split.
  - intros (H & _). discriminate H.
  - repeat split.
Qed.

End Session.

(** ** Clock arithmetic: sums and maxima of times *)

Module Clock.

Import Binary64.

Lemma iter_xO (m d : positive) : Z.pos (Pos.iter xO m d) = Z.pos m * 2 ^ Z.pos d.
Proof.
  induction d as [|d IH] using Pos.peano_ind.
  - cbn [Pos.iter]. lia.
  - rewrite Pos.iter_succ, Pos2Z.inj_xO, IH, Pos2Z.inj_succ, Z.pow_succ_r by lia. ring.
Qed.

Lemma shl_align_spec (mx : positive) (ex ez : Z) :
  ez <= ex ->
  Z.pos (fst (shl_align mx ex ez)) = Z.pos mx * 2 ^ (ex - ez).
Proof.
  intros H. unfold shl_align.
  destruct (ez - ex) as [|d|d] eqn:E; cbn [fst].
  - replace (ex - ez) with 0 by lia. lia.
  - lia.
  - rewrite iter_xO. f_equal. f_equal. lia.
Qed.

Lemma digits2_pos_le (a b : positive) :
  Z.pos a <= Z.pos b -> Z.pos (digits2_pos a) <= Z.pos (digits2_pos b).
Proof.
  intros H. pose proof (digits2_pos_bounds a) as [Al _].
  pose proof (digits2_pos_bounds b) as [_ Bu].
  destruct (Z_le_gt_dec (Z.pos (digits2_pos a)) (Z.pos (digits2_pos b))) as [|G]; trivial.
  assert (2 ^ Z.pos (digits2_pos b) <= 2 ^ (Z.pos (digits2_pos a) - 1))
    by (apply Z.pow_le_mono_r; lia).
  lia.
Qed.

(** the sum of two positive finite numbers is not below the first one *)
Lemma SFadd_finite_ge (mt md : positive) (et ed : Z) :
  bounded prec emax mt et = true -> bounded prec emax md ed = true ->
  SFadd prec emax (S754_finite false mt et) (S754_finite false md ed) = S754_infinity false \/
  exists (mr : positive) (er : Z),
    SFadd prec emax (S754_finite false mt et) (S754_finite false md ed) = S754_finite false mr er /\
    bounded prec emax mr er = true /\
    (et < er \/ (et = er /\ Z.pos mt <= Z.pos mr)).
Proof.
  intros Bt Bd.
  pose proof (bounded_inv mt et Bt) as [Ct Ut].
  pose proof (bounded_inv md ed Bd) as [Cd Ud].
  cbn [SFadd cond_Zopp]. set (ez := Z.min et ed).
  assert (Hzt : ez <= et) by (unfold ez; lia).
  assert (Hzd : ez <= ed) by (unfold ez; lia).
  pose proof (shl_align_spec mt et ez Hzt) as ET.
  pose proof (shl_align_spec md ed ez Hzd) as ED.
  set (pt := fst (shl_align mt et ez)) in *.
  set (pd := fst (shl_align md ed ez)) in *.
  change (Z.pos pt + Z.pos pd) with (Z.pos (pt + pd)).
  cbn [binary_normalize]. unfold binary_round.
  set (M := (pt + pd)%positive).
  assert (HM : Z.pos M = Z.pos mt * 2 ^ (et - ez) + Z.pos md * 2 ^ (ed - ez)).
  { unfold M. rewrite Pos2Z.inj_add. lia. }
  assert (Pt : 0 < 2 ^ (et - ez)) by (apply Z.pow_pos_nonneg; lia).
  assert (Pd : 0 < 2 ^ (ed - ez)) by (apply Z.pow_pos_nonneg; lia).
  set (dM := Z.pos (digits2_pos M)).
  assert (Hfe : ez <= fexp prec emax (dM + ez)).
  { rewrite fexp_eq. unfold ez. destruct (Z.min_spec et ed) as [[_ E]|[_ E]]; rewrite E.
    - assert (Z.pos (digits2_pos mt) <= dM).
      { apply digits2_pos_le. rewrite HM. unfold ez. rewrite E, Z.sub_diag. nia. }
      lia.
    - assert (Z.pos (digits2_pos md) <= dM).
      { apply digits2_pos_le. rewrite HM. unfold ez. rewrite E, Z.sub_diag. nia. }
      lia. }
  assert (Hsh : shl_align M ez (fexp prec emax (dM + ez)) = (M, ez)).
  { unfold shl_align. destruct (fexp prec emax (dM + ez) - ez) eqn:E; try reflexivity. lia. }
  fold dM. rewrite Hsh.
  destruct (binary_round_aux_spec false (Z.pos M) ez loc_Exact (Z.pos M) 1)
    as (R & HR1 & HR2 & Hres); try lia.
  - apply represents_exact.
  - cbn [Zdigits2]. fold dM. exact Hfe.
  - cbn [Zdigits2] in HR1, HR2, Hres. fold dM in HR1, HR2, Hres.
    set (e1 := fexp prec emax (dM + ez)) in *.
    set (k := e1 - ez) in *.
    assert (Hk : 0 <= k) by (unfold k; lia).
    assert (H2k : 0 < 2 ^ k) by (apply Z.pow_pos_nonneg; lia).
    rewrite Z.mul_1_l in HR1, HR2.
    pose proof (digits2_pos_bounds M) as [Ml Mu]. fold dM in Ml, Mu.
    assert (He1 : e1 = Z.max (dM + ez - 53) (-1074)) by (unfold e1; apply fexp_eq).
    destruct Hres as [[HR0 _]|[(mr & er & Hr & Hb & Her & Hmr & _)|[Hinf _]]].
    + (* the sum cannot round to zero *)
      exfalso.
      assert (1 <= Z.pos M / 2 ^ k); [|lia].
      apply Z.div_le_lower_bound; [lia|].
      destruct (Z_le_gt_dec (-1074) (dM + ez - 53)).
      * assert (2 ^ k <= 2 ^ (dM - 1)) by (apply Z.pow_le_mono_r; unfold k; lia). lia.
      * assert (k = 0) by (unfold k; lia). replace k with 0. lia.
    + right. exists mr, er. split; [exact Hr|]. split; [exact Hb|].
      destruct (Z_lt_le_dec et er) as [|Hle]; [left; assumption|right].
      pose proof (bounded_inv mr er Hb) as [Cr Ur].
      pose proof (digits2_pos_bounds mr) as [Rl Ru].
      pose proof (digits2_pos_bounds mt) as [Tl Tu].
      assert (Hke : k <= et - ez) by (unfold k; lia).
      assert (P1 : 2 ^ (et - ez) = 2 ^ (et - e1) * 2 ^ k).
      { rewrite <- Z.pow_add_r by (unfold k; lia). f_equal. unfold k. lia. }
      assert (P2 : 2 ^ (et - e1) = 2 ^ (et - er) * 2 ^ (er - e1)).
      { rewrite <- Z.pow_add_r by lia. f_equal. lia. }
      assert (Q1 : 0 < 2 ^ (et - er)) by (apply Z.pow_pos_nonneg; lia).
      assert (Q2 : 0 < 2 ^ (er - e1)) by (apply Z.pow_pos_nonneg; lia).
      assert (HRge : Z.pos mt * 2 ^ (et - e1) <= R).
      { apply Z.le_trans with (Z.pos M / 2 ^ k); [|lia].
        apply Z.div_le_lower_bound; [lia|]. rewrite HM, P1.
        assert (0 <= Z.pos md * 2 ^ (ed - ez)) by (apply Z.mul_nonneg_nonneg; lia).
        replace (2 ^ k * (Z.pos mt * 2 ^ (et - e1)))
          with (Z.pos mt * (2 ^ (et - e1) * 2 ^ k)) by ring.
        lia. }
      assert (Hmr2 : Z.pos mt * 2 ^ (et - er) <= Z.pos mr).
      { rewrite P2, <- Hmr in HRge. 
        apply Z.mul_le_mono_pos_r with (2 ^ (er - e1)); [lia|]. lia. }
      destruct (Z.eq_dec et er) as [E|NE].
      * split; [exact E|]. rewrite E, Z.sub_diag in Hmr2. lia.
      * exfalso.
        assert (F1 : 2 ^ 1 <= 2 ^ (et - er)) by (apply Z.pow_le_mono_r; lia).
        assert (F2 : Z.pos (digits2_pos mt) = 53) by (clear - Ct Her He1 Hle NE; lia).
        assert (F3 : Z.pos (digits2_pos mr) <= 53) by (clear - Cr; lia).
        assert (F4 : 2 ^ Z.pos (digits2_pos mr) <= 2 ^ 53) by (apply Z.pow_le_mono_r; lia).
        rewrite F2 in Tl. change (53 - 1) with 52 in Tl.
        assert (F5 : Z.pos mt * 2 ^ 1 <= Z.pos mt * 2 ^ (et - er))
          by (apply Z.mul_le_mono_nonneg_l; lia).
        clear - F4 F5 Tl Ru Hmr2. lia.
    + left. exact Hinf.
Qed.

Ltac exponent_bounds :=
  repeat match goal with
         | H : time_ok (S754_finite false _ _) = true |- _ =>
             cbn [time_ok] in H; apply bounded_inv in H
         end.

Lemma time_ok_rank_bounds (x : number) :
  time_ok x = true -> -1075 <= fst (rank x) <= 972.
Proof.
  destruct x as [s|s| |s m e]; try destruct s; try discriminate; cbn [time_ok rank fst]; try lia.
  intros B. apply bounded_inv in B. lia.
Qed.

(** on times, the comparison of numbers is the comparison of ranks *)
Lemma SFcompare_rank (a b : number) :
  time_ok a = true -> time_ok b = true ->
  SFcompare a b =
  Some (match fst (rank a) ?= fst (rank b) with
        | Eq => snd (rank a) ?= snd (rank b)
        | c => c
        end).
Proof.
  intros Ha Hb.
  destruct a as [s|s| |s m e]; try destruct s; try discriminate;
  destruct b as [s'|s'| |s' m' e']; try destruct s'; try discriminate;
  exponent_bounds; cbn [SFcompare rank fst snd] in *; try reflexivity;
  try (destruct (e ?= e'); reflexivity);
  match goal with
  | |- context [?a ?= ?b] => destruct (Z.compare_spec a b); try reflexivity; lia
  end.
Qed.

Lemma rank_inj (a b : number) :
  time_ok a = true -> time_ok b = true -> rank a = rank b -> a = b.
Proof.
  intros Ha Hb.
  destruct a as [s|s| |s m e]; try destruct s; try discriminate;
  destruct b as [s'|s'| |s' m' e']; try destruct s'; try discriminate;
  exponent_bounds; cbn [rank fst] in *; intros E; inversion E; subst; try reflexivity; lia.
Qed.

Lemma ge_rank (x y : number) :
  time_ok x = true -> time_ok y = true ->
  (ge x y = true <-> lex_le (rank y) (rank x)).
Proof.
  intros Hx Hy. unfold ge, SFleb, lex_le. rewrite (SFcompare_rank y x Hy Hx).
  destruct (Z.compare_spec (fst (rank y)) (fst (rank x))) as [E|L|G].
  - destruct (Z.compare_spec (snd (rank y)) (snd (rank x))); split; intros K;
      try reflexivity; try discriminate; try lia.
  - split; [lia|reflexivity].
  - split; [discriminate|lia].
Qed.

Lemma Math_max_le (a b : number) :
  time_ok a = true -> time_ok b = true -> lex_le (rank a) (rank b) -> Math_max a b = b.
Proof.
  intros Ha Hb H. unfold Math_max. rewrite (SFcompare_rank a b Ha Hb).
  unfold lex_le in H.
  destruct (Z.compare_spec (fst (rank a)) (fst (rank b))) as [E|L|G]; try lia; [|reflexivity].
  destruct (Z.compare_spec (snd (rank a)) (snd (rank b))) as [E'|L'|G']; try lia; [|reflexivity].
  assert (a = b) as ->.
  { apply rank_inj; trivial. destruct (rank a), (rank b); cbn [fst snd] in *; congruence. }
  destruct b as [[]| | |]; reflexivity.
Qed.

Lemma Math_max_ge (a b : number) :
  time_ok a = true -> time_ok b = true -> lex_le (rank b) (rank a) -> Math_max a b = a.
Proof.
  intros Ha Hb H. unfold Math_max. rewrite (SFcompare_rank a b Ha Hb).
  unfold lex_le in H.
  destruct (Z.compare_spec (fst (rank a)) (fst (rank b))) as [E|L|G]; try lia; [|reflexivity].
  destruct (Z.compare_spec (snd (rank a)) (snd (rank b))) as [E'|L'|G']; try lia; [|reflexivity].
  destruct a as [[]| | |]; try reflexivity; discriminate.
Qed.

Lemma lex_le_total (p q : Z * Z) : lex_le p q \/ lex_le q p.
Proof. unfold lex_le. lia. Qed.

Lemma lex_le_refl (p : Z * Z) : lex_le p p.
Proof. unfold lex_le. lia. Qed.

Lemma lex_le_trans (p q r : Z * Z) : lex_le p q -> lex_le q r -> lex_le p r.
Proof. unfold lex_le. lia. Qed.

(** the later of two times is a time, and it is not before either *)
Lemma Math_max_spec (a b : number) :
  time_ok a = true -> time_ok b = true ->
  time_ok (Math_max a b) = true /\
  lex_le (rank a) (rank (Math_max a b)) /\
  lex_le (rank b) (rank (Math_max a b)).
Proof.
  intros Ha Hb. destruct (lex_le_total (rank a) (rank b)) as [H|H].
  - rewrite (Math_max_le a b Ha Hb H). auto using lex_le_refl.
  - rewrite (Math_max_ge a b Ha Hb H). auto using lex_le_refl.
Qed.

(** adding a duration to a time gives a time that is not before it *)
Lemma add_spec (t d : number) :
  time_ok t = true -> time_ok d = true ->
  time_ok (t + d)%num = true /\ lex_le (rank t) (rank (t + d)%num).
Proof.
  intros Ht Hd.
  destruct t as [s|s| |s mt et]; try destruct s; try discriminate;
  destruct d as [s'|s'| |s' md ed]; try destruct s'; try discriminate;
  unfold lex_le, add; cbn [SFadd rank fst snd].
  1-8: split; [assumption || reflexivity | exponent_bounds; lia].
  cbn [time_ok] in Ht, Hd.
    destruct (SFadd_finite_ge mt md et ed Ht Hd) as [E|(mr & er & E & B & H)];
      cbn [SFadd] in E; rewrite E; cbn [time_ok rank fst snd].
  - split; [reflexivity|]. apply bounded_inv in Ht. lia.
  - split; [exact B|]. lia.
Qed.

End Clock.

(** ** Operations that do not round *)

Module Exact.

Import Binary64 Clock Price.

(** shifting a mantissa left adds to its bit length *)
Lemma Zdigits2_shift (m : positive) (k : Z) :
  0 <= k -> Zdigits2 (Z.pos m * 2 ^ k) = Z.pos (digits2_pos m) + k.
Proof.
  intros Hk. pose proof (digits2_pos_bounds m) as [Hl Hu].
  assert (0 < 2 ^ k) by (apply Z.pow_pos_nonneg; lia).
  apply Zdigits2_unique; [lia|].
  replace (Z.pos (digits2_pos m) + k - 1) with (Z.pos (digits2_pos m) - 1 + k) by lia.
  rewrite !Z.pow_add_r by lia. split.
  - apply Z.mul_le_mono_nonneg_r; lia.
  - apply Z.mul_lt_mono_pos_r; lia.
Qed.

(** rounding a mantissa whose dropped bits are all zero, at any precision *)
Lemma binary_round_aux_exact (p emx : Z) (sx : bool) (m : positive) (e k : Z) :
  0 <= k ->
  fexp p emx (Z.pos (digits2_pos m) + k + e) = e + k ->
  e + k <= emx - p ->
  binary_round_aux p emx sx (Z.pos m * 2 ^ k) e loc_Exact = S754_finite sx m (e + k).
Proof.
  intros Hk Hf Hmax.
  assert (H2k : 0 < 2 ^ k) by (apply Z.pow_pos_nonneg; lia).
  unfold binary_round_aux, shr_fexp at 1.
  rewrite Zdigits2_shift, Hf by lia. replace (e + k - e) with k by lia.
  destruct (shr_represents (shr_record_of_loc (Z.pos m * 2 ^ k) loc_Exact) e k (Z.pos m * 2 ^ k) 1)
    as [Hrep He]; try lia.
  { apply represents_exact. }
  destruct (shr (shr_record_of_loc (Z.pos m * 2 ^ k) loc_Exact) e k) as [[m1 r1 s1] e1].
  cbn [fst snd] in Hrep, He. subst e1.
  destruct Hrep as (Hm & Hr & Hs). cbn [shr_m shr_r shr_s] in Hm, Hr, Hs.
  rewrite Z.mul_1_l in Hm, Hr, Hs.
  rewrite Z.div_mul in Hm by lia. rewrite Z.mod_mul in Hr, Hs by lia.
  assert (Er : r1 = false) by (rewrite Hr; apply Z.leb_gt; lia).
  assert (Es : s1 = false) by (rewrite Hs; reflexivity).
  clear Hr Hs. subst m1 r1 s1. cbn [loc_of_shr_record round_nearest_even shr_m].
  rewrite shr_fexp_exact_0
    by (cbn [Zdigits2];
        replace (Z.pos (digits2_pos m) + (e + k)) with (Z.pos (digits2_pos m) + k + e) by lia;
        exact Hf).
  cbn [shr_m]. destruct (Z.leb_spec (e + k) (emx - p)); [reflexivity|lia].
Qed.

(** [shl_align] reaches the exponent asked for when that is lower, and
    does nothing when it is not *)
Lemma shl_align_snd (mx : positive) (ex ez : Z) :
  ez <= ex -> snd (shl_align mx ex ez) = ez.
Proof.
  intros H. unfold shl_align. destruct (ez - ex) as [|d|d] eqn:E; cbn [snd]; lia.
Qed.

Lemma shl_align_none (mx : positive) (ex ez : Z) :
  ex <= ez -> shl_align mx ex ez = (mx, ex).
Proof.
  intros H. unfold shl_align. destruct (ez - ex) as [|d|d] eqn:E; try reflexivity. lia.
Qed.

(** a mantissa of at most [p] digits, written with exactly [p] digits *)
Lemma binary_round_exact (p emx : Z) (sx : bool) (n : positive) (e : Z) :
  let d := Z.pos (digits2_pos n) in
  d <= p ->
  3 - emx - p <= d + e - p -> d + e <= emx ->
  exists mA : positive,
    binary_round p emx sx n e = S754_finite sx mA (d + e - p) /\
    Z.pos mA = Z.pos n * 2 ^ (p - d) /\
    Z.pos (digits2_pos mA) = p.
Proof.
  intros d Hd Hlo Hhi. unfold binary_round. fold d.
  assert (Hf : fexp p emx (d + e) = d + e - p) by (unfold fexp, emin; lia).
  rewrite Hf.
  pose proof (shl_align_spec n e (d + e - p) ltac:(lia)) as Hm.
  pose proof (shl_align_snd n e (d + e - p) ltac:(lia)) as He.
  destruct (shl_align n e (d + e - p)) as [mz ez]. cbn [fst snd] in Hm, He. subst ez.
  replace (e - (d + e - p)) with (p - d) in Hm by lia.
  assert (Hdz : Z.pos (digits2_pos mz) = p).
  { change (Z.pos (digits2_pos mz)) with (Zdigits2 (Z.pos mz)).
    rewrite Hm, Zdigits2_shift by lia. fold d. lia. }
  exists mz. split; [|split; trivial].
  pose proof (binary_round_aux_exact p emx sx mz (d + e - p) 0) as H.
  rewrite Z.pow_0_r, Z.mul_1_r, !Z.add_0_r in H. apply H; try lia.
  rewrite Hdz. unfold fexp, emin. lia.
Qed.

(** 32768 is 2^52 * 2^-37 *)
Lemma n_32768_eq : n_32768 = S754_finite false 4503599627370496 (-37).
Proof. vm_compute. reflexivity. Qed.

(** dividing a normal number by 32768 only moves its exponent *)
Lemma div_32768 (s : bool) (mA : positive) (eA : Z) :
  Z.pos (digits2_pos mA) = 53 -> -1058 <= eA <= 900 ->
  (S754_finite s mA eA / n_32768)%num = S754_finite s mA (eA - 15).
Proof.
  intros Hd He. rewrite n_32768_eq. unfold div. cbn [SFdiv].
  unfold SFdiv_core_binary. cbn [Zdigits2]. rewrite Hd.
  change (Z.pos (digits2_pos 4503599627370496)) with 53. rewrite fexp_eq.
  replace (Z.min (Z.max (53 + eA - (53 + -37) - 53) (-1074)) (eA - -37)) with (eA - 16) by lia.
  replace (eA - -37 - (eA - 16)) with 53 by lia.
  rewrite Z.shiftl_mul_pow2 by lia. rewrite div_eucl_div_mod.
  replace (Z.pos mA * 2 ^ 53) with (2 * Z.pos mA * 4503599627370496) by lia.
  rewrite Z.div_mul, Z.mod_mul by lia.
  change (new_location 4503599627370496 0) with loc_Exact.
  replace (2 * Z.pos mA) with (Z.pos mA * 2 ^ 1) by lia.
  rewrite xorb_false_r.
  rewrite binary_round_aux_exact; try lia.
  - f_equal. lia.
  - rewrite Hd, fexp_eq. lia.
  - unfold emax, prec. lia.
Qed.

(** a number that fits a float32 goes through a [Float32Array] unchanged *)
Lemma fround_exact (s : bool) (m24 mA : positive) (e : Z) :
  Z.pos mA = Z.pos m24 * 2 ^ 29 -> Z.pos (digits2_pos m24) = 24 ->
  -120 <= e <= 70 ->
  fround (S754_finite s mA e) = S754_finite s mA e.
Proof.
  intros Hm Hd He. unfold fround.
  assert (HdA : Z.pos (digits2_pos mA) = 53).
  { change (Z.pos (digits2_pos mA)) with (Zdigits2 (Z.pos mA)).
    rewrite Hm, Zdigits2_shift by lia. lia. }
  assert (E1 : binary_round 24 128 s mA e = S754_finite s m24 (e + 29)).
  { unfold binary_round. rewrite HdA.
    rewrite shl_align_none by (unfold fexp, emin; lia).
    rewrite Hm. apply binary_round_aux_exact; try lia.
    rewrite Hd. unfold fexp, emin. lia. }
  rewrite E1.
  destruct (binary_round_exact prec emax s m24 (e + 29)) as (mz & Ez & Hz & _);
    rewrite ?Hd; unfold prec, emax; try lia.
  unfold prec, emax in Ez. rewrite Ez. rewrite Hd in Hz.
  f_equal; [|lia]. apply Pos2Z.inj. rewrite Hz, Hm. reflexivity.
Qed.

(** multiplying a sample of magnitude at most 1 by 32768 is exact *)
Lemma mul_32768 (s : bool) (m : positive) (e : Z) :
  bounded prec emax m e = true -> e <= -52 ->
  exists (m' : positive) (k : Z),
    (S754_finite s m e * n_32768)%num = S754_finite s m' (e - 37 + k) /\
    Z.pos m' = Z.pos m * 2 ^ (52 - k) /\ 0 <= k <= 52.
Proof.
  intros B He. apply bounded_inv in B. destruct B as [Hc _].
  set (d := Z.pos (digits2_pos m)) in *.
  assert (Hd1 : 1 <= d) by (unfold d; lia).
  set (k := Z.max (d - 1) (-1037 - e)).
  assert (Hk : 0 <= k <= 52) by lia.
  assert (Hp : 0 < Z.pos m * 2 ^ (52 - k))
    by (apply Z.mul_pos_pos; [lia|apply Z.pow_pos_nonneg; lia]).
  destruct (Z.pos m * 2 ^ (52 - k)) as [|m'|m'] eqn:Em; try lia.
  exists m', k. split; [|split; [symmetry; exact Em|exact Hk]].
  rewrite n_32768_eq. unfold mul. cbn [SFmul]. rewrite xorb_false_r.
  assert (Dm : Z.pos (digits2_pos m') = d + (52 - k)).
  { change (Z.pos (digits2_pos m')) with (Zdigits2 (Z.pos m')).
    rewrite <- Em. apply Zdigits2_shift. lia. }
  replace (Z.pos (m * 4503599627370496)) with (Z.pos m' * 2 ^ k).
  - replace (e + -37) with (e - 37) by lia.
    apply binary_round_aux_exact; [lia| |unfold emax, prec; lia].
    rewrite Dm, fexp_eq. lia.
  - rewrite <- Em, <- Z.mul_assoc, <- Z.pow_add_r by lia.
    replace (52 - k + k) with 52 by lia. reflexivity.
Qed.

(** truncation of a number with bits below the point is a quotient *)
Lemma truncate_negative_exponent (s : bool) (m : positive) (e : Z) :
  e < 0 -> truncate (S754_finite s m e) = cond_Zopp s (Z.pos m / 2 ^ (- e)).
Proof.
  intros He. destruct e as [|p|p]; try lia. reflexivity.
Qed.

(** a store into an [Int16Array] keeps what fits in 16 signed bits *)
Lemma ToInt16_small (x : number) :
  -32768 <= truncate x <= 32767 -> ToInt16 x = truncate x.
Proof.
  intros H. unfold ToInt16. cbv zeta.
  destruct (Z_le_gt_dec 0 (truncate x)) as [P|N].
  - rewrite Z.mod_small by lia. destruct (Z.leb_spec 32768 (truncate x)); lia.
  - replace (truncate x mod 65536) with (truncate x + 65536).
    + destruct (Z.leb_spec 32768 (truncate x + 65536)); lia.
    + apply Z.mod_unique with (q := -1); lia.
Qed.

Lemma cond_Zopp_mul (s : bool) (a b : Z) : cond_Zopp s (a * b) = cond_Zopp s a * b.
Proof. destruct s; cbn [cond_Zopp]; lia. Qed.

(** a signed number written at a lower exponent *)
Lemma signed_rescale (s : bool) (a j b : Z) :
  0 <= j ->
  (inject_Z (cond_Zopp s (a * 2 ^ j)) * 2 ^ b == inject_Z (cond_Zopp s a) * 2 ^ (j + b))%Q.
Proof.
  intros Hj. rewrite cond_Zopp_mul, inject_Z_mult, inject_pow2, pow2_add by lia.
  symmetry. apply Qmult_assoc.
Qed.

(** the magnitude of a sample as an integer inequality *)
Lemma magnitude_le_1 (m : positive) (e : Z) :
  bounded prec emax m e = true ->
  (value (S754_finite false m e) <= 1)%Q ->
  e <= -52 /\ Z.pos m <= 2 ^ (- e).
Proof.
  intros B H. pose proof (exponent_of_upper_bound m e 0 H) as Hx.
  apply bounded_inv in B. destruct B as [Hc _].
  assert (He : e <= -52) by lia. split; [exact He|].
  cbn [value cond_Zopp] in H.
  rewrite Zle_Qle, inject_pow2 by lia.
  apply (Qmult_le_r _ _ (2 ^ e)); [apply pow2_pos|].
  rewrite <- pow2_add. replace (- e + e) with 0 by lia. exact H.
Qed.

Lemma magnitude_lt_1 (m : positive) (e : Z) :
  e <= 0 -> (value (S754_finite false m e) < 1)%Q -> Z.pos m < 2 ^ (- e).
Proof.
  intros He H. cbn [value cond_Zopp] in H.
  rewrite Zlt_Qlt, inject_pow2 by lia.
  apply (Qmult_lt_r _ _ (2 ^ e)); [apply pow2_pos|].
  rewrite <- pow2_add. replace (- e + e) with 0 by lia. exact H.
Qed.

Lemma value_opp (m : positive) (e : Z) :
  (value (S754_finite true m e) == - value (S754_finite false m e))%Q.
Proof.
  cbn [value cond_Zopp]. change (Z.neg m) with (- Z.pos m). rewrite inject_Z_opp. ring.
Qed.

End Exact.

(** ** Audio: PCM samples and playback scheduling *)

Module Audio.

Import Binary64 Clock Exact.

(** C6: the full-scale sample 1.0 is a sample in [-1, 1]; scaled by 32768
    and stored into a 16-bit integer it wraps to -32768, which decodes to
    -1.0, at distance 2 from the sample and not within 1/32768 of it. *)
Theorem C6_full_scale_sample_wraps :
  value n_1 == 1 /\
  encodeSample n_1 = -32768 /\
  decodeSample (encodeSample n_1) = decimal (-1) 0 /\
  value (decodeSample (encodeSample n_1)) - value n_1 == - (2 # 1) /\
  near (1 # 32768) (decodeSample (encodeSample n_1)) (value n_1) = false.
Proof. repeat split. Qed.

(** decoding a 16-bit integer gives exactly that integer over 32768 *)
Lemma decodeSample_nonzero (s : bool) (n : positive) :
  Z.pos (digits2_pos n) <= 16 ->
  exists mA : positive,
    decodeSample (cond_Zopp s (Z.pos n)) = S754_finite s mA (Z.pos (digits2_pos n) - 68) /\
    Z.pos mA = Z.pos n * 2 ^ (53 - Z.pos (digits2_pos n)).
Proof.
  intros Hd. set (d := Z.pos (digits2_pos n)) in *.
  assert (Hd1 : 1 <= d) by (unfold d; lia).
  destruct (binary_round_exact prec emax s n 0) as (mA & EA & HA & DA);
    fold d; unfold prec, emax; try lia.
  unfold prec, emax in EA, HA, DA. fold d in EA, HA.
  exists mA. split; [|exact HA].
  unfold decodeSample.
  assert (E0 : of_Z (cond_Zopp s (Z.pos n)) = S754_finite s mA (d + 0 - 53)).
  { unfold of_Z. destruct s; cbn [cond_Zopp Z.opp binary_normalize]; exact EA. }
  rewrite E0, div_32768 by (trivial; lia).
  replace (d + 0 - 53 - 15) with (d - 68) by lia.
  assert (P : 2 ^ (53 - d) = 2 ^ (24 - d) * 2 ^ 29).
  { rewrite <- Z.pow_add_r by lia. f_equal. lia. }
  assert (H24 : 0 < 2 ^ (24 - d)) by (apply Z.pow_pos_nonneg; lia).
  assert (Hpos : 0 < Z.pos n * 2 ^ (24 - d)) by lia.
  destruct (Z.pos n * 2 ^ (24 - d)) as [|m24|m24] eqn:E24; try lia.
  apply (fround_exact s m24 mA); [rewrite HA, P, <- E24; ring| |lia].
  change (Z.pos (digits2_pos m24)) with (Zdigits2 (Z.pos m24)).
  rewrite <- E24, Zdigits2_shift by lia. fold d. lia.
Qed.

(** what [encodeSample] returns on a sample of magnitude at most 1 *)
Lemma encodeSample_floor (s : bool) (m : positive) (e : Z) :
  bounded prec emax m e = true -> e <= -52 ->
  -32768 <= cond_Zopp s (Z.pos m / 2 ^ (- e - 15)) <= 32767 ->
  encodeSample (S754_finite s m e) = cond_Zopp s (Z.pos m / 2 ^ (- e - 15)).
Proof.
  intros B He Hr. unfold encodeSample.
  destruct (mul_32768 s m e B He) as (m' & k & -> & Em & Hk).
  assert (T : truncate (S754_finite s m' (e - 37 + k)) = cond_Zopp s (Z.pos m / 2 ^ (- e - 15))).
  { rewrite truncate_negative_exponent by lia. f_equal.
    rewrite Em. replace (- (e - 37 + k)) with (- e - 15 + (52 - k)) by lia.
    rewrite Z.pow_add_r by lia.
    apply Z.div_mul_cancel_r; apply Z.pow_nonzero; lia. }
  rewrite ToInt16_small; rewrite T; trivial.
Qed.

(** X1: every sample in [-1, 1) -- a zero or a well-formed finite number
    that is at least -1 and strictly below 1 -- scaled by 32768, stored into
    an [Int16Array], read back and divided by 32768 into a [Float32Array],
    comes back at distance strictly less than 1/32768 from the sample.  The
    full-scale sample 1.0 of C6 is the one point of [-1, 1] left out. *)
Lemma pcm_round_trip (x : number) :
  sample_ok x = true -> (-1 <= value x)%Q -> (value x < 1)%Q ->
  (Qabs (value (decodeSample (encodeSample x)) - value x) < 1 # 32768)%Q.
Proof.
  intros Hok Hlo Hhi. destruct x as [s|s| |s m e]; try discriminate.
  { destruct s; vm_compute; reflexivity. }
  cbn [sample_ok] in Hok.
  assert (Hm : (value (S754_finite false m e) <= 1)%Q).
  { destruct s.
    - rewrite value_opp in Hlo. apply Qopp_le_compat in Hlo.
      rewrite Qopp_involutive in Hlo. exact Hlo.
    - apply Qlt_le_weak. exact Hhi. }
  destruct (magnitude_le_1 m e Hok Hm) as [He Hle].
  set (D := 2 ^ (- e - 15)).
  assert (HD : 0 < D) by (apply Z.pow_pos_nonneg; lia).
  assert (E2 : 2 ^ (- e) = D * 32768).
  { unfold D. change 32768 with (2 ^ 15). rewrite <- Z.pow_add_r by lia. f_equal; lia. }
  assert (Ht : 0 <= Z.pos m / D <= 32768).
  { split; [apply Z.div_pos; lia|apply Z.div_le_upper_bound; lia]. }
  assert (Ht' : s = false -> Z.pos m / D < 32768).
  { intros ->. apply Z.div_lt_upper_bound; [lia|].
    rewrite <- E2. apply magnitude_lt_1; [lia|exact Hhi]. }
  pose proof (Z.div_mod (Z.pos m) D ltac:(lia)) as Edm.
  pose proof (Z.mod_pos_bound (Z.pos m) D HD) as Hr.
  assert (Hrange : -32768 <= cond_Zopp s (Z.pos m / D) <= 32767).
  { destruct s; cbn [cond_Zopp]; [lia|]. specialize (Ht' eq_refl). lia. }
  rewrite (encodeSample_floor s m e Hok He Hrange). fold D.
  set (t := Z.pos m / D) in *. set (r := Z.pos m mod D) in *.
  assert (Hv : (value (decodeSample (cond_Zopp s t)) == inject_Z (cond_Zopp s t) * 2 ^ (-15))%Q).
  { clearbody t. destruct t as [|n|n]; try lia.
    - destruct s; vm_compute; reflexivity.
    - assert (Hn : Z.pos (digits2_pos n) <= 16).
      { change 16 with (Z.pos (digits2_pos 32768)). apply digits2_pos_le. lia. }
      destruct (decodeSample_nonzero s n Hn) as (mA & -> & HA).
      cbn [value]. rewrite HA, signed_rescale by lia.
      replace (53 - Z.pos (digits2_pos n) + (Z.pos (digits2_pos n) - 68)) with (-15) by lia.
      reflexivity. }
  rewrite Hv.
  assert (Hx : (value (S754_finite s m e) == inject_Z (cond_Zopp s (t * D + r)) * 2 ^ e)%Q).
  { cbn [value]. replace (t * D + r) with (Z.pos m) by lia. reflexivity. }
  assert (Hy : (inject_Z (cond_Zopp s t) * 2 ^ (-15) == inject_Z (cond_Zopp s (t * D)) * 2 ^ e)%Q).
  { unfold D. rewrite signed_rescale by lia.
    replace (- e - 15 + e) with (-15) by lia. reflexivity. }
  rewrite Hx, Hy.
  assert (Hd : (inject_Z (cond_Zopp s (t * D)) * 2 ^ e - inject_Z (cond_Zopp s (t * D + r)) * 2 ^ e
                == inject_Z (cond_Zopp (negb s) r) * 2 ^ e)%Q).
  { replace (cond_Zopp (negb s) r) with (cond_Zopp s (t * D) - cond_Zopp s (t * D + r))
      by (destruct s; cbn [cond_Zopp negb]; lia).
    unfold Zminus. rewrite inject_Z_plus, inject_Z_opp. ring. }
  rewrite Hd, Qabs_Qmult, (Qabs_pos (2 ^ e)) by (apply Qlt_le_weak, pow2_pos).
  change (Qabs (inject_Z (cond_Zopp (negb s) r))) with (inject_Z (Z.abs (cond_Zopp (negb s) r))).
  replace (Z.abs (cond_Zopp (negb s) r)) with r by (destruct s; cbn [cond_Zopp negb]; lia).
  apply Qlt_le_trans with (inject_Z D * 2 ^ e)%Q.
  - apply Qmult_lt_compat_r; [apply pow2_pos|]. rewrite <- Zlt_Qlt. lia.
  - unfold D. rewrite inject_pow2, <- pow2_add by lia.
    replace (- e - 15 + e) with (-15) by lia. unfold Qle. vm_compute. discriminate.
Qed.

(** the sample 0.3 *)
Lemma pcm_round_trip_at_0_3 :
  (Qabs (value (decodeSample (encodeSample (decimal 3 (-1)))) - value (decimal 3 (-1)))
   < 1 # 32768)%Q.
Proof.
  apply pcm_round_trip; [reflexivity | vm_compute; discriminate | vm_compute; reflexivity].
Defined.

Lemma started_app (a : AppState) (r : Refs) (n : nat) (w : World) (es : list Effect) :
  started {| app := a; refs := r; trace := trace w ++ es; nodes := n |}
  = started w ++ flat_map (fun e => match e with SourceStarted _ t => [t] | _ => [] end) es.
Proof. unfold started. cbn [trace]. apply flat_map_app. Qed.

(** what [onmessage] does with an audio payload while the playback clock is
    held: it decodes the buffer, makes a source for it and schedules it *)
Lemma onmessage_audio (c : ascii) (rest : string) (ctx : AudioContext) (now : number) (w : World) :
  audioContextRef (refs w) = Some ctx ->
  onmessage {| toolCall := None; audioData := Some (String c rest) |} now w =
  (setState (setIsAiSpeaking true) ;;
   buffer <- decodeAudioData (base64ToUint8Array (String c rest)) 24000 1 ;;
   source <- createBufferSource ;;
   schedule source now buffer) w.
Proof.
  intros H. unfold onmessage. cbn [toolCall audioData].
  unfold bind at 1. cbn [ret]. unfold bind at 1. cbn [getRefs]. rewrite H. reflexivity.
Qed.

(** the handler schedules as the rule of the specification says *)
Lemma playAll_refines (arrivals : list arrival) (w : World) :
  exists w',
    playAll arrivals w = Returned tt w' /\
    started w' = started w ++ spec_startTimes (nextStartTimeRef (refs w)) arrivals /\
    nextStartTimeRef (refs w') = spec_nextStartTime (nextStartTimeRef (refs w)) arrivals /\
    app w' = app w.
Proof.
  revert w. induction arrivals as [|[now b] rest IH]; intros w.
  - exists w. cbn [playAll forEach ret spec_startTimes spec_nextStartTime].
    rewrite app_nil_r. repeat split.
  - unfold playAll in *. cbn [forEach]. unfold bind at 1.
    set (w1 := {| app := app w;
                  refs := set_sourcesRef (sourcesRef (refs w) ++ [nodes w])
                            (set_nextStartTimeRef
                               (Math_max now (nextStartTimeRef (refs w)) + duration b)%num (refs w));
                  trace := trace w ++ [SourceStarted (nodes w) (Math_max now (nextStartTimeRef (refs w)))];
                  nodes := S (nodes w) |}).
    assert (E : (source <- createBufferSource ;; schedule source now b) w = Returned tt w1)
      by reflexivity.
    rewrite E. destruct (IH w1) as (w' & E' & S' & N' & A'). exists w'.
    split; [exact E'|]. split; [|split].
    + rewrite S'. unfold w1 at 1. rewrite started_app. cbn [flat_map app].
      rewrite <- app_assoc. reflexivity.
    + rewrite N'. reflexivity.
    + rewrite A'. reflexivity.
Qed.

(** what the rule guarantees on times *)
Lemma spec_startTimes_sound (arrivals : list arrival) (next : number) :
  time_ok next = true -> forallb arrival_ok arrivals = true ->
  (forall s, nth_error (spec_startTimes next arrivals) 0 = Some s ->
             lex_le (rank next) (rank s)) /\
  (forall i now b s,
      nth_error arrivals i = Some (now, b) ->
      nth_error (spec_startTimes next arrivals) i = Some s ->
      time_ok s = true /\ ge s now = true) /\
  (forall i now b s s',
      nth_error arrivals i = Some (now, b) ->
      nth_error (spec_startTimes next arrivals) i = Some s ->
      nth_error (spec_startTimes next arrivals) (S i) = Some s' ->
      ge s' (s + duration b)%num = true).
Proof.
  revert next. induction arrivals as [|[now0 b0] rest IH]; intros next Hn Hall.
  - split; [|split]; intros; try destruct i; discriminate.
  - cbn [forallb] in Hall. apply andb_prop in Hall. destruct Hall as [H0 Hrest].
    unfold arrival_ok in H0. cbn [fst snd] in H0. apply andb_prop in H0.
    destruct H0 as [Hnow Hdur].
    destruct (Math_max_spec now0 next Hnow Hn) as (Hs0 & Hge_now & Hge_next).
    set (s0 := Math_max now0 next) in *.
    destruct (add_spec s0 (duration b0) Hs0 Hdur) as [Hnext' Hle'].
    destruct (IH (s0 + duration b0)%num Hnext' Hrest) as (IH1 & IH2 & IH3).
    cbn [spec_startTimes]. fold s0.
    split; [|split].
    + intros s E. cbn [nth_error] in E. injection E as <-. exact Hge_next.
    + intros i now b s Ha Hs. destruct i as [|i]; cbn [nth_error] in Ha, Hs.
      * injection Ha as <- <-. injection Hs as <-. split; [exact Hs0|].
        apply ge_rank; assumption.
      * eapply IH2; eassumption.
    + intros i now b s s' Ha Hs Hs'. destruct i as [|i]; cbn [nth_error] in Ha, Hs, Hs'.
      * injection Ha as <- <-. injection Hs as <-.
        assert (Hts' : time_ok s' = true).
        { destruct rest as [|[now1 b1] rest']; [discriminate|].
          eapply (IH2 O now1 b1 s'); [reflexivity|exact Hs']. }
        apply ge_rank; trivial. apply IH1. exact Hs'.
      * eapply IH3; eassumption.
Qed.

Lemma spec_startTimes_burst (t0 next : number) (b1 b2 b3 : AudioBuffer) :
  time_ok next = true ->
  forallb arrival_ok [(t0, b1); (t0, b2); (t0, b3)] = true ->
  ge t0 next = true ->
  spec_startTimes next [(t0, b1); (t0, b2); (t0, b3)]
  = [t0; (t0 + duration b1)%num; ((t0 + duration b1) + duration b2)%num].
Proof.
  intros Hn Hall Hge. cbn [forallb] in Hall. unfold arrival_ok in Hall. cbn [fst snd] in Hall.
  apply andb_prop in Hall. destruct Hall as [A1 Hall].
  apply andb_prop in Hall. destruct Hall as [A2 _].
  apply andb_prop in A1. destruct A1 as [Ht0 H1].
  apply andb_prop in A2. destruct A2 as [_ H2].
  cbn [spec_startTimes].
  rewrite (Math_max_ge t0 next Ht0 Hn) by (apply ge_rank; assumption).
  destruct (add_spec t0 (duration b1) Ht0 H1) as [Ha1 La1].
  rewrite (Math_max_le t0 (t0 + duration b1)%num Ht0 Ha1 La1).
  destruct (add_spec (t0 + duration b1)%num (duration b2) Ha1 H2) as [Ha2 La2].
  rewrite (Math_max_le t0 ((t0 + duration b1) + duration b2)%num Ht0 Ha2)
    by (eapply lex_le_trans; eassumption).
  reflexivity.
Qed.

(** C7: buffers are started as the rule says: each at the later of the
    clock and the next free time, which then moves to that start plus the
    buffer's duration.  Hence no buffer starts before the clock reading it
    arrived at, none starts before the one before it ends, and three buffers
    arriving together at [t0], not before the next free time, start at [t0],
    [t0 + d1] and [t0 + d1 + d2]. *)
Theorem C7_playback_schedule (arrivals : list arrival) (w : World) :
  time_ok (nextStartTimeRef (refs w)) = true ->
  forallb arrival_ok arrivals = true ->
  exists w',
    playAll arrivals w = Returned tt w' /\
    started w' = started w ++ spec_startTimes (nextStartTimeRef (refs w)) arrivals /\
    nextStartTimeRef (refs w') = spec_nextStartTime (nextStartTimeRef (refs w)) arrivals /\
    (forall i now b s,
        nth_error arrivals i = Some (now, b) ->
        nth_error (spec_startTimes (nextStartTimeRef (refs w)) arrivals) i = Some s ->
        ge s now = true) /\
    (forall i now b s s',
        nth_error arrivals i = Some (now, b) ->
        nth_error (spec_startTimes (nextStartTimeRef (refs w)) arrivals) i = Some s ->
        nth_error (spec_startTimes (nextStartTimeRef (refs w)) arrivals) (S i) = Some s' ->
        ge s' (s + duration b)%num = true) /\
    (forall t0 b1 b2 b3,
        arrivals = [(t0, b1); (t0, b2); (t0, b3)] ->
        ge t0 (nextStartTimeRef (refs w)) = true ->
        spec_startTimes (nextStartTimeRef (refs w)) arrivals
        = [t0; (t0 + duration b1)%num; ((t0 + duration b1) + duration b2)%num]).
Proof.
  intros Hn Hall.
  destruct (playAll_refines arrivals w) as (w' & E & S' & N' & _).
  destruct (spec_startTimes_sound arrivals _ Hn Hall) as (_ & P2 & P3).
  exists w'. split; [exact E|]. split; [exact S'|]. split; [exact N'|].
  split; [|split].
  - intros i now b s Ha Hs. eapply P2; eassumption.
  - exact P3.
  - intros t0 b1 b2 b3 -> Hge. apply spec_startTimes_burst; assumption.
Qed.

(** C7, witness: the burst of three buffers on the session in full swing *)
Lemma C7_playback_schedule_burst :
  exists w',
    playAll burst activeWorld = Returned tt w' /\
    started w' = started activeWorld ++ spec_startTimes (nextStartTimeRef (refs activeWorld)) burst /\
    nextStartTimeRef (refs w') = spec_nextStartTime (nextStartTimeRef (refs activeWorld)) burst /\
    (forall i now b s,
        nth_error burst i = Some (now, b) ->
        nth_error (spec_startTimes (nextStartTimeRef (refs activeWorld)) burst) i = Some s ->
        ge s now = true) /\
    (forall i now b s s',
        nth_error burst i = Some (now, b) ->
        nth_error (spec_startTimes (nextStartTimeRef (refs activeWorld)) burst) i = Some s ->
        nth_error (spec_startTimes (nextStartTimeRef (refs activeWorld)) burst) (S i) = Some s' ->
        ge s' (s + duration b)%num = true) /\
    (forall t0 b1 b2 b3,
        burst = [(t0, b1); (t0, b2); (t0, b3)] ->
        ge t0 (nextStartTimeRef (refs activeWorld)) = true ->
        spec_startTimes (nextStartTimeRef (refs activeWorld)) burst
        = [t0; (t0 + duration b1)%num; ((t0 + duration b1) + duration b2)%num]).
Proof.
  apply (C7_playback_schedule burst activeWorld).
  - reflexivity.
  - vm_compute. reflexivity.
Defined.

(** the burst, computed: starts at 0.5, 0.6 and 0.8 *)
Lemma burst_starts :
  spec_startTimes (nextStartTimeRef (refs activeWorld)) burst
  = [decimal 5 (-1); decimal 6 (-1); decimal 8 (-1)].
Proof. vm_compute. reflexivity. Qed.

End Audio.

(** ** Decoding and playing audio payloads *)

Module Decode.

Import Binary64 Clock Exact Audio.

Lemma bounded_of_digits (m : positive) (e : Z) :
  Z.pos (digits2_pos m) = 53 -> -1074 <= e <= 971 -> bounded prec emax m e = true.
Proof.
  intros Hd He. unfold bounded, canonical_mantissa. rewrite Hd, fexp_eq.
  apply andb_true_intro. split; [apply Z.eqb_eq; lia|apply Z.leb_le; unfold emax, prec; lia].
Qed.

Lemma pow2_m15 : (2 ^ (-15) == 1 # 32768)%Q.
Proof. reflexivity. Qed.

(** X2: [decodeAudioData] turns every 16-bit integer [v] into exactly
    [v / 32768]: the division and the store into the [Float32Array] lose
    nothing, the sample is a well-formed finite number or zero, and it lies
    in [-1, 1). *)
Theorem decodeSample_exact (v : Z) :
  -32768 <= v <= 32767 ->
  sample_ok (decodeSample v) = true /\
  (value (decodeSample v) == v # 32768)%Q /\
  (-1 <= value (decodeSample v))%Q /\ (value (decodeSample v) < 1)%Q.
Proof.
  intros Hv.
  assert (G : sample_ok (decodeSample v) = true /\ (value (decodeSample v) == v # 32768)%Q).
  { destruct v as [|n|n].
    - split; reflexivity.
    - assert (Hn : Z.pos (digits2_pos n) <= 16).
      { change 16 with (Z.pos (digits2_pos 32768)). apply digits2_pos_le. lia. }
      destruct (decodeSample_nonzero false n Hn) as (mA & E & HA).
      cbn [cond_Zopp] in E. rewrite E. split.
      + cbn [sample_ok]. apply bounded_of_digits; [|lia].
        change (Z.pos (digits2_pos mA)) with (Zdigits2 (Z.pos mA)).
        rewrite HA, Zdigits2_shift by lia. lia.
      + cbn [value]. rewrite HA, signed_rescale by lia.
        replace (53 - Z.pos (digits2_pos n) + (Z.pos (digits2_pos n) - 68)) with (-15) by lia.
        rewrite pow2_m15. unfold Qeq, inject_Z, Qmult. cbn [Qnum Qden cond_Zopp]. lia.
    - assert (Hn : Z.pos (digits2_pos n) <= 16).
      { change 16 with (Z.pos (digits2_pos 32768)). apply digits2_pos_le. lia. }
      destruct (decodeSample_nonzero true n Hn) as (mA & E & HA).
      cbn [cond_Zopp Z.opp] in E. rewrite E. split.
      + cbn [sample_ok]. apply bounded_of_digits; [|lia].
        change (Z.pos (digits2_pos mA)) with (Zdigits2 (Z.pos mA)).
        rewrite HA, Zdigits2_shift by lia. lia.
      + cbn [value]. rewrite HA, signed_rescale by lia.
        replace (53 - Z.pos (digits2_pos n) + (Z.pos (digits2_pos n) - 68)) with (-15) by lia.
        rewrite pow2_m15. unfold Qeq, inject_Z, Qmult. cbn [Qnum Qden cond_Zopp]. lia. }
  destruct G as [G1 G2]. split; [exact G1|]. split; [exact G2|].
  rewrite G2. unfold Qle, Qlt. cbn [Qnum Qden]. lia.
Qed.

Lemma base64ToUint8Array_bytes (s : string) :
  Forall (fun b => 0 <= b <= 255) (base64ToUint8Array s).
Proof.
  unfold base64ToUint8Array. apply Forall_map. apply Forall_forall. intros c _.
  pose proof (nat_ascii_bounded c). lia.
Qed.

Lemma base64ToUint8Array_length (s : string) :
  List.length (base64ToUint8Array s) = String.length s.
Proof.
  unfold base64ToUint8Array. rewrite length_map.
  induction s as [|c s IH]; cbn [list_ascii_of_string List.length String.length]; congruence.
Qed.

(** induction over a list two elements at a time *)
Lemma pairs_ind {A : Type} (P : list A -> Prop) :
  P [] -> (forall a, P [a]) -> (forall a b l, P l -> P (a :: b :: l)) ->
  forall l, P l.
Proof.
  intros H0 H1 H2.
  assert (G : forall l, P l /\ forall a, P (a :: l)).
  { induction l as [|b l [IH1 IH2]]; split; auto. }
  intros l. apply G.
Qed.

Lemma int16_view_length (bytes : list Z) :
  List.length (int16_view bytes) = Nat.div2 (List.length bytes).
Proof.
  induction bytes as [|a|a b l IH] using pairs_ind; try reflexivity.
  cbn [int16_view List.length Nat.div2]. rewrite IH. reflexivity.
Qed.

Lemma int16_view_range (bytes : list Z) :
  Forall (fun b => 0 <= b <= 255) bytes ->
  Forall (fun v => -32768 <= v <= 32767) (int16_view bytes).
Proof.
  induction bytes as [|a|a b l IH] using pairs_ind; intros H; try constructor.
  - inversion_clear H as [|? ? Ha H']. inversion_clear H' as [|? ? Hb Hl].
    cbn zeta. destruct (Z.leb_spec 32768 (a + 256 * b)); lia.
  - inversion_clear H as [|? ? Ha H']. inversion_clear H' as [|? ? Hb Hl]. auto.
Qed.

Lemma map_nth_error_seq {A B : Type} (f : A -> B) (d : B) (l : list A) :
  map (fun i => match nth_error l (i * 1 + 0)%nat with Some v => f v | None => d end)
      (seq 0 (List.length l)) = map f l.
Proof.
  assert (G : forall (k : nat) (pre : list A),
             List.length pre = k ->
             map (fun i => match nth_error (pre ++ l) (i * 1 + 0)%nat with Some v => f v | None => d end)
                 (seq k (List.length l)) = map f l).
  { induction l as [|x l IH]; intros k pre Hk; [reflexivity|].
    cbn [List.length seq map]. f_equal.
    - replace (k * 1 + 0)%nat with (List.length pre + 0)%nat by lia.
      rewrite nth_error_app2 by lia.
      replace (List.length pre + 0 - List.length pre)%nat with O by lia. reflexivity.
    - specialize (IH (S k) (pre ++ [x])). rewrite <- app_assoc in IH. cbn [app] in IH.
      apply IH. rewrite length_app. cbn [List.length]. lia. }
  apply (G O []). reflexivity.
Qed.

Lemma even_div2 (n : nat) : Nat.even n = true -> Z.of_nat (Nat.div2 n) = Z.of_nat n / 2.
Proof.
  intros H. apply Nat.even_spec in H. destruct H as [k ->].
  rewrite Nat.div2_double, Nat2Z.inj_mul. change (Z.of_nat 2) with 2.
  rewrite Z.mul_comm, Z.div_mul by lia. reflexivity.
Qed.

(** what [decodeAudioData] returns on a payload of whole 16-bit samples *)
Lemma decodeAudioData_returns (payload : string) (w : World) :
  payload <> EmptyString -> Nat.even (String.length payload) = true ->
  decodeAudioData (base64ToUint8Array payload) 24000 1 w =
    Returned {| numberOfChannels := 1;
                frameCount := Z.of_nat (String.length payload) / 2;
                sampleRate := 24000;
                channelData := [map decodeSample (int16_view (base64ToUint8Array payload))] |} w /\
  1 <= Z.of_nat (String.length payload) / 2.
Proof.
  intros Hne Hev.
  set (bytes := base64ToUint8Array payload) in *.
  assert (Hlen : List.length bytes = String.length payload)
    by apply base64ToUint8Array_length.
  assert (Hframes : Z.of_nat (List.length (int16_view bytes)) = Z.of_nat (String.length payload) / 2).
  { rewrite int16_view_length, Hlen. apply even_div2. exact Hev. }
  assert (Hpos : 2 <= Z.of_nat (String.length payload)).
  { destruct payload as [|c [|c' r]]; [contradiction|discriminate|].
    cbn [String.length]. lia. }
  assert (F1 : 1 <= Z.of_nat (String.length payload) / 2)
    by (apply Z.div_le_lower_bound; lia).
  split; [|exact F1].
  unfold decodeAudioData, Int16Array_of. rewrite Hlen, Hev.
  unfold bind, ret. rewrite Z.div_1_r, Hframes.
  destruct (Z.leb_spec (Z.of_nat (String.length payload) / 2) 0); [lia|].
  cbn [Z.leb Z.compare orb]. f_equal. f_equal.
  change (Z.to_nat 1) with 1%nat. cbn [seq map]. f_equal.
  rewrite <- Hframes, Nat2Z.id. apply map_nth_error_seq.
Qed.

(** X3: on a payload of an even, non-zero number of bytes
    [decodeAudioData], called as [onmessage] calls it (24 kHz, one channel),
    returns without touching the state a buffer of one channel at 24000 Hz
    with one frame per two payload bytes; the channel holds, in order, the
    decoded little-endian 16-bit integers of the payload, all of them in
    [-32768, 32767]. *)
Theorem decodeAudioData_mono (payload : string) (w : World) :
  payload <> EmptyString -> Nat.even (String.length payload) = true ->
  exists buffer,
    decodeAudioData (base64ToUint8Array payload) 24000 1 w = Returned buffer w /\
    numberOfChannels buffer = 1 /\
    sampleRate buffer = 24000 /\
    Z.of_nat (String.length payload) = 2 * frameCount buffer /\
    channelData buffer = [map decodeSample (int16_view (base64ToUint8Array payload))] /\
    (forall channel, In channel (channelData buffer) ->
       Z.of_nat (List.length channel) = frameCount buffer) /\
    Forall (fun v => -32768 <= v <= 32767) (int16_view (base64ToUint8Array payload)).
Proof.
  intros Hne Hev. destruct (decodeAudioData_returns payload w Hne Hev) as [E _].
  eexists. split; [exact E|]. cbn [numberOfChannels sampleRate frameCount channelData].
  assert (Hframes : Z.of_nat (Nat.div2 (String.length payload)) = Z.of_nat (String.length payload) / 2)
    by (apply even_div2; exact Hev).
  split; [reflexivity|]. split; [reflexivity|]. split; [|split; [reflexivity|split]].
  - apply Nat.even_spec in Hev. destruct Hev as [k Hk]. rewrite Hk, Nat2Z.inj_mul.
    change (Z.of_nat 2) with 2. rewrite (Z.mul_comm 2), Z.div_mul by lia. ring.
  - intros channel [<-|[]].
    rewrite length_map, int16_view_length, base64ToUint8Array_length. exact Hframes.
  - apply int16_view_range, base64ToUint8Array_bytes.
Qed.

Lemma of_Z_24000 : of_Z 24000 = S754_finite false 6597069766656000 (-38).
Proof. vm_compute. reflexivity. Qed.

(** the duration of a buffer of fewer than 2^53 frames at 24 kHz *)
Lemma duration_positive_finite (b : AudioBuffer) :
  0 < frameCount b < 2 ^ 53 -> sampleRate b = 24000 ->
  positive_finite (duration b) = true.
Proof.
  intros Hf Hr. unfold duration. rewrite Hr, of_Z_24000.
  destruct (frameCount b) as [|n|n]; try lia.
  set (d := Z.pos (digits2_pos n)).
  assert (Hd : 1 <= d <= 53).
  { split; [unfold d; lia|]. pose proof (digits2_pos_bounds n) as [Lo _]. fold d in Lo.
    destruct (Z_le_gt_dec d 53) as [|G]; trivial.
    assert (2 ^ 53 <= 2 ^ (d - 1)) by (apply Z.pow_le_mono_r; lia). lia. }
  destruct (binary_round_exact prec emax false n 0) as (mA & EA & HA & DA);
    fold d; unfold prec, emax; try lia.
  unfold prec in DA. fold d in EA.
  assert (E0 : of_Z (Z.pos n) = S754_finite false mA (d + 0 - 53)) by exact EA.
  rewrite E0.
  pose proof (SFdiv_normal mA 6597069766656000 (d + 0 - 53) (-38)) as Hdiv.
  cbv zeta in Hdiv. rewrite DA in Hdiv.
  change (Z.pos (digits2_pos 6597069766656000)) with 53 in Hdiv.
  destruct Hdiv as (mq & eq & Eq & Bq & _); try lia.
  unfold div. rewrite Eq. exact Bq.
Qed.

Lemma positive_finite_time_ok (x : number) : positive_finite x = true -> time_ok x = true.
Proof. destruct x as [s|s| |s m e]; try discriminate. destruct s; [discriminate|auto]. Qed.

(** X4: an audio message that arrives while the playback clock is held,
    with a payload of an even, non-zero number of bytes: [onmessage] returns,
    turns the speaking flag on, starts one fresh source at the later of the
    clock and the next free time, records it among the scheduled sources and
    moves the next free time to that start plus the positive, finite
    duration of the buffer.  The start is neither before the clock nor
    before the old next free time, and the new next free time is again a
    time (never NaN or negative) and not before the start. *)
Theorem onmessage_audio_schedules
    (payload : string) (ctx : AudioContext) (now : number) (w : World) :
  audioContextRef (refs w) = Some ctx ->
  payload <> EmptyString ->
  Nat.even (String.length payload) = true ->
  Z.of_nat (String.length payload) < 2 ^ 54 ->
  time_ok now = true ->
  time_ok (nextStartTimeRef (refs w)) = true ->
  let buffer := {| numberOfChannels := 1;
                   frameCount := Z.of_nat (String.length payload) / 2;
                   sampleRate := 24000;
                   channelData := [map decodeSample (int16_view (base64ToUint8Array payload))] |} in
  let startTime := Math_max now (nextStartTimeRef (refs w)) in
  exists w',
    onmessage {| toolCall := None; audioData := Some payload |} now w = Returned tt w' /\
    isAiSpeaking (app w') = true /\
    started w' = started w ++ [startTime] /\
    sourcesRef (refs w') = sourcesRef (refs w) ++ [nodes w] /\
    nodes w' = S (nodes w) /\
    nextStartTimeRef (refs w') = (startTime + duration buffer)%num /\
    positive_finite (duration buffer) = true /\
    ge startTime now = true /\
    ge startTime (nextStartTimeRef (refs w)) = true /\
    ge (nextStartTimeRef (refs w')) startTime = true /\
    time_ok (nextStartTimeRef (refs w')) = true.
Proof.
  intros Hctx Hne Hev Hlen Hnow Hnext buffer startTime.
  destruct payload as [|c rest]; [contradiction|].
  rewrite (onmessage_audio c rest ctx now w Hctx).
  set (w0 := {| app := setIsAiSpeaking true (app w); refs := refs w;
                trace := trace w; nodes := nodes w |}).
  destruct (decodeAudioData_returns (String c rest) w0 Hne Hev) as [E F1].
  fold buffer in E.
  assert (Hdur : positive_finite (duration buffer) = true).
  { apply duration_positive_finite; [|reflexivity]. cbn [frameCount buffer].
    split; [lia|]. apply Z.div_lt_upper_bound; lia. }
  destruct (Math_max_spec now _ Hnow Hnext) as (Hs & Hs1 & Hs2). fold startTime in Hs, Hs1, Hs2.
  destruct (add_spec startTime (duration buffer) Hs (positive_finite_time_ok _ Hdur)) as [Ha La].
  unfold bind at 1. cbn [setState]. fold w0. unfold bind at 1. rewrite E.
  lazy beta iota zeta delta [bind createBufferSource schedule getRefs emit setRefs].
  eexists. split; [reflexivity|]. cbn [app refs nodes trace isAiSpeaking setIsAiSpeaking w0
    nextStartTimeRef sourcesRef set_sourcesRef set_nextStartTimeRef].
  fold startTime.
  split; [reflexivity|]. split; [rewrite started_app; reflexivity|].
  split; [reflexivity|]. split; [reflexivity|]. split; [reflexivity|].
  split; [exact Hdur|].
  split; [apply ge_rank; assumption|].
  split; [apply ge_rank; assumption|].
  split; [apply ge_rank; assumption|exact Ha].
Qed.

(** the handler on the text and the handler on what [atob] makes of it *)
Lemma onmessage_base64_decoded (tc : option (option (list FunctionCall)))
    (text binaryString : string) (now : number) (w : World) :
  text <> EmptyString -> atob text = Some binaryString ->
  onmessage_base64 tc (Some text) now w =
  onmessage {| toolCall := tc; audioData := Some binaryString |} now w.
Proof.
  intros Hne E. destruct text as [|c rest]; [contradiction|].
  unfold onmessage_base64, onmessage, base64ToUint8Array_atob.
  cbn [toolCall audioData]. rewrite E. cbn [option_map]. reflexivity.
Qed.

(** X5: payloads that cannot be played.  A byte count that is odd is a
    [RangeError] of [decodeAudioData], fewer 16-bit samples than channels a
    [NotSupportedError], both with the state untouched.  In [onmessage],
    while the playback clock is held, a payload of an odd number of bytes
    throws the [RangeError] and a payload of no bytes the
    [NotSupportedError], both after the speaking flag has been turned on and
    with nothing scheduled.  On the message as it arrives, with its base64
    text: a text that is not empty and that [atob] decodes is handled as its
    decoding is; a text [atob] refuses throws an [InvalidCharacterError],
    again after the flag has been turned on; a text of one space decodes to
    no bytes and so ends in the [NotSupportedError].  Only a missing or
    empty text, or a missing playback clock, makes the handler pass over
    the audio of a message. *)
Theorem unplayable_payloads :
  let speaking (w : World) :=
    {| app := setIsAiSpeaking true (app w); refs := refs w;
       trace := trace w; nodes := nodes w |} in
  (forall data sampleRate numChannels w,
      Nat.even (List.length data) = false ->
      decodeAudioData data sampleRate numChannels w = Thrown RangeError w) /\
  (forall data sampleRate numChannels w,
      Nat.even (List.length data) = true ->
      0 < numChannels -> Z.of_nat (List.length data) < 2 * numChannels ->
      decodeAudioData data sampleRate numChannels w = Thrown NotSupportedError w) /\
  (forall payload ctx now w,
      audioContextRef (refs w) = Some ctx ->
      Nat.even (String.length payload) = false ->
      onmessage {| toolCall := None; audioData := Some payload |} now w =
      Thrown RangeError (speaking w)) /\
  (forall ctx now w,
      audioContextRef (refs w) = Some ctx ->
      onmessage {| toolCall := None; audioData := Some EmptyString |} now w =
      Thrown NotSupportedError (speaking w)) /\
  (forall tc text binaryString now w,
      text <> EmptyString -> atob text = Some binaryString ->
      onmessage_base64 tc (Some text) now w =
      onmessage {| toolCall := tc; audioData := Some binaryString |} now w) /\
  (forall text ctx now w,
      audioContextRef (refs w) = Some ctx ->
      text <> EmptyString -> atob text = None ->
      onmessage_base64 None (Some text) now w = Thrown InvalidCharacterError (speaking w)) /\
  (atob " " = Some EmptyString /\ atob "TW-u" = None /\ atob "T" = None /\
   forall ctx now w,
     audioContextRef (refs w) = Some ctx ->
     onmessage_base64 None (Some " "%string) now w = Thrown NotSupportedError (speaking w)) /\
  (forall payload now w,
      audioContextRef (refs w) = None ->
      onmessage {| toolCall := None; audioData := payload |} now w = Returned tt w /\
      onmessage_base64 None payload now w = Returned tt w) /\
  (forall now w,
      onmessage {| toolCall := None; audioData := None |} now w = Returned tt w /\
      onmessage_base64 None None now w = Returned tt w /\
      onmessage_base64 None (Some EmptyString) now w = Returned tt w).
Proof.
  intros speaking.
  assert (Hempty : forall ctx now w,
             audioContextRef (refs w) = Some ctx ->
             onmessage {| toolCall := None; audioData := Some EmptyString |} now w =
             Thrown NotSupportedError (speaking w)).
  { intros ctx now w Hctx. unfold onmessage. cbn [toolCall audioData].
    unfold bind at 1. cbn [ret]. unfold bind at 1. cbn [getRefs]. rewrite Hctx. reflexivity. }
  split; [|split; [|split; [|split; [|split; [|split; [|split; [|split]]]]]]].
  - intros data sr ch w H. unfold decodeAudioData, Int16Array_of. rewrite H. reflexivity.
  - intros data sr ch w Hev Hch H. unfold decodeAudioData, Int16Array_of. rewrite Hev.
    unfold bind, ret. rewrite int16_view_length, (even_div2 _ Hev).
    assert (G : (ch <=? 0) || (Z.of_nat (List.length data) / 2 / ch <=? 0) = true).
    { apply orb_true_intro. right. apply Z.leb_le.
      rewrite Z.div_small; [lia|]. split; [apply Z.div_pos; lia|].
      apply Z.div_lt_upper_bound; lia. }
    rewrite G. reflexivity.
  - intros payload ctx now w Hctx Hodd.
    destruct payload as [|c rest]; [discriminate|].
    rewrite (onmessage_audio c rest ctx now w Hctx).
    unfold bind at 1. cbn [setState]. unfold bind at 1.
    unfold decodeAudioData, Int16Array_of. rewrite base64ToUint8Array_length, Hodd. reflexivity.
  - exact Hempty.
  - intros tc text binaryString now w. apply onmessage_base64_decoded.
  - intros text ctx now w Hctx Hne E. destruct text as [|c rest]; [contradiction|].
    unfold onmessage_base64, base64ToUint8Array_atob. rewrite E. cbn [option_map].
    unfold bind at 1. cbn [ret]. unfold bind at 1. cbn [getRefs]. rewrite Hctx. reflexivity.
  - split; [reflexivity|]. split; [reflexivity|]. split; [reflexivity|].
    intros ctx now w Hctx.
    rewrite (onmessage_base64_decoded None " " EmptyString now w); [|discriminate|reflexivity].
    apply (Hempty ctx now w Hctx).
  - intros payload now w H. split.
    + unfold onmessage. cbn [toolCall audioData].
      unfold bind, ret, getRefs. rewrite H. destruct payload; reflexivity.
    + unfold onmessage_base64. unfold bind, ret, getRefs. rewrite H.
      destruct payload as [[|c r]|]; reflexivity.
  - intros now w. split; [|split].
    + unfold onmessage. cbn [toolCall audioData]. unfold bind, ret, getRefs.
      destruct (audioContextRef (refs w)); reflexivity.
    + unfold onmessage_base64. unfold bind, ret, getRefs.
      destruct (audioContextRef (refs w)); reflexivity.
    + unfold onmessage_base64. unfold bind, ret, getRefs. reflexivity.
Qed.

(** X2, witness: the lowest integer *)
Lemma decodeSample_exact_lowest :
  sample_ok (decodeSample (-32768)) = true /\
  (value (decodeSample (-32768)) == -32768 # 32768)%Q /\
  (-1 <= value (decodeSample (-32768)))%Q /\ (value (decodeSample (-32768)) < 1)%Q.
Proof. apply (decodeSample_exact (-32768)). lia. Defined.

(** X3, witness: a payload of four bytes *)
Lemma decodeAudioData_mono_two_frames :
  exists buffer,
    decodeAudioData (base64ToUint8Array "abcd") 24000 1 activeWorld = Returned buffer activeWorld /\
    numberOfChannels buffer = 1 /\
    sampleRate buffer = 24000 /\
    Z.of_nat (String.length "abcd") = 2 * frameCount buffer /\
    channelData buffer = [map decodeSample (int16_view (base64ToUint8Array "abcd"))] /\
    (forall channel, In channel (channelData buffer) ->
       Z.of_nat (List.length channel) = frameCount buffer) /\
    Forall (fun v => -32768 <= v <= 32767) (int16_view (base64ToUint8Array "abcd")).
Proof.
  apply (decodeAudioData_mono "abcd" activeWorld); [discriminate|reflexivity].
Defined.

(** X4, witness: four bytes arriving on the session in full swing *)
Lemma onmessage_audio_schedules_two_frames :
  let buffer := {| numberOfChannels := 1;
                   frameCount := Z.of_nat (String.length "abcd") / 2;
                   sampleRate := 24000;
                   channelData := [map decodeSample (int16_view (base64ToUint8Array "abcd"))] |} in
  let startTime := Math_max (decimal 5 (-1)) (nextStartTimeRef (refs activeWorld)) in
  exists w',
    onmessage {| toolCall := None; audioData := Some "abcd"%string |} (decimal 5 (-1)) activeWorld
      = Returned tt w' /\
    isAiSpeaking (app w') = true /\
    started w' = started activeWorld ++ [startTime] /\
    sourcesRef (refs w') = sourcesRef (refs activeWorld) ++ [nodes activeWorld] /\
    nodes w' = S (nodes activeWorld) /\
    nextStartTimeRef (refs w') = (startTime + duration buffer)%num /\
    positive_finite (duration buffer) = true /\
    ge startTime (decimal 5 (-1)) = true /\
    ge startTime (nextStartTimeRef (refs activeWorld)) = true /\
    ge (nextStartTimeRef (refs w')) startTime = true /\
    time_ok (nextStartTimeRef (refs w')) = true.
Proof.
  apply (onmessage_audio_schedules "abcd" 2%nat (decimal 5 (-1)) activeWorld);
    [reflexivity|discriminate|reflexivity|cbn; lia|reflexivity|reflexivity].
Defined.

End Decode.

(** ** Base64 transport of PCM data *)

Module Transport.

Lemma triples_ind {A : Type} (P : list A -> Prop) :
  P [] -> (forall a, P [a]) -> (forall a b, P [a; b]) ->
  (forall a b c l, P l -> P (a :: b :: c :: l)) ->
  forall l, P l.
Proof.
  intros H0 H1 H2 H3.
  assert (G : forall l, P l /\ (forall a, P (a :: l)) /\ (forall a b, P (a :: b :: l))).
  { induction l as [|c l (IH1 & IH2 & IH3)]; repeat split; auto. }
  intros l. apply G.
Qed.

Lemma btoa_bytes_split (bytes : list Z) :
  btoa_bytes bytes = map sextet_char (encode_sextets bytes) ++ padding bytes.
Proof.
  induction bytes as [|a|a b|a b c l IH] using triples_ind; try reflexivity.
  cbn [btoa_bytes encode_sextets padding map List.app]. rewrite IH. reflexivity.
Qed.

Lemma encode_sextets_range (bytes : list Z) :
  Forall is_byte bytes -> Forall (fun n => 0 <= n < 64) (encode_sextets bytes).
Proof.
  unfold is_byte.
  induction bytes as [|a|a b|a b c l IH] using triples_ind; intros H.
  - constructor.
  - inversion_clear H as [|? ? Ha _]. cbn [encode_sextets].
    repeat constructor; Z.div_mod_to_equations; lia.
  - inversion_clear H as [|? ? Ha H']. inversion_clear H' as [|? ? Hb _]. cbn [encode_sextets].
    repeat constructor; Z.div_mod_to_equations; lia.
  - inversion_clear H as [|? ? Ha H']. inversion_clear H' as [|? ? Hb H''].
    inversion_clear H'' as [|? ? Hc Hl]. cbn [encode_sextets].
    repeat (constructor; [Z.div_mod_to_equations; lia|]). auto.
Qed.

Lemma atob_bytes_encode (bytes : list Z) :
  Forall is_byte bytes -> atob_bytes (encode_sextets bytes) = bytes.
Proof.
  unfold is_byte.
  induction bytes as [|a|a b|a b c l IH] using triples_ind; intros H.
  - reflexivity.
  - inversion_clear H as [|? ? Ha _]. cbn [encode_sextets atob_bytes].
    f_equal. Z.div_mod_to_equations; lia.
  - inversion_clear H as [|? ? Ha H']. inversion_clear H' as [|? ? Hb _].
    cbn [encode_sextets atob_bytes].
    f_equal; [|f_equal]; Z.div_mod_to_equations; lia.
  - inversion_clear H as [|? ? Ha H']. inversion_clear H' as [|? ? Hb H''].
    inversion_clear H'' as [|? ? Hc Hl]. cbn [encode_sextets atob_bytes].
    rewrite (IH Hl).
    f_equal; [|f_equal; [|f_equal]]; Z.div_mod_to_equations; lia.
Qed.

Lemma sextet_char_spec (n : Z) :
  0 <= n < 64 ->
  char_sextet (sextet_char n) = Some n /\
  is_base64_space (sextet_char n) = false /\
  Ascii.eqb (sextet_char n) "=" = false.
Proof.
  intros H.
  assert (A : forallb sextet_ok (seq 0 64) = true) by (vm_compute; reflexivity).
  rewrite forallb_forall in A. specialize (A (Z.to_nat n)).
  rewrite in_seq in A. unfold sextet_ok in A. rewrite Z2Nat.id in A by lia.
  cbv zeta in A. specialize (A ltac:(lia)).
  destruct (char_sextet (sextet_char n)) as [m|]; [|discriminate].
  apply andb_prop in A. destruct A as [A A3]. apply andb_prop in A. destruct A as [A1 A2].
  apply Z.eqb_eq in A1. apply negb_true_iff in A2, A3. subst m. auto.
Qed.

Lemma sextets_map (l : list Z) :
  Forall (fun n => 0 <= n < 64) l -> sextets (map sextet_char l) = Some l.
Proof.
  induction 1 as [|n l Hn _ IH]; [reflexivity|].
  cbn [map sextets]. rewrite (proj1 (sextet_char_spec n Hn)), IH. reflexivity.
Qed.

Lemma padding_cases (bytes : list Z) :
  (padding bytes = [] /\ Nat.modulo (List.length (encode_sextets bytes)) 4 = 0%nat) \/
  (padding bytes = ["="%char] /\ Nat.modulo (List.length (encode_sextets bytes)) 4 = 3%nat) \/
  (padding bytes = ["="%char; "="%char] /\ Nat.modulo (List.length (encode_sextets bytes)) 4 = 2%nat).
Proof.
  induction bytes as [|a|a b|a b c l IH] using triples_ind.
  - left. split; reflexivity.
  - right. right. split; reflexivity.
  - right. left. split; reflexivity.
  - cbn [padding encode_sextets List.length].
    replace (S (S (S (S (List.length (encode_sextets l))))))
      with (List.length (encode_sextets l) + 1 * 4)%nat by lia.
    rewrite Nat.Div0.mod_add. exact IH.
Qed.

Lemma filter_no_space (l : list Z) (pad : list ascii) :
  Forall (fun n => 0 <= n < 64) l -> Forall (fun c => c = "="%char) pad ->
  filter (fun c => negb (is_base64_space c)) (map sextet_char l ++ pad)
  = map sextet_char l ++ pad.
Proof.
  intros Hl Hp. apply forallb_filter_id. rewrite forallb_app.
  apply andb_true_intro. split; apply forallb_forall.
  - intros c Hc. apply in_map_iff in Hc. destruct Hc as (n & <- & Hn).
    rewrite Forall_forall in Hl. rewrite (proj1 (proj2 (sextet_char_spec n (Hl n Hn)))).
    reflexivity.
  - intros c Hc. rewrite Forall_forall in Hp. rewrite (Hp c Hc). reflexivity.
Qed.

(** the last character before the padding is never "=" *)
Lemma rev_body_head (l : list Z) (c : ascii) (r : list ascii) :
  Forall (fun n => 0 <= n < 64) l -> rev (map sextet_char l) = c :: r ->
  Ascii.eqb c "=" = false.
Proof.
  intros Hl E.
  assert (Hin : In c (map sextet_char l)).
  { apply in_rev. rewrite E. left. reflexivity. }
  apply in_map_iff in Hin. destruct Hin as (n & <- & Hn).
  rewrite Forall_forall in Hl. apply (sextet_char_spec n (Hl n Hn)).
Qed.

Lemma strip_padding_btoa (bytes : list Z) :
  Forall is_byte bytes ->
  strip_padding (map sextet_char (encode_sextets bytes) ++ padding bytes)
  = map sextet_char (encode_sextets bytes).
Proof.
  intros Hb. pose proof (encode_sextets_range bytes Hb) as Hl.
  set (body := map sextet_char (encode_sextets bytes)).
  assert (Hlen : List.length body = List.length (encode_sextets bytes))
    by (unfold body; apply length_map).
  unfold strip_padding. rewrite length_app, Hlen.
  destruct (padding_cases bytes) as [[-> Hm]|[[-> Hm]|[-> Hm]]]; cbn [List.length].
  - rewrite Nat.add_0_r, Hm, app_nil_r. cbn [Nat.eqb].
    destruct (rev body) as [|c r] eqn:E; [reflexivity|].
    unfold body in E. rewrite (rev_body_head _ c r Hl E). reflexivity.
  - replace ((List.length (encode_sextets bytes) + 1) mod 4)%nat with 0%nat
      by (rewrite Nat.Div0.add_mod, Hm; reflexivity).
    cbn [Nat.eqb]. rewrite rev_app_distr.
    change (rev ["="%char]) with ["="%char]. cbn [List.app].
    change (Ascii.eqb "=" "=") with true. cbv iota.
    destruct (rev body) as [|c r] eqn:E.
    + cbn [rev]. rewrite <- (rev_involutive body), E. reflexivity.
    + unfold body in E. rewrite (rev_body_head _ c r Hl E).
      fold body in E. rewrite <- E. apply rev_involutive.
  - replace ((List.length (encode_sextets bytes) + 2) mod 4)%nat with 0%nat
      by (rewrite Nat.Div0.add_mod, Hm; reflexivity).
    cbn [Nat.eqb]. rewrite rev_app_distr.
    change (rev ["="%char; "="%char]) with ["="%char; "="%char]. cbn [List.app].
    change (Ascii.eqb "=" "=") with true. cbv iota.
    apply rev_involutive.
Qed.

(** [atob] undoes [btoa] on bytes *)
Lemma atob_btoa_bytes (bytes : list Z) :
  Forall is_byte bytes ->
  atob (string_of_list_ascii (btoa_bytes bytes)) = Some (binaryString_of bytes).
Proof.
  intros Hb. pose proof (encode_sextets_range bytes Hb) as Hl.
  unfold atob. rewrite list_ascii_of_string_of_list_ascii, btoa_bytes_split.
  rewrite filter_no_space; trivial.
  - rewrite (strip_padding_btoa bytes Hb), length_map.
    destruct (padding_cases bytes) as [[_ Hm]|[[_ Hm]|[_ Hm]]]; rewrite Hm; cbn [Nat.eqb];
      rewrite (sextets_map _ Hl), (atob_bytes_encode bytes Hb); reflexivity.
  - destruct (padding_cases bytes) as [[-> _]|[[-> _]|[-> _]]]; repeat constructor.
Qed.

Lemma binaryString_of_bytes (s : string) : binaryString_of (base64ToUint8Array s) = s.
Proof.
  unfold binaryString_of, base64ToUint8Array. rewrite map_map.
  rewrite <- (string_of_list_ascii_of_string s) at 2. f_equal.
  rewrite <- (map_id (list_ascii_of_string s)) at 2. apply map_ext. intros c.
  unfold fromCharCode. rewrite Nat2Z.id. apply ascii_nat_embedding.
Qed.

Lemma bytes_of_binaryString (bytes : list Z) :
  Forall is_byte bytes -> base64ToUint8Array (binaryString_of bytes) = bytes.
Proof.
  intros H. unfold binaryString_of, base64ToUint8Array.
  rewrite list_ascii_of_string_of_list_ascii, map_map.
  rewrite <- (map_id bytes) at 2. apply map_ext_Forall.
  eapply Forall_impl; [|exact H]. intros b Hb. unfold is_byte in Hb.
  unfold fromCharCode. rewrite nat_ascii_embedding by lia. lia.
Qed.

Lemma string_bytes (s : string) : Forall is_byte (base64ToUint8Array s).
Proof.
  unfold base64ToUint8Array. apply Forall_map. apply Forall_forall. intros c _.
  pose proof (nat_ascii_bounded c). unfold is_byte. lia.
Qed.

Lemma atob_btoa (binary : string) : atob (btoa binary) = Some binary.
Proof.
  unfold btoa. fold (base64ToUint8Array binary).
  rewrite atob_btoa_bytes by apply string_bytes.
  rewrite binaryString_of_bytes. reflexivity.
Qed.

Lemma ToInt16_range (x : number) : is_int16 (ToInt16 x).
Proof.
  unfold is_int16, ToInt16. cbv zeta.
  pose proof (Z.mod_pos_bound (truncate x) 65536 ltac:(lia)) as H.
  destruct (Z.leb_spec 32768 (truncate x mod 65536)); lia.
Qed.

Lemma int16_view_buffer (pcm : list Z) :
  Forall is_int16 pcm -> int16_view (Int16Array_buffer pcm) = pcm.
Proof.
  unfold is_int16. induction 1 as [|v l Hv _ IH]; [reflexivity|].
  cbn [Int16Array_buffer flat_map List.app int16_view]. fold (Int16Array_buffer l).
  rewrite IH. f_equal.
  replace (v mod 65536 mod 256 + 256 * (v mod 65536 / 256)) with (v mod 65536)
    by (Z.div_mod_to_equations; lia).
  destruct (Z.leb_spec 32768 (v mod 65536)); Z.div_mod_to_equations; lia.
Qed.

Lemma Int16Array_buffer_length (pcm : list Z) :
  List.length (Int16Array_buffer pcm) = (2 * List.length pcm)%nat.
Proof.
  induction pcm as [|v l IH]; [reflexivity|].
  cbn [Int16Array_buffer flat_map List.app List.length]. fold (Int16Array_buffer l).
  rewrite IH. lia.
Qed.

Lemma Int16Array_buffer_bytes (pcm : list Z) : Forall is_byte (Int16Array_buffer pcm).
Proof.
  unfold is_byte. induction pcm as [|v l IH]; [constructor|].
  cbn [Int16Array_buffer flat_map List.app]. fold (Int16Array_buffer l).
  repeat (constructor; [Z.div_mod_to_equations; lia|]). exact IH.
Qed.

(** X6: [base64ToUint8Array] undoes [arrayBufferToBase64]: every byte
    array comes back as it was, and [atob] undoes [btoa] on every binary
    string.  What [btoa] writes has a length that is a multiple of four and
    holds only characters of the alphabet and "=". *)
Theorem base64_round_trip :
  (forall buffer : list Z,
      Forall is_byte buffer ->
      base64ToUint8Array_atob (arrayBufferToBase64 buffer) = Some buffer) /\
  (forall binary : string, atob (btoa binary) = Some binary) /\
  (forall binary : string,
      Nat.modulo (String.length (btoa binary)) 4 = 0%nat /\
      forall c, In c (list_ascii_of_string (btoa binary)) ->
                c = "="%char \/ exists n, 0 <= n < 64 /\ char_sextet c = Some n).
Proof.
  split; [|split].
  - intros buffer H. unfold base64ToUint8Array_atob, arrayBufferToBase64.
    rewrite atob_btoa. cbn [option_map]. rewrite (bytes_of_binaryString buffer H). reflexivity.
  - apply atob_btoa.
  - intros binary. unfold btoa. fold (base64ToUint8Array binary).
    set (bytes := base64ToUint8Array binary).
    pose proof (encode_sextets_range bytes (string_bytes binary)) as Hl.
    rewrite btoa_bytes_split. split.
    + rewrite <- (list_ascii_of_string_of_list_ascii (_ ++ _)) at 1.
      assert (L : forall l, String.length (string_of_list_ascii l) = List.length l).
      { induction l as [|c l IH]; cbn [string_of_list_ascii String.length List.length]; congruence. }
      rewrite list_ascii_of_string_of_list_ascii, L, length_app, length_map.
      destruct (padding_cases bytes) as [[-> Hm]|[[-> Hm]|[-> Hm]]]; cbn [List.length];
        rewrite Nat.Div0.add_mod, Hm; reflexivity.
    + intros c. rewrite list_ascii_of_string_of_list_ascii, in_app_iff.
      intros [Hc|Hc].
      * right. apply in_map_iff in Hc. destruct Hc as (n & <- & Hn).
        rewrite Forall_forall in Hl. exists n. split; [apply Hl, Hn|].
        apply (sextet_char_spec n (Hl n Hn)).
      * left. destruct (padding_cases bytes) as [[E _]|[[E _]|[E _]]]; rewrite E in Hc;
          cbn [In] in Hc; intuition congruence.
Qed.

(** X7: the bytes behind an [Int16Array] and the [Int16Array] view of a
    byte buffer are inverse to each other: 16-bit integers written as two
    bytes, low byte first, read back as the same integers (negative ones
    included), the buffer has two bytes per integer, and a buffer of an even
    number of bytes is the buffer of its view. *)
Theorem int16_layout_round_trip :
  (forall pcm : list Z,
      Forall is_int16 pcm ->
      int16_view (Int16Array_buffer pcm) = pcm) /\
  (forall pcm : list Z,
      List.length (Int16Array_buffer pcm) = (2 * List.length pcm)%nat /\
      Forall is_byte (Int16Array_buffer pcm)) /\
  (forall bytes : list Z,
      Forall is_byte bytes -> Nat.even (List.length bytes) = true ->
      Int16Array_buffer (int16_view bytes) = bytes).
Proof.
  split; [exact int16_view_buffer|]. split.
  - intros pcm. split; [apply Int16Array_buffer_length|apply Int16Array_buffer_bytes].
  - unfold is_byte. induction bytes as [|a|a b l IH] using Decode.pairs_ind; intros H Hev.
    + reflexivity.
    + discriminate.
    + inversion_clear H as [|? ? Ha H']. inversion_clear H' as [|? ? Hb Hl].
      cbn [int16_view Int16Array_buffer flat_map List.app]. fold (Int16Array_buffer (int16_view l)).
      rewrite (IH Hl) by exact Hev.
      destruct (Z.leb_spec 32768 (a + 256 * b));
        (f_equal; [|f_equal]; Z.div_mod_to_equations; lia).
Qed.

(** X8: what the capture handler sends can be played back.  For a
    non-empty block of samples the base64 text handed to [sendRealtimeInput]
    decodes ([atob]) to two bytes per sample, whose 16-bit view is the list
    of encoded samples, all within 16 signed bits; [decodeAudioData] accepts
    it and returns one frame per captured sample, each the decoding of the
    encoding of that sample. *)
Theorem capture_payload_decodes (inputData : list number) (w : World) :
  inputData <> [] ->
  exists binary,
    atob (realtimeInputData inputData) = Some binary /\
    String.length binary = (2 * List.length inputData)%nat /\
    int16_view (base64ToUint8Array binary) = map encodeSample inputData /\
    Forall is_int16 (map encodeSample inputData) /\
    decodeAudioData (base64ToUint8Array binary) 24000 1 w =
      Returned {| numberOfChannels := 1;
                  frameCount := Z.of_nat (List.length inputData);
                  sampleRate := 24000;
                  channelData := [map (fun x => decodeSample (encodeSample x)) inputData] |} w.
Proof.
  intros Hne.
  set (pcm := map encodeSample inputData).
  assert (Hpcm : Forall is_int16 pcm).
  { unfold pcm. apply Forall_map. apply Forall_forall. intros x _. apply ToInt16_range. }
  exists (binaryString_of (Int16Array_buffer pcm)).
  assert (Hb : base64ToUint8Array (binaryString_of (Int16Array_buffer pcm)) = Int16Array_buffer pcm)
    by apply bytes_of_binaryString, Int16Array_buffer_bytes.
  assert (Hlen : String.length (binaryString_of (Int16Array_buffer pcm)) = (2 * List.length inputData)%nat).
  { rewrite <- Decode.base64ToUint8Array_length, Hb, Int16Array_buffer_length.
    unfold pcm. rewrite length_map. reflexivity. }
  split; [apply atob_btoa|]. split; [exact Hlen|].
  split; [rewrite Hb; apply int16_view_buffer, Hpcm|]. split; [exact Hpcm|].
  destruct (Decode.decodeAudioData_returns (binaryString_of (Int16Array_buffer pcm)) w) as [E _].
  - intros E. rewrite E in Hlen. destruct inputData; [contradiction|discriminate].
  - rewrite Hlen. replace (2 * List.length inputData)%nat with (List.length inputData * 2)%nat by lia.
    rewrite Nat.even_mul, orb_true_r. reflexivity.
  - rewrite E, Hb, Hlen, (int16_view_buffer pcm Hpcm). unfold pcm. rewrite map_map.
    do 2 f_equal. rewrite Nat2Z.inj_mul. change (Z.of_nat 2) with 2.
    rewrite Z.mul_comm, Z.div_mul by lia. reflexivity.
Qed.

(** X8, witness: the samples 0.5 and -0.25 *)
Lemma capture_payload_decodes_two_samples :
  exists binary,
    atob (realtimeInputData [decimal 5 (-1); decimal (-25) (-2)]) = Some binary /\
    String.length binary = (2 * List.length [decimal 5 (-1); decimal (-25) (-2)])%nat /\
    int16_view (base64ToUint8Array binary) = map encodeSample [decimal 5 (-1); decimal (-25) (-2)] /\
    Forall is_int16 (map encodeSample [decimal 5 (-1); decimal (-25) (-2)]) /\
    decodeAudioData (base64ToUint8Array binary) 24000 1 activeWorld =
      Returned {| numberOfChannels := 1;
                  frameCount := Z.of_nat (List.length [decimal 5 (-1); decimal (-25) (-2)]);
                  sampleRate := 24000;
                  channelData := [map (fun x => decodeSample (encodeSample x))
                                      [decimal 5 (-1); decimal (-25) (-2)]] |} activeWorld.
Proof.
  apply (capture_payload_decodes [decimal 5 (-1); decimal (-25) (-2)] activeWorld). discriminate.
Defined.

End Transport.

(** ** Starting, stopping and ending *)

Module Lifecycle.

Import Session.

(** what [stopAudio] does, effects included *)
Lemma stopAudio_trace (w : World) :
  stopAudio w =
  Returned tt {| app := idle (app w);
                 refs := released_refs (refs w);
                 trace := trace w ++ teardown_effects (refs w);
                 nodes := nodes w |}.
Proof.
  destruct w as [a [ac iac ss ms nst src] t n].
  unfold stopAudio, teardown_effects, released_refs, idle.
  destruct ms as [ms|], iac as [iac|], ac as [ac|], ss as [ss|];
    cbn -[forEach]; unfold bind at 1; rewrite forEach_emit; cbn;
    rewrite <- ?app_assoc; reflexivity.
Qed.

Lemma released_released_refs (r : Refs) : released (released_refs r).
Proof. repeat split. Qed.

(** X9: the three teardown paths -- the error notification, a press on
    the voice button while the session is live, and the [catch] of a failed
    start -- all return and do the same: every track of the held stream is
    stopped, the capture clock, the playback clock and the session are
    closed if held, every scheduled source is stopped, each exactly once and
    in this order; afterwards the four handles are null, nothing is
    scheduled and both flags are off, while the amount text, the mode and
    the results are untouched.  They differ only in what they log or
    alert. *)
Theorem teardown_paths (hasKey : bool) (inputCtx outputCtx : AudioContext)
    (currentTime : number) (w : World) :
  let torn_down (es : list Effect) :=
    {| app := idle (app w); refs := released_refs (refs w);
       trace := trace w ++ es; nodes := nodes w |} in
  onerror w =
    Returned tt (torn_down (Logged "Live session error" :: teardown_effects (refs w))) /\
  (isLiveActive (app w) = true ->
   toggleLive hasKey inputCtx outputCtx currentTime w =
     Returned false (torn_down (teardown_effects (refs w)))) /\
  toggleLive_catch w =
    Returned tt (torn_down (Logged "error" :: teardown_effects (refs w) ++
      [Alerted "Failed to start voice session. Make sure microphone permissions are allowed."])) /\
  released (released_refs (refs w)) /\
  isLiveActive (idle (app w)) = false /\
  isAiSpeaking (idle (app w)) = false /\
  mrpInput (idle (app w)) = mrpInput (app w) /\
  calculationMode (idle (app w)) = calculationMode (app w) /\
  results (idle (app w)) = results (app w).
Proof.
  intros torn_down. unfold torn_down.
  split; [|split; [|split; [|repeat split]]].
  - unfold onerror. unfold bind. cbn [emit]. rewrite stopAudio_trace.
    cbn [app refs trace nodes]. rewrite <- app_assoc. reflexivity.
  - intros Hlive. unfold toggleLive. unfold bind at 1. cbn [getApp]. rewrite Hlive.
    unfold bind. rewrite stopAudio_trace. reflexivity.
  - unfold toggleLive_catch. unfold bind. cbn [emit]. rewrite stopAudio_trace.
    unfold emit. cbn [app refs trace nodes]. rewrite <- !app_assoc. reflexivity.
Qed.

(** X10: a full cycle.  From an idle, released state a start that gets
    its microphone stream and its connection turns the live flag on and
    holds exactly the two clocks, the stream and the session it was given,
    with the next start time at the playback clock's reading and nothing
    scheduled.  From any later world in which the session is still live
    and these four are still held -- whatever has been logged, sent,
    computed or scheduled in the meantime -- the next press on the voice
    button (with or without API key) stops the tracks of that stream,
    closes those two clocks and that session and stops the sources
    scheduled by then, each once, in this order and nothing else; it
    leaves both flags off, the rest of the state as it was, all four
    handles null and nothing scheduled. *)
Theorem session_cycle (inputCtx outputCtx : AudioContext) (currentTime : number)
    (stream : MediaStream) (session : LiveSession)
    (hasKey : bool) (inputCtx' outputCtx' : AudioContext) (currentTime' : number) (w : World) :
  isLiveActive (app w) = false ->
  released (refs w) ->
  exists w1,
    startSession inputCtx outputCtx currentTime stream session w = Returned tt w1 /\
    app w1 = setIsLiveActive true (app w) /\
    refs w1 = {| audioContextRef := Some outputCtx; inputAudioContextRef := Some inputCtx;
                 sessionRef := Some session; mediaStreamRef := Some stream;
                 nextStartTimeRef := currentTime; sourcesRef := [] |} /\
    forall later : World,
      isLiveActive (app later) = true ->
      mediaStreamRef (refs later) = Some stream ->
      inputAudioContextRef (refs later) = Some inputCtx ->
      audioContextRef (refs later) = Some outputCtx ->
      sessionRef (refs later) = Some session ->
      exists w2,
        toggleLive hasKey inputCtx' outputCtx' currentTime' later = Returned false w2 /\
        released (refs w2) /\
        app w2 = idle (app later) /\
        trace w2 = trace later ++ map TrackStopped (getTracks stream) ++
                   [ContextClosed inputCtx; ContextClosed outputCtx; SessionClosed session] ++
                   map SourceStopped (sourcesRef (refs later)).
Proof.
  intros Hidle Hrel.
  destruct w as [a [ac iac ss ms nst src] t n]. unfold released in Hrel.
  cbn [refs app mediaStreamRef inputAudioContextRef audioContextRef sessionRef sourcesRef] in *.
  destruct Hrel as (-> & -> & -> & -> & ->).
  unfold startSession, toggleLive. unfold bind at 1. unfold bind at 1.
  cbn [getApp app]. rewrite Hidle. cbn [negb].
  eexists. split; [reflexivity|]. cbn [app refs trace].
  split; [reflexivity|]. split; [reflexivity|].
  intros later Hlive Hms Hiac Hac Hss.
  unfold bind at 1. cbn [getApp]. rewrite Hlive.
  unfold bind. rewrite stopAudio_trace.
  eexists. split; [reflexivity|]. cbn [app refs trace nodes].
  split; [repeat split|]. split; [reflexivity|].
  unfold teardown_effects. rewrite Hms, Hiac, Hac, Hss.
  cbn [List.app]. reflexivity.
Qed.

(** X10, witness: a first session on the initial world *)
Lemma session_cycle_initial :
  exists w1,
    startSession 1%nat 2%nat (decimal 5 (-1)) {| getTracks := [3%nat] |} 7%nat initialWorld
      = Returned tt w1 /\
    app w1 = setIsLiveActive true (app initialWorld) /\
    refs w1 = {| audioContextRef := Some 2%nat; inputAudioContextRef := Some 1%nat;
                 sessionRef := Some 7%nat; mediaStreamRef := Some {| getTracks := [3%nat] |};
                 nextStartTimeRef := decimal 5 (-1); sourcesRef := [] |} /\
    forall later : World,
      isLiveActive (app later) = true ->
      mediaStreamRef (refs later) = Some {| getTracks := [3%nat] |} ->
      inputAudioContextRef (refs later) = Some 1%nat ->
      audioContextRef (refs later) = Some 2%nat ->
      sessionRef (refs later) = Some 7%nat ->
      exists w2,
        toggleLive true 4%nat 5%nat n_0 later = Returned false w2 /\
        released (refs w2) /\
        app w2 = idle (app later) /\
        trace w2 = trace later ++ map TrackStopped (getTracks {| getTracks := [3%nat] |}) ++
                   [ContextClosed 1%nat; ContextClosed 2%nat; SessionClosed 7%nat] ++
                   map SourceStopped (sourcesRef (refs later)).
Proof.
  apply (session_cycle 1%nat 2%nat (decimal 5 (-1)) {| getTracks := [3%nat] |} 7%nat
           true 4%nat 5%nat n_0 initialWorld).
  - reflexivity.
  - repeat split.
Defined.

(** X11: starts that fail.  Without an API key the button only alerts:
    state and refs stay as they were.  When the start fails before the
    microphone stream is there (permission denied), the two clocks it had
    already made are closed again, the failure is alerted and the state is
    idle and released; when it fails after the stream is there, the tracks
    of the stream are stopped as well. *)
Theorem failed_starts (inputCtx outputCtx : AudioContext) (currentTime : number)
    (stream : MediaStream) (w : World) :
  isLiveActive (app w) = false ->
  released (refs w) ->
  let failure := "Failed to start voice session. Make sure microphone permissions are allowed."%string in
  let after (es : list Effect) :=
    {| app := idle (app w);
       refs := released_refs (set_nextStartTimeRef currentTime (refs w));
       trace := trace w ++ es; nodes := nodes w |} in
  toggleLive false inputCtx outputCtx currentTime w =
    Returned false {| app := app w; refs := refs w;
                      trace := trace w ++ [Alerted "API Key is missing."];
                      nodes := nodes w |} /\
  (toggleLive true inputCtx outputCtx currentTime ;; toggleLive_catch) w =
    Returned tt (after [Logged "error"; ContextClosed inputCtx; ContextClosed outputCtx;
                        Alerted failure]) /\
  (toggleLive true inputCtx outputCtx currentTime ;;
   toggleLive_gotUserMedia stream ;; toggleLive_catch) w =
    Returned tt (after (Logged "error" :: map TrackStopped (getTracks stream) ++
                        [ContextClosed inputCtx; ContextClosed outputCtx; Alerted failure])).
Proof.
  intros Hidle Hrel failure after. unfold after, failure.
  destruct w as [a [ac iac ss ms nst src] t n]. unfold released in Hrel.
  cbn [refs app mediaStreamRef inputAudioContextRef audioContextRef sessionRef sourcesRef] in *.
  destruct Hrel as (-> & -> & -> & -> & ->).
  split; [|split].
  - unfold toggleLive. unfold bind at 1. cbn [getApp app]. rewrite Hidle. reflexivity.
  - unfold toggleLive. unfold bind at 1. unfold bind at 1. cbn [getApp app]. rewrite Hidle.
    cbn [negb]. unfold bind at 1. unfold bind at 1. unfold bind at 1. unfold bind at 1.
    cbn [setState setRefs ret app refs trace nodes].
    unfold toggleLive_catch. unfold bind. unfold emit at 1. rewrite stopAudio_trace.
    unfold emit. cbn [app refs trace nodes]. unfold teardown_effects.
    cbn [mediaStreamRef inputAudioContextRef audioContextRef sessionRef sourcesRef
         set_inputAudioContextRef set_audioContextRef set_nextStartTimeRef map List.app].
    rewrite <- !app_assoc. destruct a; reflexivity.
  - unfold toggleLive. unfold bind at 1. unfold bind at 1. cbn [getApp app]. rewrite Hidle.
    cbn [negb]. unfold bind at 1. unfold bind at 1. unfold bind at 1. unfold bind at 1.
    cbn [setState setRefs ret app refs trace nodes].
    unfold toggleLive_gotUserMedia. unfold bind at 1. cbn [setRefs app refs trace nodes].
    unfold toggleLive_catch. unfold bind. unfold emit at 1. rewrite stopAudio_trace.
    unfold emit. cbn [app refs trace nodes]. unfold teardown_effects.
    cbn [mediaStreamRef inputAudioContextRef audioContextRef sessionRef sourcesRef
         set_mediaStreamRef
         set_inputAudioContextRef set_audioContextRef set_nextStartTimeRef map List.app].
    rewrite <- !app_assoc. destruct a; reflexivity.
Qed.

(** X11, witness: failing starts on the initial world *)
Lemma failed_starts_initial :
  let failure := "Failed to start voice session. Make sure microphone permissions are allowed."%string in
  let after (es : list Effect) :=
    {| app := idle (app initialWorld);
       refs := released_refs (set_nextStartTimeRef (decimal 5 (-1)) (refs initialWorld));
       trace := trace initialWorld ++ es; nodes := nodes initialWorld |} in
  toggleLive false 1%nat 2%nat (decimal 5 (-1)) initialWorld =
    Returned false {| app := app initialWorld; refs := refs initialWorld;
                      trace := trace initialWorld ++ [Alerted "API Key is missing."];
                      nodes := nodes initialWorld |} /\
  (toggleLive true 1%nat 2%nat (decimal 5 (-1)) ;; toggleLive_catch) initialWorld =
    Returned tt (after [Logged "error"; ContextClosed 1%nat; ContextClosed 2%nat;
                        Alerted failure]) /\
  (toggleLive true 1%nat 2%nat (decimal 5 (-1)) ;;
   toggleLive_gotUserMedia {| getTracks := [3%nat] |} ;; toggleLive_catch) initialWorld =
    Returned tt (after (Logged "error" :: map TrackStopped (getTracks {| getTracks := [3%nat] |}) ++
                        [ContextClosed 1%nat; ContextClosed 2%nat; Alerted failure])).
Proof.
  apply (failed_starts 1%nat 2%nat (decimal 5 (-1)) {| getTracks := [3%nat] |} initialWorld).
  - reflexivity.
  - repeat split.
Defined.

(** X12: after a close notification the voice button starts anew.  The
    close only turns the live flag off, so the next press takes the start
    branch: the two clock refs are overwritten with the new clocks, while
    the stream, the session and the scheduled sources of the closed session
    are still in their refs, and nothing has been stopped or closed -- the
    only effect is the log line of the close. *)
Theorem restart_after_close (inputCtx outputCtx : AudioContext) (currentTime : number)
    (w : World) :
  exists w',
    (onclose ;; toggleLive true inputCtx outputCtx currentTime) w = Returned true w' /\
    isLiveActive (app w') = true /\
    inputAudioContextRef (refs w') = Some inputCtx /\
    audioContextRef (refs w') = Some outputCtx /\
    nextStartTimeRef (refs w') = currentTime /\
    mediaStreamRef (refs w') = mediaStreamRef (refs w) /\
    sessionRef (refs w') = sessionRef (refs w) /\
    sourcesRef (refs w') = sourcesRef (refs w) /\
    trace w' = trace w ++ [Logged "Live session closed"].
Proof.
  eexists. split; [reflexivity|]. repeat split.
Qed.

Lemma onended_step (source : AudioBufferSourceNode) (w : World) :
  let remaining := filter (fun s => negb (Nat.eqb s source)) (sourcesRef (refs w)) in
  onended source w =
  Returned tt {| app := match remaining with
                        | [] => setIsAiSpeaking false (app w)
                        | _ => app w
                        end;
                 refs := set_sourcesRef remaining (refs w);
                 trace := trace w; nodes := nodes w |}.
Proof.
  cbv zeta. unfold onended. unfold bind, getRefs, setRefs. cbn [refs sourcesRef set_sourcesRef].
  destruct (filter (fun s => negb (Nat.eqb s source)) (sourcesRef (refs w))); reflexivity.
Qed.

(** X13: the speaking flag follows the scheduled sources.  Once every
    scheduled source has ended, in whatever order (and whatever else ends),
    nothing is scheduled and the flag is off; the end of one source while
    another is still scheduled removes just that source and leaves the
    state, the flag included, as it was. *)
Theorem sources_ended :
  (forall (order : list AudioBufferSourceNode) (w : World),
      order <> [] -> incl (sourcesRef (refs w)) order ->
      forEach order onended w =
      Returned tt {| app := setIsAiSpeaking false (app w);
                     refs := set_sourcesRef [] (refs w);
                     trace := trace w; nodes := nodes w |}) /\
  (forall (source other : AudioBufferSourceNode) (w : World),
      In other (sourcesRef (refs w)) -> other <> source ->
      exists w',
        onended source w = Returned tt w' /\
        app w' = app w /\
        In other (sourcesRef (refs w')) /\
        ~ In source (sourcesRef (refs w')) /\
        incl (sourcesRef (refs w')) (sourcesRef (refs w))).
Proof.
  split.
  - induction order as [|s rest IH]; intros w Hne Hincl; [contradiction|].
    cbn [forEach]. unfold bind at 1. rewrite onended_step. cbv zeta.
    set (remaining := filter (fun x => negb (Nat.eqb x s)) (sourcesRef (refs w))).
    assert (Hrem : incl remaining rest).
    { intros x Hx. unfold remaining in Hx. apply filter_In in Hx. destruct Hx as [Hx Hs].
      apply negb_true_iff, Nat.eqb_neq in Hs.
      destruct (Hincl x Hx) as [E|I]; [congruence|exact I]. }
    destruct rest as [|s' rest'].
    + assert (E : remaining = []).
      { destruct remaining as [|x r]; trivial. destruct (Hrem x (or_introl eq_refl)). }
      rewrite E. reflexivity.
    + rewrite IH; [|discriminate|cbn [refs sourcesRef set_sourcesRef]; exact Hrem].
      cbn [app refs trace nodes]. destruct remaining; destruct (app w), (refs w); reflexivity.
  - intros source other w Hin Hneq. rewrite onended_step. cbv zeta.
    set (remaining := filter (fun x => negb (Nat.eqb x source)) (sourcesRef (refs w))).
    assert (Hother : In other remaining).
    { apply filter_In. split; [exact Hin|]. apply negb_true_iff, Nat.eqb_neq. exact Hneq. }
    eexists. split; [reflexivity|]. cbn [app refs sourcesRef set_sourcesRef].
    split; [destruct remaining; [destruct Hother|reflexivity]|].
    split; [exact Hother|]. split.
    + unfold remaining. intros H. apply filter_In in H. destruct H as [_ H].
      rewrite Nat.eqb_refl in H. discriminate.
    + intros x Hx. unfold remaining in Hx. apply filter_In in Hx. apply Hx.
Qed.

End Lifecycle.

(** ** The amount text *)

Module Input.

Local Open Scope string_scope.

Lemma span_digits_app (a r : string) :
  all_digits a = true -> no_leading_digit r = true -> span_digits (a ++ r) = (a, r).
Proof.
  intros Ha Hr. induction a as [|c a IH].
  - destruct r as [|c r]; [reflexivity|]. cbn [append span_digits].
    cbn [no_leading_digit] in Hr. apply negb_true_iff in Hr. rewrite Hr. reflexivity.
  - cbn [all_digits] in Ha. apply andb_prop in Ha. destruct Ha as [Hc Ha].
    cbn [append span_digits]. rewrite Hc, (IH Ha). reflexivity.
Qed.

Lemma span_digits_spec (s : string) :
  s = fst (span_digits s) ++ snd (span_digits s) /\
  all_digits (fst (span_digits s)) = true /\
  no_leading_digit (snd (span_digits s)) = true.
Proof.
  induction s as [|c s (IH1 & IH2 & IH3)]; [repeat split|].
  cbn [span_digits]. destruct (is_digit c) eqn:Hc.
  - destruct (span_digits s) as [d t]. cbn [fst snd append all_digits] in *.
    rewrite Hc, IH2. repeat split; [congruence|exact IH3].
  - cbn [fst snd append all_digits no_leading_digit]. rewrite Hc. repeat split.
Qed.

Lemma append_empty_r (s : string) : s ++ "" = s.
Proof. induction s as [|c s IH]; [reflexivity|]. cbn [append]. rewrite IH. reflexivity. Qed.

Lemma all_digits_app (a b : string) :
  all_digits (a ++ b) = all_digits a && all_digits b.
Proof.
  induction a as [|c a IH]; [reflexivity|]. cbn [append all_digits].
  rewrite IH, andb_assoc. reflexivity.
Qed.

(** a text that matches is digits, or digits, a dot and digits *)
Lemma decimal_pattern_shape (s : string) :
  decimal_pattern s = true ->
  exists a b, all_digits a = true /\ all_digits b = true /\
              (s = a ++ b \/ s = a ++ "." ++ b).
Proof.
  unfold decimal_pattern. intros H.
  destruct (span_digits_spec s) as (E & Ha & Hr).
  destruct (span_digits s) as [a r]. cbn [fst snd] in *.
  assert (G : forall t, snd (span_digits t) = "" -> all_digits t = true).
  { intros t Ht. destruct (span_digits_spec t) as (Et & Hta & _).
    rewrite Ht, append_empty_r in Et. rewrite Et. exact Hta. }
  assert (D : forall t, match snd (span_digits t) with "" => true | _ => false end = true ->
                        snd (span_digits t) = "").
  { intros t Ht. destruct (snd (span_digits t)); [reflexivity|discriminate]. }
  destruct r as [|c r'].
  - exists a, "". rewrite append_empty_r in E. repeat split; trivial. left.
    rewrite append_empty_r. exact E.
  - destruct (Ascii.eqb_spec c ".") as [->|Hc].
    + exists a, r'. split; [exact Ha|]. split; [apply G, D, H|]. right. exact E.
    + assert (H' : match snd (span_digits (String c r')) with "" => true | _ => false end = true).
      { destruct c as [[] [] [] [] [] [] [] []]; try exact H. contradiction Hc. reflexivity. }
      apply D in H'. cbn [span_digits] in H'. cbn [no_leading_digit] in Hr.
      apply negb_true_iff in Hr. rewrite Hr in H'. discriminate.
Qed.

(** and every such text matches *)
Lemma decimal_pattern_accepts (a b : string) :
  all_digits a = true -> all_digits b = true ->
  decimal_pattern (a ++ b) = true /\ decimal_pattern (a ++ "." ++ b) = true.
Proof.
  intros Ha Hb. unfold decimal_pattern. split.
  - rewrite <- (append_empty_r (a ++ b)).
    rewrite span_digits_app; [reflexivity| |reflexivity].
    rewrite all_digits_app, Ha, Hb. reflexivity.
  - rewrite span_digits_app; [|exact Ha|reflexivity]. cbn [snd append].
    rewrite <- (append_empty_r b). rewrite span_digits_app; [reflexivity|exact Hb|reflexivity].
Qed.

(** X16: the texts the input handler commits.  The pattern
    [/^\d*\.?\d*$/] matches exactly the texts made of digits, or of
    digits, one dot and digits (either run of digits may be empty); the
    handler stores such a text as the amount text and leaves the state
    untouched for every other text. *)
Theorem decimal_pattern_spec (s : string) (st : AppState) :
  (decimal_pattern s = true <->
   exists a b, all_digits a = true /\ all_digits b = true /\
               (s = a ++ b \/ s = a ++ "." ++ b)) /\
  (decimal_pattern s = true -> handleInputChange s st = setMrpInput s st) /\
  (decimal_pattern s = false -> handleInputChange s st = st).
Proof.
  split; [split|split].
  - apply decimal_pattern_shape.
  - intros (a & b & Ha & Hb & [->| ->]); apply (decimal_pattern_accepts a b Ha Hb).
  - intros H. unfold handleInputChange. rewrite H, orb_true_r. reflexivity.
  - intros H. unfold handleInputChange. rewrite H.
    destruct (String.eqb_spec s "") as [->|_]; [discriminate H|reflexivity].
Qed.

(** a text that starts with a digit or a dot has no white space, sign or
    "Infinity" to skip: [parseFloat] goes straight to the digits *)
Lemma parseFloat_unsigned (c : ascii) (r : string) :
  is_digit c || Ascii.eqb c "." = true ->
  parseFloat (String c r) =
  let '(ip, r1) := span_digits (String c r) in
  let '(fp, r2) :=
    match r1 with
    | String "." r => span_digits r
    | _ => (EmptyString, r1)
    end in
  match ip ++ fp with
  | EmptyString => NaN
  | ds => decimal (digits_value 0 ds) (parse_exponent r2 - Z.of_nat (String.length fp))
  end.
Proof.
  intros H. destruct c as [[] [] [] [] [] [] [] []]; try discriminate H; reflexivity.
Qed.

Lemma round_aux_not_negative (m e : Z) (l : location) :
  is_negative (binary_round_aux prec emax false m e l) = false.
Proof.
  unfold binary_round_aux.
  destruct (shr_fexp prec emax m e l) as [mrs e'].
  destruct (shr_fexp prec emax _ e' loc_Exact) as [mrs' e''].
  destruct (shr_m mrs'); try reflexivity.
  destruct (e'' <=? emax - prec)%Z; reflexivity.
Qed.

Lemma decimal_not_negative (m p : Z) : (0 <= m)%Z -> is_negative (decimal m p) = false.
Proof.
  intros Hm. unfold decimal. destruct p as [|k|k].
  - unfold of_Z, binary_normalize. destruct (m * 10 ^ 0)%Z eqn:E; try reflexivity; [|lia].
    unfold binary_round. destruct (shl_align p 0 _). apply round_aux_not_negative.
  - unfold of_Z, binary_normalize.
    assert (0 <= m * 10 ^ Z.pos k)%Z by (apply Z.mul_nonneg_nonneg; [lia|apply Z.pow_nonneg; lia]).
    destruct (m * 10 ^ Z.pos k)%Z eqn:E; try reflexivity; [|lia].
    unfold binary_round. destruct (shl_align p 0 _). apply round_aux_not_negative.
  - destruct m as [|a|a]; [reflexivity| |lia].
    unfold div. cbn [SFdiv xorb].
    destruct (SFdiv_core_binary prec emax (Z.pos a) 0 (Z.pos (10 ^ k)) 0) as [[mz ez] lz].
    apply round_aux_not_negative.
Qed.

Lemma digits_value_nonneg (s : string) (acc : Z) :
  all_digits s = true -> (0 <= acc)%Z -> (0 <= digits_value acc s)%Z.
Proof.
  revert acc. induction s as [|c s IH]; intros acc Hs Hacc; [exact Hacc|].
  cbn [all_digits] in Hs. apply andb_prop in Hs. destruct Hs as [Hc Hs].
  cbn [digits_value]. apply IH; [exact Hs|].
  unfold is_digit in Hc. cbv zeta in Hc. apply andb_prop in Hc. destruct Hc as [Hc _].
  apply Nat.leb_le in Hc. unfold digit_value. lia.
Qed.

Lemma parseFloat_digits (a : string) :
  all_digits a = true ->
  parseFloat a = match a with "" => NaN | _ => decimal (digits_value 0 a) 0 end.
Proof.
  intros Ha. destruct a as [|c a']; [reflexivity|].
  assert (Hc : is_digit c || Ascii.eqb c "." = true).
  { cbn [all_digits] in Ha. apply andb_prop in Ha. rewrite (proj1 Ha). reflexivity. }
  rewrite (parseFloat_unsigned c a' Hc).
  rewrite <- (append_empty_r (String c a')) at 1.
  rewrite span_digits_app; [|exact Ha|reflexivity].
  rewrite append_empty_r. reflexivity.
Qed.

Lemma parseFloat_digits_dot (a b : string) :
  all_digits a = true -> all_digits b = true ->
  parseFloat (a ++ "." ++ b) =
  match a ++ b with
  | "" => NaN
  | _ => decimal (digits_value 0 (a ++ b)) (- Z.of_nat (String.length b))
  end.
Proof.
  intros Ha Hb.
  assert (Hs : exists c r, a ++ "." ++ b = String c r /\ is_digit c || Ascii.eqb c "." = true).
  { destruct a as [|c a'].
    - exists "."%char, b. split; reflexivity.
    - exists c, (a' ++ "." ++ b). split; [reflexivity|].
      cbn [all_digits] in Ha. apply andb_prop in Ha. rewrite (proj1 Ha). reflexivity. }
  destruct Hs as (c & r & E & Hc). rewrite E, (parseFloat_unsigned c r Hc), <- E.
  rewrite span_digits_app; [|exact Ha|reflexivity].
  cbn [append]. rewrite <- (append_empty_r b) at 1.
  rewrite span_digits_app; [|exact Hb|reflexivity].
  cbn [parse_exponent]. destruct (a ++ b); reflexivity.
Qed.

(** X17: what a committed text is worth.  For a text of digits
    [parseFloat] is the number nearest to the integer the digits spell, and
    for digits, a dot and digits the number nearest to that decimal; without
    any digit it is NaN.  Such a text is stored by the input handler and
    never parses to a negative number.  For the empty text and for a lone
    dot the recalculation shows no results. *)
Theorem manual_input_amount (a b : string) (st : AppState) :
  all_digits a = true -> all_digits b = true ->
  (parseFloat a = match a with "" => NaN | _ => decimal (digits_value 0 a) 0 end /\
   parseFloat (a ++ "." ++ b) =
     match a ++ b with
     | "" => NaN
     | _ => decimal (digits_value 0 (a ++ b)) (- Z.of_nat (String.length b))
     end) /\
  (is_negative (parseFloat a) = false /\
   is_negative (parseFloat (a ++ "." ++ b)) = false) /\
  (handleInputChange a st = setMrpInput a st /\
   handleInputChange (a ++ "." ++ b) st = setMrpInput (a ++ "." ++ b) st) /\
  (results (recalculate (handleInputChange "" st)) = None /\
   results (recalculate (handleInputChange "." st)) = None).
Proof.
  intros Ha Hb.
  pose proof (parseFloat_digits a Ha) as E1.
  pose proof (parseFloat_digits_dot a b Ha Hb) as E2.
  assert (Hab : all_digits (a ++ b) = true) by (rewrite all_digits_app, Ha, Hb; reflexivity).
  split; [split; assumption|]. split; [|split; [|split; reflexivity]].
  - rewrite E1, E2. split.
    + destruct a; [reflexivity|]. apply decimal_not_negative, digits_value_nonneg; [exact Ha|lia].
    + assert (N : (0 <= digits_value 0 (a ++ b))%Z)
        by (apply digits_value_nonneg; [exact Hab|lia]).
      destruct (a ++ b); [reflexivity|]. apply decimal_not_negative, N.
  - unfold handleInputChange.
    assert (P1 : decimal_pattern a = true).
    { rewrite <- (append_empty_r a). apply (decimal_pattern_accepts a "" Ha eq_refl). }
    assert (P2 : decimal_pattern (a ++ "." ++ b) = true)
      by apply (decimal_pattern_accepts a b Ha Hb).
    rewrite P1, P2, !orb_true_r. split; reflexivity.
Qed.

(** X17, witness: the texts 12 and 12.50 *)
Lemma manual_input_amount_12_5 :
  (parseFloat "12" = match "12" with "" => NaN | _ => decimal (digits_value 0 "12") 0 end /\
   parseFloat ("12" ++ "." ++ "50") =
     match "12" ++ "50" with
     | "" => NaN
     | _ => decimal (digits_value 0 ("12" ++ "50")) (- Z.of_nat (String.length "50"))
     end) /\
  (is_negative (parseFloat "12") = false /\
   is_negative (parseFloat ("12" ++ "." ++ "50")) = false) /\
  (handleInputChange "12" initialState = setMrpInput "12" initialState /\
   handleInputChange ("12" ++ "." ++ "50") initialState
     = setMrpInput ("12" ++ "." ++ "50") initialState) /\
  (results (recalculate (handleInputChange "" initialState)) = None /\
   results (recalculate (handleInputChange "." initialState)) = None).
Proof.
  apply (manual_input_amount "12" "50" initialState); reflexivity.
Defined.

End Input.

(** ** Rounding to nearest: what a decimal literal is worth *)

Module Nearest.

Import Binary64 Clock Exact.

Lemma rne_nearest_even (mrs : shr_record) (N D : Z) :
  0 <= N -> 0 < D -> represents mrs N D ->
  nearest_even N D (round_nearest_even (shr_m mrs) (loc_of_shr_record mrs)).
Proof.
  intros HN HD (Hm & Hr & Hs). destruct mrs as [m r s].
  cbn [shr_m shr_r shr_s] in Hm, Hr, Hs. cbn [shr_m].
  pose proof (Z.div_mod N D ltac:(lia)) as E.
  pose proof (Z.mod_pos_bound N D HD) as Hb.
  set (x := N mod D) in *. set (q := N / D) in *. clearbody x q. subst m.
  assert (Hr' : r = true <-> D <= 2 * x) by (rewrite Hr; apply Z.leb_le).
  assert (Hs' : s = false <-> (x = 0 \/ 2 * x = D)).
  { rewrite Hs. destruct (Z.eqb_spec x 0), (Z.eqb_spec (2 * x) D); cbn; intuition lia. }
  clear Hr Hs. unfold nearest_even.
  destruct r, s; cbn [loc_of_shr_record round_nearest_even].
  - assert (D <= 2 * x) by (apply Hr'; reflexivity).
    assert (~ (x = 0 \/ 2 * x = D)) by (intros H'; apply Hs' in H'; discriminate).
    split; [nia|]. intros T. exfalso. nia.
  - assert (D <= 2 * x) by (apply Hr'; reflexivity).
    assert (x = 0 \/ 2 * x = D) by (apply Hs'; reflexivity).
    destruct (Z.even q) eqn:Ev.
    + split; [nia|]. intros _. exact Ev.
    + split; [nia|]. intros _. rewrite Z.even_add, Ev. reflexivity.
  - assert (~ D <= 2 * x) by (intros H; apply Hr' in H; discriminate).
    split; [nia|]. intros T. exfalso. nia.
  - assert (~ D <= 2 * x) by (intros H; apply Hr' in H; discriminate).
    assert (x = 0 \/ 2 * x = D) by (apply Hs'; reflexivity).
    split; [nia|]. intros T. exfalso. nia.
Qed.

Lemma Zdigits2_bounds (m : Z) :
  0 < m -> 1 <= Zdigits2 m /\ 2 ^ (Zdigits2 m - 1) <= m < 2 ^ Zdigits2 m.
Proof.
  intros H. destruct m as [|p|p]; try lia. cbn [Zdigits2].
  split; [lia|apply digits2_pos_bounds].
Qed.

(** what [binary_round_aux] returns for the quotient [N / D] at exponent
    [e]: the nearest integer [R] at the exponent [e1] of its size, as a
    number *)
Lemma binary_round_aux_nearest (sx : bool) (mx e : Z) (lx : location) (N D : Z) :
  0 < D -> 0 <= N -> represents (shr_record_of_loc mx lx) N D ->
  let e1 := fexp prec emax (Zdigits2 mx + e) in
  e <= e1 ->
  exists R : Z,
    nearest_even N (D * 2 ^ (e1 - e)) R /\
    rounded sx R e1 (binary_round_aux prec emax sx mx e lx).
Proof.
  intros HD HN Hrep e1 Hk.
  assert (Hmx : mx = N / D).
  { destruct Hrep as (Hm & _). destruct lx as [|[]]; exact Hm. }
  assert (Hmx0 : 0 <= mx) by (subst mx; apply Z.div_pos; lia).
  set (k := e1 - e) in *.
  assert (Hk0 : 0 <= k) by (unfold k; lia).
  assert (H2k : 0 < 2 ^ k) by (apply Z.pow_pos_nonneg; lia).
  destruct (shr_represents (shr_record_of_loc mx lx) e k N D) as [Hrep1 He1]; try lia; trivial.
  unfold binary_round_aux.
  change (shr_fexp prec emax mx e lx) with (shr (shr_record_of_loc mx lx) e k).
  destruct (shr (shr_record_of_loc mx lx) e k) as [mrs' e'] eqn:Eshr.
  cbn [fst snd] in Hrep1, He1.
  assert (Ee : e' = e1) by (rewrite He1; unfold k; lia). clear He1. subst e'.
  assert (HDk : 0 < D * 2 ^ k) by (apply Z.mul_pos_pos; lia).
  destruct (rne_represents mrs' N (D * 2 ^ k)) as [HR1 HR2]; try lia; trivial.
  pose proof (rne_nearest_even mrs' N (D * 2 ^ k) HN HDk Hrep1) as HNE.
  set (R := round_nearest_even (shr_m mrs') (loc_of_shr_record mrs')) in *.
  exists R. split; [exact HNE|]. clear HNE.
  assert (Hm1 : N / (D * 2 ^ k) = mx / 2 ^ k).
  { rewrite Hmx. rewrite Z.div_div by lia. reflexivity. }
  rewrite Hm1 in HR1.
  assert (He1 : e1 = Z.max (Zdigits2 mx + e - 53) (-1074)) by (unfold e1; apply fexp_eq).
  destruct (Z.eq_dec mx 0) as [Hz|Hnz].
  - (* the quotient is below one: only at the least exponent *)
    rewrite Hz in *. cbn [Zdigits2] in He1. rewrite Z.div_0_l in HR1 by lia.
    assert (He1' : e1 = -1074) by lia.
    assert (HR : R = 0 \/ R = 1) by lia.
    destruct HR as [HR|HR]; rewrite HR.
    + left. split; trivial.
      rewrite shr_fexp_exact_0 by (cbn [Zdigits2]; rewrite fexp_eq; lia). reflexivity.
    + right; left. exists 1%positive, e1.
      rewrite shr_fexp_exact_0 by (cbn [Zdigits2 digits2_pos]; rewrite fexp_eq; lia).
      cbn [shr_m]. destruct (Z.leb_spec e1 (emax - prec)) as [Hfin|Hinf].
      * split; [reflexivity|]. split; [|split; [lia|]].
        -- rewrite He1'. reflexivity.
        -- rewrite Z.sub_diag. reflexivity.
      * unfold emax, prec in Hinf. lia.
  - destruct (Zdigits2_bounds mx ltac:(lia)) as (Hd & Hdl & Hdu).
    set (d := Zdigits2 mx) in *.
    destruct (Z_le_gt_dec (-1074) (d + e - 53)) as [Hnorm|Hsub].
    + (* normal range: the shifted mantissa has exactly 53 digits *)
      assert (Hkd : k = d - 53) by (unfold k; lia).
      assert (P1 : 2 ^ (d - 1) = 2 ^ 52 * 2 ^ k).
      { rewrite <- Z.pow_add_r by lia. f_equal. lia. }
      assert (P2 : 2 ^ d = 2 ^ 53 * 2 ^ k).
      { rewrite <- Z.pow_add_r by lia. f_equal. lia. }
      assert (Hlo : 2 ^ 52 <= mx / 2 ^ k).
      { apply Z.div_le_lower_bound; lia. }
      assert (Hhi : mx / 2 ^ k < 2 ^ 53).
      { apply Z.div_lt_upper_bound; lia. }
      destruct (Z_lt_le_dec R (2 ^ 53)) as [Hno|Hcarry].
      * assert (HdR : Zdigits2 R = 53) by (apply Zdigits2_unique; lia).
        rewrite shr_fexp_exact_0 by (rewrite HdR, fexp_eq; lia).
        cbn [shr_m]. destruct R as [|pr|pr]; try lia.
        destruct (Z.leb_spec e1 (emax - prec)) as [Hfin|Hinf].
        -- right; left. exists pr, e1. cbn [Zdigits2] in HdR.
           split; [reflexivity|]. split; [|split; [lia|]].
           ++ unfold bounded, canonical_mantissa. rewrite HdR, fexp_eq.
              apply andb_true_intro; split; [apply Z.eqb_eq; lia | apply Z.leb_le; exact Hfin].
           ++ rewrite Z.sub_diag. lia.
        -- right; right. split; [reflexivity|]. unfold emax, prec in Hinf.
           split; [lia|].
           assert (2 ^ 1 <= 2 ^ (e1 - 971)) by (apply Z.pow_le_mono_r; lia).
           change (2 ^ 53) with (2 ^ 52 * 2 ^ 1). apply Z.mul_le_mono_nonneg; lia.
      * assert (HR : R = 2 ^ 53) by lia.
        assert (HdR : Zdigits2 R = 54) by (rewrite HR; reflexivity).
        unfold shr_fexp. rewrite HdR, fexp_eq.
        replace (Z.max (54 + e1 - 53) (-1074) - e1) with 1 by lia.
        rewrite HR. cbn [shr_record_of_loc shr iter_pos shr_1 shr_m].
        change (Z.pow_pos 2 53) with (2 ^ 53). cbn.
        destruct (Z.leb_spec (e1 + 1) 971) as [Hfin|Hinf].
        -- right; left. eexists _, (e1 + 1). split; [reflexivity|]. split; [|split; [lia|]].
           ++ unfold bounded, canonical_mantissa.
              change (Z.pos (digits2_pos 4503599627370496)) with 53. rewrite fexp_eq.
              apply andb_true_intro; split; [apply Z.eqb_eq; lia | apply Z.leb_le; exact Hfin].
           ++ replace (e1 + 1 - e1) with 1 by lia. reflexivity.
        -- right; right. split; [reflexivity|]. split; [lia|].
           assert (2 ^ 0 <= 2 ^ (e1 - 971)) by (apply Z.pow_le_mono_r; lia).
           change (2 ^ 0) with 1 in *. change (Z.pow_pos 2 53) with (2 ^ 53). nia.
    + (* subnormal range: the exponent is emin and there is no carry out *)
      assert (He1' : e1 = -1074) by lia.
      assert (HRhi : R <= 2 ^ 52).
      { destruct (Z_le_gt_dec d k) as [Hs1|Hs2].
        - assert (2 ^ d <= 2 ^ k) by (apply Z.pow_le_mono_r; lia).
          assert (mx / 2 ^ k = 0) by (apply Z.div_small; lia). lia.
        - assert (P : 2 ^ d = 2 ^ (d - k) * 2 ^ k).
          { rewrite <- Z.pow_add_r by lia. f_equal. lia. }
          assert (mx / 2 ^ k < 2 ^ (d - k)) by (apply Z.div_lt_upper_bound; lia).
          assert (2 ^ (d - k) <= 2 ^ 52) by (apply Z.pow_le_mono_r; unfold k; lia).
          lia. }
      assert (HR0 : 0 <= R).
      { assert (0 <= mx / 2 ^ k) by (apply Z.div_pos; lia). lia. }
      destruct R as [|pr|pr] eqn:ER; try lia.
      * left. split; trivial.
        rewrite shr_fexp_exact_0 by (cbn [Zdigits2]; rewrite fexp_eq; lia). reflexivity.
      * pose proof (digits2_pos_bounds pr) as [Hrl Hru].
        assert (HdR : Z.pos (digits2_pos pr) <= 53).
        { destruct (Z_le_gt_dec (Z.pos (digits2_pos pr)) 53) as [|G]; trivial.
          assert (2 ^ 53 <= 2 ^ (Z.pos (digits2_pos pr) - 1)) by (apply Z.pow_le_mono_r; lia).
          lia. }
        rewrite shr_fexp_exact_0 by (cbn [Zdigits2]; rewrite fexp_eq; lia).
        cbn [shr_m]. destruct (Z.leb_spec e1 (emax - prec)) as [Hfin|Hinf].
        -- right; left. exists pr, e1. split; [reflexivity|]. split; [|split; [lia|]].
           ++ unfold bounded, canonical_mantissa. rewrite fexp_eq.
              apply andb_true_intro; split; [apply Z.eqb_eq; lia | apply Z.leb_le; exact Hfin].
           ++ rewrite Z.sub_diag. lia.
        -- unfold emax, prec in Hinf. lia.
Qed.

Lemma pow2_le (a b : Z) : a <= b -> (2 ^ a <= 2 ^ b)%Q.
Proof. intros H. apply Qpower_le_compat_l; [exact H|discriminate]. Qed.

Lemma pow2_lt (a b : Z) : a < b -> (2 ^ a < 2 ^ b)%Q.
Proof. intros H. apply Qpower_lt_compat_l; [exact H|reflexivity]. Qed.

Lemma pow2_lt_inv (a b : Z) : (2 ^ a < 2 ^ b)%Q -> a < b.
Proof. intros H. apply (Qpower_lt_compat_l_inv 2); [exact H|reflexivity]. Qed.

Lemma exponent_of_unique (q : Q) (e1 e2 : Z) :
  exponent_of q e1 -> exponent_of q e2 -> e1 = e2.
Proof.
  intros [[E1 H1]|(E1 & L1 & U1)] [[E2 H2]|(E2 & L2 & U2)].
  - lia.
  - assert (H : (2 ^ (e2 + 52) < 2 ^ (-1021))%Q) by (eapply Qle_lt_trans; eassumption).
    apply pow2_lt_inv in H. lia.
  - assert (H : (2 ^ (e1 + 52) < 2 ^ (-1021))%Q) by (eapply Qle_lt_trans; eassumption).
    apply pow2_lt_inv in H. lia.
  - assert (A : (2 ^ (e1 + 52) < 2 ^ (e2 + 53))%Q) by (eapply Qle_lt_trans; eassumption).
    assert (B : (2 ^ (e2 + 52) < 2 ^ (e1 + 53))%Q) by (eapply Qle_lt_trans; eassumption).
    apply pow2_lt_inv in A. apply pow2_lt_inv in B. lia.
Qed.

Lemma nearest_multiple_unique (q u : Q) (R1 R2 : Z) :
  (0 < u)%Q -> nearest_multiple q u R1 -> nearest_multiple q u R2 -> R1 = R2.
Proof.
  assert (G : forall A B, (0 < u)%Q -> nearest_multiple q u A -> nearest_multiple q u B ->
                          A <= B).
  { intros A B Hu (A1 & A2 & A3) (B1 & B2 & B3).
    destruct (Z_le_gt_dec A B) as [|Hgt]; trivial. exfalso.
    assert (HA : (inject_Z B + 1 <= inject_Z A)%Q).
    { change 1%Q with (inject_Z 1). rewrite <- inject_Z_plus, <- Zle_Qle. lia. }
    assert (HAu : ((inject_Z B + 1) * u <= inject_Z A * u)%Q).
    { apply Qmult_le_compat_r; [exact HA|apply Qlt_le_weak; exact Hu]. }
    set (x := (inject_Z A * u)%Q) in *. set (y := (inject_Z B * u)%Q) in *.
    assert (HAu' : (y + u <= x)%Q).
    { eapply Qle_trans; [|exact HAu]. unfold y. ring_simplify. apply Qle_refl. }
    assert (Ex : (x == q + u * (1 # 2))%Q) by lra.
    assert (Ey : (y == q - u * (1 # 2))%Q) by lra.
    assert (EA : Z.even A = true) by (apply A3; right; exact Ex).
    assert (EB : Z.even B = true) by (apply B3; left; exact Ey).
    assert (HAB : A = B + 1).
    { assert (Hle : (inject_Z A * u <= (inject_Z B + 1) * u)%Q).
      { fold x. setoid_replace ((inject_Z B + 1) * u)%Q with (y + u)%Q by (unfold y; ring). lra. }
      apply Qmult_le_r in Hle; [|exact Hu].
      change 1%Q with (inject_Z 1) in Hle. rewrite <- inject_Z_plus, <- Zle_Qle in Hle. lia. }
    rewrite HAB, Z.even_add, EB in EA. discriminate. }
  intros Hu H1 H2. apply Z.le_antisymm; apply G; assumption.
Qed.

Lemma value_pos (m : positive) (e : Z) : (0 < value (S754_finite false m e))%Q.
Proof.
  cbn [value cond_Zopp]. apply Qmult_lt_0_compat; [|apply pow2_pos].
  rewrite <- (Zlt_Qlt 0). lia.
Qed.

(** a well-formed number is the only one of its value *)
Lemma canonical_unique (m1 m2 : positive) (e1 e2 : Z) :
  bounded prec emax m1 e1 = true -> bounded prec emax m2 e2 = true ->
  (value (S754_finite false m1 e1) == value (S754_finite false m2 e2))%Q ->
  m1 = m2 /\ e1 = e2.
Proof.
  assert (G : forall m1 m2 e1 e2,
             bounded prec emax m1 e1 = true -> bounded prec emax m2 e2 = true ->
             (value (S754_finite false m1 e1) == value (S754_finite false m2 e2))%Q ->
             e1 <= e2 -> m1 = m2 /\ e1 = e2).
  { clear. intros m1 m2 e1 e2 B1 B2 V Hle.
    apply bounded_inv in B1. apply bounded_inv in B2.
    destruct B1 as [C1 _]. destruct B2 as [C2 _].
    rewrite (value_rescale m2 e2 e1 Hle) in V.
    cbn [value cond_Zopp] in V.
    apply Qmult_inj_r in V; [|intros Z0; pose proof (pow2_pos e1) as P; rewrite Z0 in P;
                               apply Qlt_irrefl in P; exact P].
    apply (proj1 (inject_Z_injective _ _)) in V.
    pose proof (digits2_pos_bounds m1) as [L1 U1].
    pose proof (digits2_pos_bounds m2) as [L2 U2].
    destruct (Z.eq_dec e1 e2) as [E|NE].
    - subst e2. rewrite Z.sub_diag, Z.pow_0_r, Z.mul_1_r in V. split; [congruence|reflexivity].
    - exfalso.
      assert (D2 : Z.pos (digits2_pos m2) = 53) by lia.
      rewrite D2 in L2. change (2 ^ (53 - 1)) with (2 ^ 52) in L2.
      assert (2 ^ 1 <= 2 ^ (e2 - e1)) by (apply Z.pow_le_mono_r; lia).
      assert (H53 : 2 ^ 53 <= Z.pos m1).
      { rewrite V. change (2 ^ 53) with (2 ^ 52 * 2 ^ 1). apply Z.mul_le_mono_nonneg; lia. }
      assert (D1 : Z.pos (digits2_pos m1) <= 53) by lia.
      assert (2 ^ Z.pos (digits2_pos m1) <= 2 ^ 53) by (apply Z.pow_le_mono_r; lia).
      lia. }
  intros B1 B2 V. destruct (Z_le_gt_dec e1 e2) as [H|H].
  - apply G; assumption.
  - destruct (G m2 m1 e2 e1 B2 B1 (Qeq_sym _ _ V) ltac:(lia)) as [-> ->]. split; reflexivity.
Qed.

Lemma bounded_value_lt (m : positive) (e : Z) :
  bounded prec emax m e = true -> (value (S754_finite false m e) < 2 ^ 1024)%Q.
Proof.
  intros B. apply bounded_inv in B. destruct B as [C Hmax].
  eapply Qlt_le_trans; [apply value_lt_pow2|]. apply pow2_le. lia.
Qed.

Lemma stands_for_unique (R e1 : Z) (y1 y2 : number) :
  stands_for R e1 y1 -> stands_for R e1 y2 -> y1 = y2.
Proof.
  assert (ZF : forall m e, ~ (value (S754_finite false m e) == inject_Z 0 * 2 ^ e1)%Q).
  { intros m e H. pose proof (value_pos m e) as P. rewrite H in P.
    change (inject_Z 0) with 0%Q in P. rewrite Qmult_0_l in P. apply Qlt_irrefl in P. exact P. }
  assert (ZI : ~ (2 ^ 1024 <= inject_Z 0 * 2 ^ e1)%Q).
  { intros H. change (inject_Z 0) with 0%Q in H. rewrite Qmult_0_l in H.
    apply Qle_not_lt in H. apply H. apply pow2_pos. }
  assert (FI : forall m e, bounded prec emax m e = true ->
                           (value (S754_finite false m e) == inject_Z R * 2 ^ e1)%Q ->
                           ~ (2 ^ 1024 <= inject_Z R * 2 ^ e1)%Q).
  { intros m e B V H. rewrite <- V in H. apply Qle_not_lt in H. apply H.
    apply bounded_value_lt. exact B. }
  intros [[Z1 ->]|[(m1 & f1 & -> & B1 & V1)|[-> I1]]] [[Z2 ->]|[(m2 & f2 & -> & B2 & V2)|[-> I2]]].
  - reflexivity.
  - exfalso. subst R. apply (ZF _ _ V2).
  - exfalso. subst R. apply (ZI I2).
  - exfalso. subst R. apply (ZF _ _ V1).
  - rewrite <- V2 in V1. destruct (canonical_unique _ _ _ _ B1 B2 V1) as [-> ->]. reflexivity.
  - exfalso. apply (FI _ _ B1 V1 I2).
  - exfalso. subst R. apply (ZI I1).
  - exfalso. apply (FI _ _ B2 V2 I1).
  - reflexivity.
Qed.

Lemma rounds_unique (q : Q) (y1 y2 : number) : rounds q y1 -> rounds q y2 -> y1 = y2.
Proof.
  intros (e1 & R1 & X1 & N1 & S1) (e2 & R2 & X2 & N2 & S2).
  pose proof (exponent_of_unique q e1 e2 X1 X2) as E. subst e2.
  pose proof (nearest_multiple_unique q (2 ^ e1) R1 R2 (pow2_pos e1) N1 N2) as E. subst R2.
  exact (stands_for_unique R1 e1 y1 y2 S1 S2).
Qed.

Lemma rounds_compat (q q' : Q) (y : number) : (q == q')%Q -> rounds q y -> rounds q' y.
Proof.
  intros E (e1 & R & X & (N1 & N2 & N3) & S). exists e1, R. split; [|split; [|exact S]].
  - destruct X as [[X1 X2]|(X1 & X2 & X3)]; [left|right].
    + split; [exact X1|]. rewrite <- E. exact X2.
    + split; [exact X1|]. split; rewrite <- E; assumption.
  - split; [rewrite <- E; exact N1|]. split; [rewrite <- E; exact N2|].
    intros H. apply N3. rewrite E. exact H.
Qed.

Lemma inject_Z_abs_le (x y : Z) :
  2 * Z.abs x <= y ->
  (- inject_Z y <= 2 * inject_Z x)%Q /\ (2 * inject_Z x <= inject_Z y)%Q.
Proof.
  intros H. change 2%Q with (inject_Z 2). rewrite <- inject_Z_opp, <- !inject_Z_mult.
  rewrite <- !Zle_Qle. lia.
Qed.

Lemma stands_for_rounded (R e1 : Z) (y : number) : rounded false R e1 y -> stands_for R e1 y.
Proof.
  intros [[Z1 ->]|[(m & f & -> & B & Hle & HR)|(-> & H1 & H2)]].
  - left. split; trivial.
  - right; left. exists m, f. split; [reflexivity|]. split; [exact B|].
    rewrite (value_rescale m f e1 Hle), HR. reflexivity.
  - right; right. split; [reflexivity|].
    replace e1 with ((e1 - 971) + 971) at 1 by lia. rewrite pow2_add.
    rewrite <- (inject_pow2 (e1 - 971)) by lia.
    rewrite Qmult_assoc, <- inject_Z_mult.
    replace 1024 with (53 + 971) by lia. rewrite pow2_add.
    apply Qmult_le_compat_r; [|apply Qlt_le_weak, pow2_pos].
    rewrite <- (inject_pow2 53) by lia. rewrite <- Zle_Qle. exact H2.
Qed.

(** from the integers of [binary_round_aux] to the rational they stand for *)
Lemma rounds_intro (mx e : Z) (N D R : Z) (y : number) :
  0 < D -> 0 <= N -> mx = N / D ->
  let e1 := fexp prec emax (Zdigits2 mx + e) in
  e <= e1 ->
  nearest_even N (D * 2 ^ (e1 - e)) R ->
  rounded false R e1 y ->
  rounds (inject_Z N / inject_Z D * 2 ^ e) y.
Proof.
  intros HD HN Hmx e1 Hle [HNE Htie] Hy.
  exists e1, R. split; [|split; [|apply stands_for_rounded; exact Hy]].
  - (* the exponent *)
    assert (He1 : e1 = Z.max (Zdigits2 mx + e - 53) (-1074)) by (unfold e1; apply fexp_eq).
    assert (Hb : (0 < inject_Z D)%Q) by (rewrite <- (Zlt_Qlt 0); exact HD).
    assert (Hw : (0 < 2 ^ e)%Q) by apply pow2_pos.
    assert (Hq1 : (inject_Z mx <= inject_Z N / inject_Z D)%Q).
    { apply Qle_shift_div_l; [exact Hb|]. rewrite <- inject_Z_mult, <- Zle_Qle.
      rewrite Hmx, Z.mul_comm. apply Z.mul_div_le. exact HD. }
    assert (Hq2 : (inject_Z N / inject_Z D < inject_Z (mx + 1))%Q).
    { apply Qlt_shift_div_r; [exact Hb|]. rewrite <- inject_Z_mult, <- Zlt_Qlt.
      rewrite Hmx, Z.mul_comm. pose proof (Z.mul_succ_div_gt N D HD). lia. }
    destruct (Z.eq_dec mx 0) as [Hz|Hnz].
    + left. rewrite Hz in *. cbn [Zdigits2] in He1. split; [lia|].
      apply Qlt_le_trans with (2 ^ e)%Q.
      * rewrite <- (Qmult_1_l (2 ^ e)) at 2. apply Qmult_lt_compat_r; [exact Hw|exact Hq2].
      * apply pow2_le. lia.
    + assert (Hmx0 : 0 <= mx) by (subst mx; apply Z.div_pos; lia).
      destruct (Zdigits2_bounds mx ltac:(lia)) as (Hd & Hdl & Hdu).
      set (d := Zdigits2 mx) in *.
      assert (L : (2 ^ (d - 1 + e) <= inject_Z N / inject_Z D * 2 ^ e)%Q).
      { rewrite pow2_add. apply Qmult_le_compat_r; [|apply Qlt_le_weak; exact Hw].
        eapply Qle_trans; [|exact Hq1]. rewrite <- inject_pow2 by lia.
        rewrite <- Zle_Qle. exact Hdl. }
      assert (U : (inject_Z N / inject_Z D * 2 ^ e < 2 ^ (d + e))%Q).
      { rewrite pow2_add. apply Qmult_lt_compat_r; [exact Hw|].
        eapply Qlt_le_trans; [exact Hq2|]. rewrite <- inject_pow2 by lia.
        rewrite <- Zle_Qle. lia. }
      destruct (Z_le_gt_dec (d + e - 53) (-1074)) as [Hs|Hn].
      * left. split; [lia|]. eapply Qlt_le_trans; [exact U|]. apply pow2_le. lia.
      * right. split; [lia|]. split.
        -- replace (e1 + 52) with (d - 1 + e) by lia. exact L.
        -- replace (e1 + 53) with (d + e) by lia. exact U.
  - (* the nearest multiple *)
    set (k := e1 - e) in *.
    assert (Hk : 0 <= k) by (unfold k; lia).
    assert (Hb : (0 < inject_Z D)%Q) by (rewrite <- (Zlt_Qlt 0); exact HD).
    set (g := (2 ^ e / inject_Z D)%Q).
    assert (Hg : (0 < g)%Q).
    { unfold g. apply Qlt_shift_div_l; [exact Hb|]. rewrite Qmult_0_l. apply pow2_pos. }
    assert (Hu : (2 ^ e1 == inject_Z (D * 2 ^ k) * g)%Q).
    { replace e1 with (e + k) by (unfold k; lia). rewrite pow2_add.
      rewrite inject_Z_mult, inject_pow2 by lia. unfold g. field.
      intros Z0. rewrite Z0 in Hb. apply Qlt_irrefl in Hb. exact Hb. }
    assert (Hq : (inject_Z N / inject_Z D * 2 ^ e == inject_Z N * g)%Q).
    { unfold g. field. intros Z0. rewrite Z0 in Hb. apply Qlt_irrefl in Hb. exact Hb. }
    set (Delta := R * (D * 2 ^ k) - N) in *.
    assert (HX : (inject_Z R * 2 ^ e1 == inject_Z N * g + inject_Z Delta * g)%Q).
    { rewrite Hu. unfold Delta, Z.sub. rewrite inject_Z_plus, inject_Z_opp, !inject_Z_mult. ring. }
    destruct (inject_Z_abs_le Delta (D * 2 ^ k) HNE) as [A1 A2].
    assert (B1 : (- (inject_Z (D * 2 ^ k) * g) <= 2 * (inject_Z Delta * g))%Q).
    { setoid_replace (- (inject_Z (D * 2 ^ k) * g))%Q with (- inject_Z (D * 2 ^ k) * g)%Q by ring.
      rewrite Qmult_assoc. apply Qmult_le_compat_r; [exact A1|apply Qlt_le_weak; exact Hg]. }
    assert (B2 : (2 * (inject_Z Delta * g) <= inject_Z (D * 2 ^ k) * g)%Q).
    { rewrite Qmult_assoc. apply Qmult_le_compat_r; [exact A2|apply Qlt_le_weak; exact Hg]. }
    unfold nearest_multiple. rewrite Hq, HX, Hu.
    set (X := (inject_Z Delta * g)%Q) in *. set (Y := (inject_Z (D * 2 ^ k) * g)%Q) in *.
    set (q := (inject_Z N * g)%Q) in *.
    split; [lra|]. split; [lra|].
    intros Ht. apply Htie.
    assert (Hc : (2 * inject_Z Delta == - inject_Z (D * 2 ^ k))%Q \/
                 (2 * inject_Z Delta == inject_Z (D * 2 ^ k))%Q).
    { destruct Ht as [Ht|Ht]; [left|right]; apply (Qmult_inj_r _ _ g);
        try (intros Z0; rewrite Z0 in Hg; apply Qlt_irrefl in Hg; exact Hg).
      - setoid_replace (2 * inject_Z Delta * g)%Q with (2 * X)%Q by (unfold X; ring).
        setoid_replace (- inject_Z (D * 2 ^ k) * g)%Q with (- Y)%Q by (unfold Y; ring). lra.
      - setoid_replace (2 * inject_Z Delta * g)%Q with (2 * X)%Q by (unfold X; ring).
        fold Y. lra. }
    change 2%Q with (inject_Z 2) in Hc. rewrite <- inject_Z_opp, <- inject_Z_mult in Hc.
    destruct Hc as [Hc|Hc]; apply (proj1 (inject_Z_injective _ _)) in Hc; lia.
Qed.

(** [binary_round] gives the number nearest to [m * 2^e] *)
Lemma binary_round_rounds (pn : positive) (ex : Z) :
  rounds (inject_Z (Z.pos pn) * 2 ^ ex) (binary_round prec emax false pn ex).
Proof.
  unfold binary_round.
  set (f := fexp prec emax (Z.pos (digits2_pos pn) + ex)).
  assert (Hf : f = Z.max (Z.pos (digits2_pos pn) + ex - 53) (-1074)) by apply fexp_eq.
  destruct (Z_le_gt_dec f ex) as [Hle|Hgt].
  - pose proof (shl_align_spec pn ex f Hle) as Hm.
    pose proof (shl_align_snd pn ex f Hle) as He.
    destruct (shl_align pn ex f) as [mz ez]. cbn [fst snd] in Hm, He. subst ez.
    assert (Hd : Zdigits2 (Z.pos mz) + f = Z.pos (digits2_pos pn) + ex).
    { rewrite Hm, Zdigits2_shift by lia. lia. }
    destruct (binary_round_aux_nearest false (Z.pos mz) f loc_Exact (Z.pos mz) 1)
      as (R & HR & Hy); try lia.
    { apply represents_exact. }
    { rewrite Hd. fold f. lia. }
    apply rounds_compat with (inject_Z (Z.pos mz) / inject_Z 1 * 2 ^ f)%Q.
    { rewrite Hm, inject_Z_mult, inject_pow2 by lia.
      replace ex with ((ex - f) + f) at 2 by lia. rewrite pow2_add.
      change (inject_Z 1) with 1%Q. field. }
    apply (rounds_intro (Z.pos mz) f (Z.pos mz) 1 R); try lia.
    + rewrite Z.div_1_r. reflexivity.
    + rewrite Hd. fold f. lia.
    + exact HR.
    + exact Hy.
  - rewrite shl_align_none by lia.
    destruct (binary_round_aux_nearest false (Z.pos pn) ex loc_Exact (Z.pos pn) 1)
      as (R & HR & Hy); try lia.
    { apply represents_exact. }
    { cbn [Zdigits2]. fold f. lia. }
    apply rounds_compat with (inject_Z (Z.pos pn) / inject_Z 1 * 2 ^ ex)%Q.
    { change (inject_Z 1) with 1%Q. field. }
    apply (rounds_intro (Z.pos pn) ex (Z.pos pn) 1 R); try lia.
    + rewrite Z.div_1_r. reflexivity.
    + cbn [Zdigits2]. fold f. lia.
    + exact HR.
    + exact Hy.
Qed.

Lemma of_Z_rounds (n : Z) : 0 < n -> rounds (inject_Z n) (of_Z n).
Proof.
  intros H. destruct n as [|pn|pn]; try lia.
  unfold of_Z, binary_normalize.
  apply rounds_compat with (inject_Z (Z.pos pn) * 2 ^ 0)%Q; [|apply binary_round_rounds].
  change (2 ^ 0)%Q with 1%Q. ring.
Qed.

(** the quotient of two integers is rounded once *)
Lemma div_rounds (mx my : positive) :
  rounds (inject_Z (Z.pos mx) / inject_Z (Z.pos my))
         (div (S754_finite false mx 0) (S754_finite false my 0)).
Proof.
  unfold div. cbn [SFdiv xorb]. unfold SFdiv_core_binary. cbn [Zdigits2].
  pose proof (digits2_pos_bounds mx) as [Xl Xu].
  pose proof (digits2_pos_bounds my) as [Yl Yu].
  set (d1 := Z.pos (digits2_pos mx)) in *. set (d2 := Z.pos (digits2_pos my)) in *.
  assert (Hd1 : 1 <= d1) by (unfold d1; lia).
  assert (Hd2 : 1 <= d2) by (unfold d2; lia).
  rewrite fexp_eq.
  replace (d1 + 0 - (d2 + 0) - 53) with (d1 - d2 - 53) by lia.
  change (0 - 0) with 0.
  set (e' := Z.min (Z.max (d1 - d2 - 53) (-1074)) 0).
  set (s := 0 - e').
  assert (Hs : 0 <= s) by (unfold s, e'; lia).
  set (m' := match s with Z.pos _ => Z.shiftl (Z.pos mx) s | 0 => Z.pos mx | Z.neg _ => 0 end).
  assert (Hm' : m' = Z.pos mx * 2 ^ s).
  { unfold m'. destruct s as [|ps|ps]; [lia|apply Z.shiftl_mul_pow2; lia|lia]. }
  clearbody m'. rewrite div_eucl_div_mod.
  assert (H2s : 0 < 2 ^ s) by (apply Z.pow_pos_nonneg; lia).
  assert (Hm0 : 0 < m') by (rewrite Hm'; lia).
  assert (Hexp : e' <= fexp prec emax (Zdigits2 (m' / Z.pos my) + e')).
  { rewrite fexp_eq. destruct (Z_le_gt_dec (d1 - d2 - 53) (-1074)) as [A|B].
    - unfold e'. lia.
    - assert (Hs53 : 53 - d1 + d2 <= s) by (unfold s, e'; lia).
      assert (Hq : 2 ^ 52 <= m' / Z.pos my).
      { apply Z.div_le_lower_bound; [lia|].
        assert (P1 : 2 ^ (d1 - 1) * 2 ^ s = 2 ^ (d1 - 1 + s)) by (rewrite Z.pow_add_r; lia).
        assert (P2 : 2 ^ (52 + d2) <= 2 ^ (d1 - 1 + s)) by (apply Z.pow_le_mono_r; lia).
        assert (P3 : 2 ^ (52 + d2) = 2 ^ 52 * 2 ^ d2) by (rewrite Z.pow_add_r; lia).
        assert (P4 : 2 ^ (d1 - 1) * 2 ^ s <= m').
        { rewrite Hm'. apply Z.mul_le_mono_nonneg_r; lia. }
        assert (P5 : Z.pos my * 2 ^ 52 <= 2 ^ d2 * 2 ^ 52) by (apply Z.mul_le_mono_nonneg_r; lia).
        lia. }
      destruct (Zdigits2_bounds (m' / Z.pos my) ltac:(lia)) as (Dq & Lq & Uq).
      assert (53 <= Zdigits2 (m' / Z.pos my)).
      { destruct (Z_le_gt_dec 53 (Zdigits2 (m' / Z.pos my))) as [|G]; trivial.
        assert (2 ^ Zdigits2 (m' / Z.pos my) <= 2 ^ 52) by (apply Z.pow_le_mono_r; lia).
        lia. }
      lia. }
  destruct (binary_round_aux_nearest false (m' / Z.pos my) e'
              (new_location (Z.pos my) (m' mod Z.pos my)) m' (Z.pos my))
    as (R & HR & Hy); try lia.
  { apply represents_new_location; lia. }
  apply rounds_compat with (inject_Z m' / inject_Z (Z.pos my) * 2 ^ e')%Q.
  { rewrite Hm', inject_Z_mult, inject_pow2 by lia.
    assert (E : (2 ^ s * 2 ^ e' == 1)%Q).
    { rewrite <- pow2_add. replace (s + e') with 0 by (unfold s; lia). reflexivity. }
    setoid_replace (inject_Z (Z.pos mx) * 2 ^ s / inject_Z (Z.pos my) * 2 ^ e')%Q
      with (inject_Z (Z.pos mx) / inject_Z (Z.pos my) * (2 ^ s * 2 ^ e'))%Q.
    - rewrite E. ring.
    - field. intros Z0. assert (P : (0 < inject_Z (Z.pos my))%Q) by (rewrite <- (Zlt_Qlt 0); lia).
      rewrite Z0 in P. apply Qlt_irrefl in P. exact P. }
  apply (rounds_intro (m' / Z.pos my) e' m' (Z.pos my) R); try lia; trivial.
Qed.

(** a decimal literal is the number nearest to it *)
Lemma decimal_rounds (s p : Z) : 0 < s -> rounds (inject_Z s * 10 ^ p) (decimal s p).
Proof.
  intros Hs. destruct s as [|a|a]; try lia.
  assert (P10 : forall k, 0 <= k -> (inject_Z (10 ^ k) == 10 ^ k)%Q).
  { intros k Hk. apply (Zpower_Qpower 10 k Hk). }
  destruct p as [|k|k].
  - cbn [decimal]. apply rounds_compat with (inject_Z (Z.pos a * 10 ^ 0)); [|apply of_Z_rounds; lia].
    rewrite inject_Z_mult, P10 by lia. reflexivity.
  - cbn [decimal].
    apply rounds_compat with (inject_Z (Z.pos a * 10 ^ Z.pos k)).
    + rewrite inject_Z_mult, P10 by lia. reflexivity.
    + apply of_Z_rounds. assert (0 < 10 ^ Z.pos k) by (apply Z.pow_pos_nonneg; lia). lia.
  - cbn [decimal].
    apply rounds_compat with (inject_Z (Z.pos a) / inject_Z (Z.pos (10 ^ k)))%Q; [|apply div_rounds].
    rewrite Pos2Z.inj_pow, P10 by lia.
    change (10 ^ Z.neg k)%Q with (/ (10 ^ Z.pos k))%Q. reflexivity.
Qed.

(** scaling the digits by ten and lowering the exponent is the same literal *)
Lemma decimal_shift (a p : Z) : 0 < a -> decimal (10 * a) p = decimal a (p + 1).
Proof.
  intros Ha. apply (rounds_unique (inject_Z (10 * a) * 10 ^ p)).
  - apply decimal_rounds. lia.
  - apply rounds_compat with (inject_Z a * 10 ^ (p + 1))%Q; [|apply decimal_rounds; exact Ha].
    rewrite inject_Z_mult, Qpower_plus by discriminate.
    change (inject_Z 10) with 10%Q. change (10 ^ 1)%Q with 10%Q. ring.
Qed.

(** a rational just below a number rounds up to it: within a quarter of
    the unit in the last place *)
Lemma rounds_below (m : positive) (e : Z) (q : Q) :
  bounded prec emax m e = true ->
  (q <= value (S754_finite false m e))%Q ->
  (value (S754_finite false m e) - 2 ^ e * (1 # 4) <= q)%Q ->
  rounds q (S754_finite false m e).
Proof.
  intros B Hq1 Hq2. pose proof B as B'. apply bounded_inv in B'. destruct B' as [C Hmax].
  pose proof (value_lt_pow2 m e) as Vu.
  pose proof (digits2_pos_bounds m) as [Ml Mu].
  cbn [value cond_Zopp] in *.
  assert (Hu : (0 < 2 ^ e)%Q) by apply pow2_pos.
  assert (Same : (e = -1074 \/ (2 ^ (e + 52) <= q)%Q) -> rounds q (S754_finite false m e)).
  { intros Hc. exists e, (Z.pos m). split; [|split].
    - destruct (Z.eq_dec e (-1074)) as [E|NE].
      + left. split; [exact E|]. eapply Qle_lt_trans; [exact Hq1|].
        eapply Qlt_le_trans; [exact Vu|]. apply pow2_le. lia.
      + right. destruct Hc as [Hc|Hc]; [contradiction|]. split; [lia|]. split; [exact Hc|].
        eapply Qle_lt_trans; [exact Hq1|].
        eapply Qlt_le_trans; [exact Vu|]. apply pow2_le. lia.
    - unfold nearest_multiple. set (x := (inject_Z (Z.pos m) * 2 ^ e)%Q) in *.
      set (u := (2 ^ e)%Q) in *. split; [lra|]. split; [lra|].
      intros [T|T]; exfalso; lra.
    - right; left. exists m, e. split; [reflexivity|]. split; [exact B|]. reflexivity. }
  destruct (Z.eq_dec e (-1074)) as [E|NE]; [apply Same; left; exact E|].
  destruct (Qlt_le_dec q (2 ^ (e + 52))) as [Hlow|Hhigh]; [|apply Same; right; exact Hhigh].
  (* just below a power of two *)
  assert (D53 : Z.pos (digits2_pos m) = 53) by lia.
  rewrite D53 in Ml. change (2 ^ (53 - 1)) with 4503599627370496 in Ml.
  assert (P52 : (2 ^ (e + 52) == 4503599627370496 * 2 ^ e)%Q).
  { rewrite pow2_add. change (2 ^ 52)%Q with 4503599627370496%Q. ring. }
  assert (Hm : Z.pos m = 4503599627370496).
  { assert (H : (inject_Z (Z.pos m) * 2 ^ e < (4503599627370496 + (1 # 4)) * 2 ^ e)%Q).
    { rewrite P52 in Hlow. lra. }
    apply Qmult_lt_r in H; [|exact Hu].
    assert (H' : (inject_Z (Z.pos m) < inject_Z 4503599627370497)%Q).
    { eapply Qlt_trans; [exact H|]. reflexivity. }
    rewrite <- Zlt_Qlt in H'. lia. }
  rewrite Hm in *. change (inject_Z 4503599627370496) with 4503599627370496%Q in *.
  assert (Ph : (2 ^ e == 2 * 2 ^ (e - 1))%Q).
  { replace e with (1 + (e - 1)) at 1 by lia. rewrite pow2_add. reflexivity. }
  exists (e - 1), 9007199254740992. split; [|split].
  - destruct (Z.eq_dec (e - 1) (-1074)) as [E1|NE1].
    + left. split; [exact E1|]. replace (-1021) with (e + 52) by lia. exact Hlow.
    + right. split; [lia|]. split.
      * replace (e - 1 + 52) with ((e - 1) + 52) by lia. rewrite pow2_add.
        change (2 ^ 52)%Q with 4503599627370496%Q.
        rewrite Ph in Hq2. set (h := (2 ^ (e - 1))%Q) in *.
        assert (0 < h)%Q by apply pow2_pos. lra.
      * replace (e - 1 + 53) with (e + 52) by lia. exact Hlow.
  - unfold nearest_multiple. change (inject_Z 9007199254740992) with 9007199254740992%Q.
    rewrite Ph in Hq1, Hq2. set (h := (2 ^ (e - 1))%Q) in *.
    assert (0 < h)%Q by apply pow2_pos.
    split; [lra|]. split; [lra|]. intros _. reflexivity.
  - right; left. exists m, e. split; [reflexivity|]. split; [exact B|].
    cbn [value cond_Zopp]. rewrite Hm, Ph.
    change (inject_Z 4503599627370496) with 4503599627370496%Q.
    change (inject_Z 9007199254740992) with 9007199254740992%Q. ring.
Qed.

End Nearest.

(** ** The shortest digits of a number *)

Module Shortest.

Import Binary64 Clock Exact Nearest.

Lemma same_eq (x y : number) : same x y = true -> x = y.
Proof.
  destruct x as [a|a| |a m e], y as [b|b| |b n f]; cbn [same]; try discriminate.
  - intros H. apply Bool.eqb_prop in H. congruence.
  - intros H. apply Bool.eqb_prop in H. congruence.
  - reflexivity.
  - intros H. apply andb_prop in H. destruct H as [H H3]. apply andb_prop in H.
    destruct H as [H1 H2]. apply Bool.eqb_prop in H1. apply Pos.eqb_eq in H2.
    apply Z.eqb_eq in H3. congruence.
Qed.

Lemma pow10_pos (n : Z) : (0 < 10 ^ n)%Q.
Proof. apply Qpower_0_lt. reflexivity. Qed.

Lemma pow10_add (a b : Z) : (10 ^ (a + b) == 10 ^ a * 10 ^ b)%Q.
Proof. apply Qpower_plus. discriminate. Qed.

Lemma inject_pow10 (n : Z) : 0 <= n -> (inject_Z (10 ^ n) == 10 ^ n)%Q.
Proof. intros H. apply (Zpower_Qpower 10 n H). Qed.

Lemma decade_up_spec (fuel : nat) (v : Q) (n : Z) :
  (10 ^ (n - 1) <= v)%Q -> (v < 10 ^ (n + Z.of_nat fuel))%Q ->
  (10 ^ (decade_up fuel v n - 1) <= v)%Q /\ (v < 10 ^ decade_up fuel v n)%Q.
Proof.
  revert n. induction fuel as [|f IH]; intros n Hl Hu; cbn [decade_up].
  - replace (n + Z.of_nat 0) with n in Hu by lia. split; assumption.
  - destruct (Qle_bool (10 ^ n) v) eqn:E.
    + apply Qle_bool_iff in E. apply IH.
      * replace (n + 1 - 1) with n by lia. exact E.
      * replace (n + 1 + Z.of_nat f) with (n + Z.of_nat (S f)) by lia. exact Hu.
    + split; [exact Hl|]. apply Qnot_le_lt. intros H. apply Qle_bool_iff in H. congruence.
Qed.

(** powers of ten against powers of two, from [10^3 <= 2^10] and
    [2^93 <= 10^28] *)
Lemma pow10_le_pow2 (a t : Z) : 0 <= a -> 0 <= t -> 10 * a <= 3 * t -> 10 ^ a <= 2 ^ t.
Proof.
  intros Ha Ht H.
  apply (Z.pow_le_mono_l_iff (10 ^ a) (2 ^ t) 10); try lia;
    try (apply Z.pow_nonneg; lia).
  rewrite <- !Z.pow_mul_r by lia.
  apply Z.le_trans with (10 ^ (3 * t)); [apply Z.pow_le_mono_r; lia|].
  rewrite (Z.mul_comm t 10), !Z.pow_mul_r by lia.
  apply Z.pow_le_mono_l. split; [lia|]. apply Z.leb_le. reflexivity.
Qed.

Lemma pow2_le_pow10 (a t : Z) : 0 <= a -> 0 <= t -> 28 * t <= 93 * a -> 2 ^ t <= 10 ^ a.
Proof.
  intros Ha Ht H.
  apply (Z.pow_le_mono_l_iff (2 ^ t) (10 ^ a) 93); try lia;
    try (apply Z.pow_nonneg; lia).
  rewrite <- !Z.pow_mul_r by lia.
  apply Z.le_trans with (10 ^ (28 * t)); [|apply Z.pow_le_mono_r; lia].
  rewrite (Z.mul_comm t 93), !Z.pow_mul_r by lia.
  apply Z.pow_le_mono_l. split; [lia|]. apply Z.leb_le. reflexivity.
Qed.

Lemma Qinv_le_inv (a b : Q) : (0 < a)%Q -> (a <= b)%Q -> (/ b <= / a)%Q.
Proof.
  intros Ha Hab. assert (Hb : (0 < b)%Q) by (eapply Qlt_le_trans; eassumption).
  apply Qle_shift_inv_r; [exact Hb|].
  setoid_replace (/ a * b)%Q with (b / a)%Q by (unfold Qdiv; ring).
  apply Qle_shift_div_l; [exact Ha|]. rewrite Qmult_1_l. exact Hab.
Qed.

Lemma pow10_le_pow2_Q (A T : Z) :
  10 * A <= 3 * T -> 93 * A <= 28 * T -> (10 ^ A <= 2 ^ T)%Q.
Proof.
  intros H1 H2. destruct (Z_lt_le_dec A 0) as [An|Ap]; destruct (Z_lt_le_dec T 0) as [Tn|Tp].
  - replace A with (- - A) by lia. replace T with (- - T) by lia.
    rewrite (Qpower_opp 10 (- A)), (Qpower_opp 2 (- T)).
    apply Qinv_le_inv; [apply pow2_pos|].
    rewrite <- inject_pow2, <- inject_pow10 by lia. rewrite <- Zle_Qle.
    apply pow2_le_pow10; lia.
  - apply Qle_trans with 1%Q.
    + change 1%Q with (10 ^ 0)%Q. apply Qpower_le_compat_l; [lia|discriminate].
    + change 1%Q with (2 ^ 0)%Q. apply pow2_le. exact Tp.
  - lia.
  - rewrite <- inject_pow2, <- inject_pow10 by lia. rewrite <- Zle_Qle.
    apply pow10_le_pow2; lia.
Qed.

Lemma pow2_le_pow10_Q (T A : Z) :
  28 * T <= 93 * A -> 3 * T <= 10 * A -> (2 ^ T <= 10 ^ A)%Q.
Proof.
  intros H1 H2. destruct (Z_lt_le_dec A 0) as [An|Ap]; destruct (Z_lt_le_dec T 0) as [Tn|Tp].
  - replace A with (- - A) by lia. replace T with (- - T) by lia.
    rewrite (Qpower_opp 10 (- A)), (Qpower_opp 2 (- T)).
    apply Qinv_le_inv; [apply pow10_pos|].
    rewrite <- inject_pow2, <- inject_pow10 by lia. rewrite <- Zle_Qle.
    apply pow10_le_pow2; lia.
  - lia.
  - apply Qle_trans with 1%Q.
    + change 1%Q with (2 ^ 0)%Q. apply pow2_le. lia.
    + change 1%Q with (10 ^ 0)%Q. apply Qpower_le_compat_l; [lia|discriminate].
  - rewrite <- inject_pow2, <- inject_pow10 by lia. rewrite <- Zle_Qle.
    apply pow2_le_pow10; lia.
Qed.

(** [decade] is the decimal exponent: [10^(n-1) <= v < 10^n].  The start
    of the search is at most two decades below it. *)
Lemma decade_spec (m : positive) (e : Z) :
  bounded prec emax m e = true ->
  (10 ^ (decade m e - 1) <= value (S754_finite false m e))%Q /\
  (value (S754_finite false m e) < 10 ^ decade m e)%Q.
Proof.
  intros B. apply bounded_inv in B. destruct B as [C Hmax].
  set (t := Z.pos (digits2_pos m) + e - 1).
  assert (Ht : -1074 <= t <= 1023) by (unfold t; lia).
  unfold decade. fold t. set (q := t * 30103 / 100000).
  assert (Hq : 100000 * q <= t * 30103 < 100000 * q + 100000).
  { unfold q. pose proof (Z.div_mod (t * 30103) 100000 ltac:(lia)).
    pose proof (Z.mod_pos_bound (t * 30103) 100000 ltac:(lia)). lia. }
  clearbody q. apply decade_up_spec.
  - apply Qle_trans with (2 ^ t)%Q.
    + apply pow10_le_pow2_Q; lia.
    + unfold t. replace (Z.pos (digits2_pos m) + e - 1) with (Z.pos (digits2_pos m) - 1 + e) by lia.
      apply value_ge_pow2.
  - eapply Qlt_le_trans; [apply value_lt_pow2|].
    replace (Z.pos (digits2_pos m) + e) with (t + 1) by (unfold t; lia).
    apply pow2_le_pow10_Q; cbn [Z.of_nat Pos.of_succ_nat Pos.succ]; lia.
Qed.

(** the [k] leading digits of a number between two powers of ten *)
Lemma floor_digits (v : Q) (n0 k : Z) :
  1 <= k -> (10 ^ (n0 - 1) <= v)%Q -> (v < 10 ^ n0)%Q ->
  10 ^ (k - 1) <= Qfloor (v / 10 ^ (n0 - k)) < 10 ^ k /\
  (inject_Z (Qfloor (v / 10 ^ (n0 - k))) * 10 ^ (n0 - k) <= v)%Q /\
  (v < inject_Z (Qfloor (v / 10 ^ (n0 - k)) + 1) * 10 ^ (n0 - k))%Q.
Proof.
  intros Hk Hl Hu. set (P := (10 ^ (n0 - k))%Q).
  assert (HP : (0 < P)%Q) by apply pow10_pos.
  assert (HP0 : ~ (P == 0)%Q).
  { intros Z0. rewrite Z0 in HP. apply Qlt_irrefl in HP. exact HP. }
  set (t := (v / P)%Q).
  assert (Ht : (t * P == v)%Q) by (unfold t; field; exact HP0).
  assert (T1 : (inject_Z (10 ^ (k - 1)) <= t)%Q).
  { rewrite inject_pow10 by lia. apply Qle_shift_div_l; [exact HP|].
    unfold P. rewrite <- pow10_add. replace (k - 1 + (n0 - k)) with (n0 - 1) by lia. exact Hl. }
  assert (T2 : (t < inject_Z (10 ^ k))%Q).
  { rewrite inject_pow10 by lia. apply Qlt_shift_div_r; [exact HP|].
    unfold P. rewrite <- pow10_add. replace (k + (n0 - k)) with n0 by lia. exact Hu. }
  pose proof (Qfloor_le t) as F1. pose proof (Qlt_floor t) as F2.
  set (lo := Qfloor t) in *.
  split; [split|split].
  - apply Qfloor_resp_le in T1. rewrite Qfloor_Z in T1. exact T1.
  - rewrite Zlt_Qlt. eapply Qle_lt_trans; [exact F1|exact T2].
  - rewrite <- Ht. apply Qmult_le_compat_r; [exact F1|apply Qlt_le_weak; exact HP].
  - rewrite <- Ht. apply Qmult_lt_compat_r; [exact HP|exact F2].
Qed.

(** the digits [try_digits] finds read back as the number *)
Lemma try_digits_spec (x : number) (v : Q) (n0 k s n : Z) :
  1 <= k -> (10 ^ (n0 - 1) <= v)%Q -> (v < 10 ^ n0)%Q ->
  try_digits x v n0 k = Some (s, n) ->
  10 ^ (k - 1) <= s < 10 ^ k /\ decimal s (n - k) = x.
Proof.
  intros Hk Hl Hu. destruct (floor_digits v n0 k Hk Hl Hu) as ([L1 L2] & _ & _).
  unfold try_digits. set (lo := Qfloor (v / 10 ^ (n0 - k))) in *.
  assert (Hp : 0 < 10 ^ (k - 1)) by (apply Z.pow_pos_nonneg; lia).
  assert (P10 : 10 ^ k = 10 * 10 ^ (k - 1)).
  { rewrite <- Z.pow_succ_r by lia. f_equal. lia. }
  assert (Norm : forall c, 10 ^ (k - 1) <= c <= 10 ^ k ->
                           same (decimal c (n0 - k)) x = true ->
                           (if c =? 10 ^ k then (10 ^ (k - 1), n0 + 1) else (c, n0)) = (s, n) ->
                           10 ^ (k - 1) <= s < 10 ^ k /\ decimal s (n - k) = x).
  { intros c Hc Hs E. apply same_eq in Hs. destruct (Z.eqb_spec c (10 ^ k)) as [Ec|Ec].
    - injection E as <- <-. split; [lia|].
      replace (n0 + 1 - k) with (n0 - k + 1) by lia.
      rewrite <- decimal_shift by lia. rewrite <- P10, <- Ec. exact Hs.
    - injection E as <- <-. split; [lia|exact Hs]. }
  destruct (same (decimal lo (n0 - k)) x) eqn:Olo;
    destruct (same (decimal (lo + 1) (n0 - k)) x) eqn:Ohi.
  - destruct (Qcompare _ _); intros E; injection E as E.
    + destruct (Z.even lo); [apply (Norm lo ltac:(lia) Olo E)|apply (Norm (lo + 1) ltac:(lia) Ohi E)].
    + apply (Norm lo ltac:(lia) Olo E).
    + apply (Norm (lo + 1) ltac:(lia) Ohi E).
  - intros E; injection E as E. apply (Norm lo ltac:(lia) Olo E).
  - intros E; injection E as E. apply (Norm (lo + 1) ltac:(lia) Ohi E).
  - discriminate.
Qed.

(** the digits [shortest] returns read back as the number: at the latest
    the eighteen digits below it do *)
Lemma shortest_spec (m : positive) (e : Z) (fuel : nat) (k : Z) :
  bounded prec emax m e = true ->
  1 <= k -> k + Z.of_nat fuel = 18 ->
  let x := S754_finite false m e in
  let '(d, n, k') := shortest fuel x (value x) (decade m e) k in
  1 <= k' /\ 10 ^ (k' - 1) <= d < 10 ^ k' /\ decimal d (n - k') = x.
Proof.
  intros B. destruct (decade_spec m e B) as [Hl Hu]. cbv zeta.
  set (x := S754_finite false m e) in *. set (v := value x) in *. set (n0 := decade m e) in *.
  revert k. induction fuel as [|f IH]; intros k Hk Hf; cbn [shortest].
  - assert (Ek : k = 18) by lia. subst k.
    destruct (floor_digits v n0 18 ltac:(lia) Hl Hu) as (Hd & F1 & F2).
    set (d := Qfloor (v / 10 ^ (n0 - 18))) in *.
    split; [lia|]. split; [exact Hd|].
    apply (rounds_unique (inject_Z d * 10 ^ (n0 - 18))).
    + apply decimal_rounds. assert (0 < 10 ^ (18 - 1)) by (apply Z.pow_pos_nonneg; lia). lia.
    + apply rounds_below; [exact B|exact F1|].
      fold x. fold v.
      pose proof (value_lt_pow2 m e) as Vu. fold x in Vu. fold v in Vu.
      pose proof B as B'. apply bounded_inv in B'. destruct B' as [C _].
      assert (Vu' : (v < 2 ^ 53 * 2 ^ e)%Q).
      { eapply Qlt_le_trans; [exact Vu|]. rewrite <- pow2_add. apply pow2_le. lia. }
      assert (E17 : (10 ^ (n0 - 1) == 10 ^ 17 * 10 ^ (n0 - 18))%Q).
      { rewrite <- pow10_add. replace (17 + (n0 - 18)) with (n0 - 1) by lia. reflexivity. }
      rewrite E17 in Hl. rewrite inject_Z_plus in F2. change (inject_Z 1) with 1%Q in F2.
      change (2 ^ 53)%Q with 9007199254740992%Q in Vu'.
      change (10 ^ 17)%Q with 100000000000000000%Q in Hl.
      set (P := (10 ^ (n0 - 18))%Q) in *. set (u := (2 ^ e)%Q) in *.
      set (D := inject_Z d) in *.
      assert (HP : (0 < P)%Q) by apply pow10_pos.
      assert (F2' : (v < D * P + P)%Q).
      { eapply Qlt_le_trans; [exact F2|]. ring_simplify. apply Qle_refl. }
      set (DP := (D * P)%Q) in *. lra.
  - destruct (try_digits x v n0 k) as [[s n]|] eqn:E.
    + destruct (try_digits_spec x v n0 k s n Hk Hl Hu E) as [Hs Hd].
      split; [exact Hk|]. split; assumption.
    + apply IH; lia.
Qed.

End Shortest.

(** ** Printing a number and reading it back *)

Module Printing.

Import Binary64 Clock Exact Nearest Shortest Input.

Local Open Scope string_scope.

(** the value of a digit in front of a decimal *)
Lemma of_uint_cons (f : Decimal.uint -> Decimal.uint) (i : N) (u : Decimal.uint) :
  (forall r, Decimal.revapp (f u) r = Decimal.revapp u (f r)) ->
  DecimalPos.Unsigned.of_lu (f Decimal.Nil) = i ->
  N.of_uint (f u) = (i * 10 ^ DecimalPos.Unsigned.usize u + N.of_uint u)%N.
Proof.
  intros Hf Hi. unfold N.of_uint. rewrite !DecimalPos.Unsigned.of_uint_alt.
  unfold Decimal.rev at 1. rewrite Hf, DecimalPos.Unsigned.of_lu_revapp, Hi. lia.
Qed.

Ltac digit_constants :=
  repeat match goal with
         | |- context [Z.of_nat (nat_of_ascii ?c)] =>
             let v := eval vm_compute in (Z.of_nat (nat_of_ascii c)) in
             change (Z.of_nat (nat_of_ascii c)) with v
         | |- context [Z.of_N (N.pos ?p)] =>
             let v := eval vm_compute in (Z.of_N (N.pos p)) in
             change (Z.of_N (N.pos p)) with v
         | |- context [Z.of_N 0%N] => change (Z.of_N 0%N) with 0%Z
         end.

Ltac digit_in_front u :=
  match goal with
  | |- context [N.of_uint (?f u)] =>
      let i := eval vm_compute in (DecimalPos.Unsigned.of_lu (f Decimal.Nil)) in
      rewrite (of_uint_cons f i u ltac:(reflexivity) eq_refl)
  end.

Lemma string_of_uint_digits (u : Decimal.uint) : all_digits (NilEmpty.string_of_uint u) = true.
Proof.
  induction u; cbn [NilEmpty.string_of_uint all_digits]; [reflexivity|rewrite IHu; reflexivity ..].
Qed.

Lemma string_of_uint_length (u : Decimal.uint) :
  Z.of_nat (String.length (NilEmpty.string_of_uint u)) = Z.of_N (DecimalPos.Unsigned.usize u).
Proof.
  induction u; cbn [NilEmpty.string_of_uint String.length DecimalPos.Unsigned.usize];
    rewrite ?Nat2Z.inj_succ, ?N2Z.inj_succ; lia.
Qed.

(** reading the digits of a decimal gives its value *)
Lemma string_of_uint_value (u : Decimal.uint) (acc : Z) :
  digits_value acc (NilEmpty.string_of_uint u) =
  (acc * 10 ^ Z.of_N (DecimalPos.Unsigned.usize u) + Z.of_N (N.of_uint u))%Z.
Proof.
  revert acc.
  induction u as [|u IH|u IH|u IH|u IH|u IH|u IH|u IH|u IH|u IH|u IH]; intros acc;
    [cbn; lia|..];
    cbn [NilEmpty.string_of_uint digits_value DecimalPos.Unsigned.usize]; rewrite IH;
    digit_in_front u;
    rewrite N2Z.inj_succ, Z.pow_succ_r, N2Z.inj_add, N2Z.inj_mul, N2Z.inj_pow by lia;
    unfold digit_value; digit_constants; ring.
Qed.

Lemma of_uint_lt (u : Decimal.uint) :
  (Z.of_N (N.of_uint u) < 10 ^ Z.of_N (DecimalPos.Unsigned.usize u))%Z.
Proof.
  induction u as [|u IH|u IH|u IH|u IH|u IH|u IH|u IH|u IH|u IH|u IH];
    [cbn; lia|..];
    cbn [DecimalPos.Unsigned.usize];
    digit_in_front u;
    rewrite N2Z.inj_succ, Z.pow_succ_r, N2Z.inj_add, N2Z.inj_mul, N2Z.inj_pow by lia;
    digit_constants; assert (0 <= Z.of_N (N.of_uint u))%Z by lia; lia.
Qed.

(** a decimal without leading zero is at least the power of ten of its
    length *)
Lemma of_uint_ge (u : Decimal.uint) :
  Decimal.unorm u = u -> (0 < Z.of_N (N.of_uint u))%Z ->
  (10 ^ (Z.of_N (DecimalPos.Unsigned.usize u) - 1) <= Z.of_N (N.of_uint u))%Z.
Proof.
  intros Hn Hpos.
  destruct u as [|u|u|u|u|u|u|u|u|u|u]; [cbn in Hpos; lia| |..].
  { exfalso. unfold Decimal.unorm in Hn. cbn [Decimal.nzhead] in Hn.
    destruct (Decimal.nzhead u) eqn:E; try discriminate Hn.
    - injection Hn as <-. cbn in Hpos. lia.
    - exact (DecimalFacts.nzhead_nonzero _ _ E). }
  all: cbn [DecimalPos.Unsigned.usize]; digit_in_front u;
    rewrite N2Z.inj_succ, N2Z.inj_add, N2Z.inj_mul, N2Z.inj_pow;
    replace (Z.succ (Z.of_N (DecimalPos.Unsigned.usize u)) - 1)%Z
      with (Z.of_N (DecimalPos.Unsigned.usize u)) by lia;
    digit_constants;
    assert (0 <= Z.of_N (N.of_uint u))%Z by lia;
    assert (0 < 10 ^ Z.of_N (DecimalPos.Unsigned.usize u))%Z by (apply Z.pow_pos_nonneg; lia);
    lia.
Qed.

Lemma to_uint_normal (n : N) : Decimal.unorm (N.to_uint n) = N.to_uint n.
Proof.
  rewrite <- (DecimalN.Unsigned.of_to n) at 2. symmetry. apply DecimalN.Unsigned.to_of.
Qed.

Lemma string_of_Z_eq (d : Z) :
  string_of_Z d = NilEmpty.string_of_uint (N.to_uint (Z.to_N d)).
Proof.
  unfold string_of_Z, NilZero.string_of_uint.
  pose proof (DecimalFacts.unorm_nonnil (N.to_uint (Z.to_N d))) as H.
  rewrite to_uint_normal in H. destruct (N.to_uint (Z.to_N d)); [contradiction|reflexivity..].
Qed.

(** the string of a natural number: its decimal digits, as many as its
    size asks for, reading back as the number *)
Lemma string_of_Z_spec (d : Z) :
  (0 <= d)%Z ->
  all_digits (string_of_Z d) = true /\
  string_of_Z d <> "" /\
  digits_value 0 (string_of_Z d) = d /\
  (forall k, (1 <= k)%Z -> (10 ^ (k - 1) <= d < 10 ^ k)%Z ->
             Z.of_nat (String.length (string_of_Z d)) = k).
Proof.
  intros Hd. rewrite string_of_Z_eq. set (u := N.to_uint (Z.to_N d)).
  assert (Hv : Z.of_N (N.of_uint u) = d).
  { unfold u. rewrite DecimalN.Unsigned.of_to. lia. }
  split; [apply string_of_uint_digits|]. split; [|split].
  - pose proof (DecimalFacts.unorm_nonnil u) as H. unfold u in H at 1.
    rewrite to_uint_normal in H. fold u in H. destruct u; [contradiction|discriminate..].
  - rewrite string_of_uint_value, Hv. lia.
  - intros k Hk [Hl Hu]. rewrite string_of_uint_length.
    pose proof (of_uint_lt u) as U. rewrite Hv in U.
    assert (Hpos : (0 < d)%Z).
    { assert (0 < 10 ^ (k - 1))%Z by (apply Z.pow_pos_nonneg; lia). lia. }
    pose proof (of_uint_ge u (to_uint_normal _)) as L. rewrite Hv in L. specialize (L Hpos).
    set (len := Z.of_N (DecimalPos.Unsigned.usize u)) in *.
    assert (Hlen : (0 <= len)%Z) by (unfold len; lia).
    destruct (Z.lt_trichotomy len k) as [H|[H|H]]; [exfalso|exact H|exfalso].
    + assert (10 ^ len <= 10 ^ (k - 1))%Z by (apply Z.pow_le_mono_r; lia). lia.
    + assert (10 ^ k <= 10 ^ (len - 1))%Z by (apply Z.pow_le_mono_r; lia). lia.
Qed.

Lemma digits_value_app (a b : string) (acc : Z) :
  digits_value acc (a ++ b) = digits_value (digits_value acc a) b.
Proof.
  revert acc. induction a as [|c a IH]; intros acc; [reflexivity|].
  cbn [append digits_value]. apply IH.
Qed.

Lemma digits_value_zeros (n : nat) (acc : Z) :
  digits_value acc (zeros n) = (acc * 10 ^ Z.of_nat n)%Z.
Proof.
  revert acc. induction n as [|n IH]; intros acc; [cbn; lia|].
  cbn [zeros digits_value]. rewrite IH, Nat2Z.inj_succ, Z.pow_succ_r by lia.
  change (digit_value "0") with 0%Z. ring.
Qed.

Lemma all_digits_zeros (n : nat) : all_digits (zeros n) = true.
Proof. induction n as [|n IH]; [reflexivity|]. cbn [zeros all_digits]. rewrite IH. reflexivity. Qed.

Lemma length_zeros (n : nat) : String.length (zeros n) = n.
Proof. induction n as [|n IH]; [reflexivity|]. cbn [zeros String.length]. rewrite IH. reflexivity. Qed.

Lemma length_app (a b : string) :
  String.length (a ++ b) = (String.length a + String.length b)%nat.
Proof. induction a as [|c a IH]; [reflexivity|]. cbn [append String.length]. rewrite IH. reflexivity. Qed.

Lemma substring_split (s : string) (n : nat) :
  (n <= String.length s)%nat ->
  substring 0 n s ++ substring n (String.length s - n) s = s.
Proof.
  revert n. induction s as [|c s IH]; intros n Hn.
  - cbn [String.length] in Hn. assert (n = O) by lia. subst n. reflexivity.
  - destruct n as [|n].
    + cbn [substring String.length Nat.sub append]. f_equal.
      specialize (IH O ltac:(lia)). rewrite Nat.sub_0_r in IH.
      destruct s as [|c' s']; [reflexivity|]. cbn [substring append] in IH |- *. exact IH.
    + cbn [substring String.length Nat.sub append]. cbn [String.length] in Hn.
      f_equal. apply IH. lia.
Qed.

Lemma all_digits_substring (n m : nat) (s : string) :
  all_digits s = true -> all_digits (substring n m s) = true.
Proof.
  revert n m. induction s as [|c s IH]; intros n m Hs.
  - destruct n, m; reflexivity.
  - cbn [all_digits] in Hs. apply andb_prop in Hs. destruct Hs as [Hc Hs].
    destruct n as [|n].
    + destruct m as [|m]; [reflexivity|]. cbn [substring all_digits]. rewrite Hc. apply IH, Hs.
    + cbn [substring]. apply IH, Hs.
Qed.

Lemma length_substring (n m : nat) (s : string) :
  (n + m <= String.length s)%nat -> String.length (substring n m s) = m.
Proof.
  revert n m. induction s as [|c s IH]; intros n m H.
  - cbn [String.length] in H. assert (n = O) by lia. assert (m = O) by lia. subst. reflexivity.
  - cbn [String.length] in H. destruct n as [|n].
    + destruct m as [|m]; [reflexivity|]. cbn [substring String.length]. f_equal. apply IH. lia.
    + cbn [substring]. apply IH. lia.
Qed.

Lemma span_digits_all (s : string) : all_digits s = true -> span_digits s = (s, "").
Proof.
  intros H. rewrite <- (append_empty_r s) at 1. apply span_digits_app; [exact H|reflexivity].
Qed.

(** the exponent part of a literal: [e], a sign and digits *)
Lemma parse_exponent_spec (neg : bool) (es : string) :
  all_digits es = true -> es <> "" ->
  parse_exponent ("e" ++ (if neg then "-" else "+") ++ es) =
  if neg then (- digits_value 0 es)%Z else digits_value 0 es.
Proof.
  intros H Hne. destruct neg; cbn [append parse_exponent Ascii.eqb Bool.eqb orb];
    rewrite (span_digits_all es H); cbn [fst]; destruct es; [contradiction|reflexivity..].
Qed.

(** a literal in scientific notation with one digit *)
Lemma parseFloat_scientific_1 (a : string) (neg : bool) (es : string) :
  all_digits a = true -> a <> "" -> all_digits es = true -> es <> "" ->
  parseFloat (a ++ "e" ++ (if neg then "-" else "+") ++ es) =
  decimal (digits_value 0 a) (if neg then - digits_value 0 es else digits_value 0 es)%Z.
Proof.
  intros Ha Hne Hes Hnes. destruct a as [|c a']; [contradiction|].
  assert (Hc : is_digit c || Ascii.eqb c "." = true).
  { cbn [all_digits] in Ha. apply andb_prop in Ha. rewrite (proj1 Ha). reflexivity. }
  change (String c a' ++ "e" ++ (if neg then "-" else "+") ++ es)
    with (String c (a' ++ "e" ++ (if neg then "-" else "+") ++ es)).
  rewrite (parseFloat_unsigned c _ Hc).
  change (String c (a' ++ "e" ++ (if neg then "-" else "+") ++ es))
    with (String c a' ++ "e" ++ (if neg then "-" else "+") ++ es).
  rewrite span_digits_app; [|exact Ha|reflexivity].
  cbn [append]. rewrite append_empty_r.
  change (String "e" ((if neg then "-" else "+") ++ es))
    with ("e" ++ (if neg then "-" else "+") ++ es).
  rewrite (parse_exponent_spec neg es Hes Hnes). cbn [String.length].
  rewrite Z.sub_0_r. reflexivity.
Qed.

(** a literal in scientific notation with a fraction *)
Lemma parseFloat_scientific (a b : string) (neg : bool) (es : string) :
  all_digits a = true -> a <> "" -> all_digits b = true ->
  all_digits es = true -> es <> "" ->
  parseFloat (a ++ "." ++ b ++ "e" ++ (if neg then "-" else "+") ++ es) =
  decimal (digits_value 0 (a ++ b))
          ((if neg then - digits_value 0 es else digits_value 0 es)
           - Z.of_nat (String.length b))%Z.
Proof.
  intros Ha Hne Hb Hes Hnes. destruct a as [|c a']; [contradiction|].
  assert (Hc : is_digit c || Ascii.eqb c "." = true).
  { cbn [all_digits] in Ha. apply andb_prop in Ha. rewrite (proj1 Ha). reflexivity. }
  set (tail := "e" ++ (if neg then "-" else "+") ++ es).
  change (String c a' ++ "." ++ b ++ tail) with (String c (a' ++ "." ++ b ++ tail)).
  rewrite (parseFloat_unsigned c _ Hc).
  change (String c (a' ++ "." ++ b ++ tail)) with (String c a' ++ "." ++ b ++ tail).
  rewrite span_digits_app; [|exact Ha|reflexivity].
  cbn [append]. rewrite span_digits_app; [|exact Hb|reflexivity].
  unfold tail. rewrite (parse_exponent_spec neg es Hes Hnes). reflexivity.
Qed.

Lemma decimal_nonneg_exponent (m p : Z) : (0 <= p)%Z -> decimal m p = of_Z (m * 10 ^ p).
Proof. intros H. destruct p as [|p|p]; [reflexivity|reflexivity|lia]. Qed.

Lemma nonempty_head (s : string) :
  all_digits s = true -> s <> "" -> exists c r, s = String c r /\ is_digit c = true.
Proof.
  intros H Hne. destruct s as [|c r]; [contradiction|]. exists c, r. split; [reflexivity|].
  cbn [all_digits] in H. apply andb_prop in H. exact (proj1 H).
Qed.

(** what [render] writes reads back as the decimal it was given *)
Lemma parseFloat_render (d n k : Z) :
  (1 <= k)%Z -> (10 ^ (k - 1) <= d < 10 ^ k)%Z ->
  parseFloat (render d n k) = decimal d (n - k) /\
  exists c r, render d n k = String c r /\ is_digit c = true.
Proof.
  intros Hk Hd.
  assert (Hd0 : (0 < d)%Z).
  { assert (0 < 10 ^ (k - 1))%Z by (apply Z.pow_pos_nonneg; lia). lia. }
  destruct (string_of_Z_spec d ltac:(lia)) as (Hdig & Hne & Hval & Hlen).
  specialize (Hlen k Hk Hd). unfold render. set (ds := string_of_Z d) in *.
  destruct (nonempty_head ds Hdig Hne) as (c & r & Eds & Hc).
  destruct ((k <=? n)%Z && (n <=? 21)%Z) eqn:CA.
  { (* digits and zeros *)
    apply andb_prop in CA. destruct CA as [CA _]. apply Z.leb_le in CA.
    split.
    - rewrite parseFloat_digits by (rewrite all_digits_app, Hdig, all_digits_zeros; reflexivity).
      rewrite digits_value_app, Hval, digits_value_zeros, Z2Nat.id by lia.
      rewrite Eds. cbn [append]. rewrite (decimal_nonneg_exponent d (n - k)) by lia.
      cbn [decimal]. rewrite Z.pow_0_r, Z.mul_1_r. reflexivity.
    - rewrite Eds. cbn [append]. eauto. }
  destruct ((0 <? n)%Z && (n <=? 21)%Z) eqn:CB.
  { (* digits, a dot, digits *)
    apply andb_prop in CB. destruct CB as [CB1 CB2]. apply Z.ltb_lt in CB1. apply Z.leb_le in CB2.
    assert (Hnk : (n < k)%Z).
    { destruct (Z.leb_spec k n) as [H|H]; [|exact H].
      destruct (Z.leb_spec n 21); [discriminate CA|lia]. }
    assert (Hsplit : substring 0 (Z.to_nat n) ds
                     ++ substring (Z.to_nat n) (Z.to_nat (k - n)) ds = ds).
    { replace (Z.to_nat (k - n)) with (String.length ds - Z.to_nat n)%nat by lia.
      apply substring_split. lia. }
    split.
    - rewrite parseFloat_digits_dot by (apply all_digits_substring; exact Hdig).
      rewrite Hsplit, Hval, length_substring by lia.
      rewrite Eds. rewrite Z2Nat.id by lia. f_equal. lia.
    - rewrite Eds. destruct (Z.to_nat n) as [|n'] eqn:En; [lia|].
      cbn [substring append]. eauto. }
  destruct ((-6 <? n)%Z && (n <=? 0)%Z) eqn:CC.
  { (* zero, a dot, zeros and digits *)
    apply andb_prop in CC. destruct CC as [CC1 CC2]. apply Z.ltb_lt in CC1. apply Z.leb_le in CC2.
    split.
    - change ("0." ++ zeros (Z.to_nat (- n)) ++ ds)
        with ("0" ++ "." ++ (zeros (Z.to_nat (- n)) ++ ds)).
      rewrite parseFloat_digits_dot;
        [|reflexivity|rewrite all_digits_app, Hdig, all_digits_zeros; reflexivity].
      cbn [append]. cbn [digits_value]. change (10 * 0 + digit_value "0")%Z with 0%Z.
      rewrite digits_value_app, digits_value_zeros, Z.mul_0_l, Hval.
      rewrite length_app, length_zeros. f_equal. lia.
    - cbn [append]. eauto. }
  (* scientific notation *)
  destruct (string_of_Z_spec (Z.abs (n - 1)) ltac:(lia)) as (Edig & Ene & Eval & _).
  set (es := string_of_Z (Z.abs (n - 1))) in *.
  assert (Hexp : (if (n - 1 <? 0)%Z then (- Z.abs (n - 1))%Z else Z.abs (n - 1)) = (n - 1)%Z).
  { destruct (Z.ltb_spec (n - 1) 0); lia. }
  cbv zeta. destruct (Z.eqb_spec k 1) as [K1|K1].
  - split.
    + rewrite (parseFloat_scientific_1 ds (n - 1 <? 0)%Z es Hdig Hne Edig Ene).
      rewrite Hval, Eval, Hexp. f_equal. lia.
    + rewrite Eds. cbn [append]. eauto.
  - assert (Hsplit : substring 0 1 ds ++ substring 1 (Z.to_nat (k - 1)) ds = ds).
    { replace (Z.to_nat (k - 1)) with (String.length ds - 1)%nat by lia.
      apply substring_split. lia. }
    split.
    + rewrite (parseFloat_scientific (substring 0 1 ds) (substring 1 (Z.to_nat (k - 1)) ds)
                 (n - 1 <? 0)%Z es);
        [|apply all_digits_substring; exact Hdig
         |rewrite Eds; discriminate
         |apply all_digits_substring; exact Hdig|exact Edig|exact Ene].
      rewrite Hsplit, Hval, Eval, Hexp, length_substring by lia.
      f_equal. lia.
    + rewrite Eds. cbn [substring append]. eauto.
Qed.

Lemma parseFloat_minus (c : ascii) (r : string) :
  is_digit c = true ->
  parseFloat (String "-" (String c r)) = SFopp (parseFloat (String c r)).
Proof.
  intros Hc. rewrite (parseFloat_unsigned c r) by (rewrite Hc; reflexivity).
  assert (E : parseFloat (String "-" (String c r)) =
              let '(ip, r1) := span_digits (String c r) in
              let '(fp, r2) :=
                match r1 with
                | String "." r => span_digits r
                | _ => (EmptyString, r1)
                end in
              match ip ++ fp with
              | EmptyString => NaN
              | ds => SFopp (decimal (digits_value 0 ds)
                               (parse_exponent r2 - Z.of_nat (String.length fp)))
              end).
  { destruct c as [[] [] [] [] [] [] [] []]; try discriminate Hc; reflexivity. }
  rewrite E. destruct (span_digits (String c r)) as [ip r1].
  destruct (match r1 with String "." r0 => span_digits r0 | _ => (EmptyString, r1) end)
    as [fp r2].
  destruct (ip ++ fp); reflexivity.
Qed.

(** every well-formed number is read back from its string; the sign of a
    zero is lost, as its string is "0" *)
Theorem parse_back (x : number) :
  valid_binary prec emax x = true ->
  parseFloat (Number_toString x) =
  match x with S754_zero _ => S754_zero false | _ => x end.
Proof.
  intros V. destruct x as [s|s| |s m e].
  - reflexivity.
  - destruct s; reflexivity.
  - reflexivity.
  - cbn [valid_binary] in V. cbn [Number_toString].
    pose proof (shortest_spec m e 17 1 V ltac:(lia) ltac:(lia)) as H. cbv zeta in H.
    destruct (shortest 17 (S754_finite false m e) (value (S754_finite false m e)) (decade m e) 1)
      as [[d n] k].
    destruct H as (Hk & Hd & Hx).
    destruct (parseFloat_render d n k Hk Hd) as (Hp & c & r & Er & Hc).
    destruct s.
    + rewrite Er. cbn [append]. rewrite parseFloat_minus by exact Hc.
      rewrite <- Er, Hp, Hx. reflexivity.
    + cbn [append]. rewrite Hp. exact Hx.
Qed.

End Printing.

(** ** Tool calls from the voice agent *)

Module Tools.

Lemma handle_updateMrp (w : World) (fc : FunctionCall) (fields : list (string * jsval)) (x : number) :
  name_is fc "updateMrp" = true ->
  fc_args fc = Some fields ->
  lookup "amount" fields = Some (JNum x) ->
  handleFunctionCall fc w =
  Returned tt
    {| app := setMrpInput (Number_toString x) (app w);
       refs := refs w;
       trace := trace w ++ [ToolResponseSent {| fr_id := fc_id fc;
                                                fr_name := fc_name fc;
                                                fr_result := "ok, updated value" |}];
       nodes := nodes w |}.
Proof.
  intros Hn Ha Hl. unfold handleFunctionCall. rewrite Hn.
  unfold property. rewrite Ha, Hl. reflexivity.
Qed.

Lemma onmessage_single (fc : FunctionCall) (now : number) (w : World) :
  onmessage (toolCallMessage fc) now w =
  match handleFunctionCall fc w with
  | Returned _ w' => Returned tt w'
  | Thrown e w' => Thrown e w'
  end.
Proof.
  unfold onmessage, toolCallMessage. cbn [toolCall audioData forEach].
  unfold bind at 1. unfold bind at 1.
  destruct (handleFunctionCall fc w) as [[] w'|e w']; reflexivity.
Qed.

Lemma sent_app (a : AppState) (r : Refs) (n : nat) (w : World) (es : list Effect) :
  sent {| app := a; refs := r; trace := trace w ++ es; nodes := n |}
  = sent w ++ flat_map (fun e => match e with ToolResponseSent r => [r] | _ => [] end) es.
Proof. unfold sent. cbn [trace]. apply flat_map_app. Qed.

(** a call the handler passes over: a name that is neither tool's, or a
    [switchMode] whose mode is not exactly "original" or "new" *)
Lemma ignored_call_unchanged (fc : FunctionCall) (w : World) :
  ignored_call fc = true -> final (handleFunctionCall fc w) = w.
Proof.
  unfold ignored_call, handleFunctionCall.
  destruct (name_is fc "updateMrp"); [discriminate|].
  destruct (name_is fc "switchMode"); cbn [negb andb orb]; [|reflexivity].
  unfold property. destruct (fc_args fc) as [fields|]; [|reflexivity].
  destruct (lookup "mode" fields) as [v|].
  - unfold bind, ret. destruct (mode_of v); [discriminate|reflexivity].
  - reflexivity.
Qed.

(** C3, counterexample: a [switchMode] call asking for the mode "both" is
    passed over in silence; the world, its trace included, is what it was, so
    no acknowledgment has been sent for the call. *)
Lemma C3_bad_mode_is_not_acknowledged :
  ignored_call bad_mode_call = true /\
  onmessage (toolCallMessage bad_mode_call) n_0 initialWorld = Returned tt initialWorld /\
  sent (final (onmessage (toolCallMessage bad_mode_call) n_0 initialWorld)) = [].
Proof. repeat split. Qed.

(** C3, amended: a message whose calls are all passed over (a name that is
    neither [updateMrp] nor [switchMode], or a [switchMode] whose mode is not
    exactly "original" or "new") changes neither the amount text nor the
    mode, and no acknowledgment is sent for any of them: the world is left
    as it was. *)
Theorem C3_ignored_calls_leave_no_trace (calls : list FunctionCall) (now : number) (w : World) :
  forallb ignored_call calls = true ->
  final (onmessage {| toolCall := Some (Some calls); audioData := None |} now w) = w.
Proof.
  intros H. unfold onmessage. cbn [toolCall audioData].
  assert (G : final (forEach calls handleFunctionCall w) = w).
  { revert w. induction calls as [|fc rest IH]; intros w; [reflexivity|].
    cbn [forallb] in H. apply andb_prop in H. destruct H as [H1 H2].
    cbn [forEach]. unfold bind at 1.
    pose proof (ignored_call_unchanged fc w H1) as E.
    destruct (handleFunctionCall fc w) as [[] w'|e w']; cbn [final] in E; subst w'.
    - apply IH. exact H2.
    - reflexivity. }
  unfold bind at 1. destruct (forEach calls handleFunctionCall w) as [[] w'|e w'];
    cbn [final] in G; subst w'; reflexivity.
Qed.

Lemma C3_ignored_calls_witness :
  final (onmessage {| toolCall := Some (Some [bad_mode_call; unknown_call]); audioData := None |}
           n_0 initialWorld) = initialWorld.
Proof.
  apply (C3_ignored_calls_leave_no_trace [bad_mode_call; unknown_call] n_0 initialWorld).
  reflexivity.
Defined.

Lemma recalculate_keeps_input (st : AppState) :
  mrpInput (recalculate st) = mrpInput st /\
  calculationMode (recalculate st) = calculationMode st.
Proof.
  unfold recalculate.
  destruct (negb (isNaN (parseFloat (mrpInput st))) && gt (parseFloat (mrpInput st)) n_0);
    split; reflexivity.
Qed.

(** C4, counterexample: a call named [updateAmount] is not one the handler
    knows; with the argument 250 it leaves the amount text at "100" and
    sends nothing. *)
Lemma C4_updateAmount_is_not_handled :
  onmessage (toolCallMessage unknown_call) n_0 initialWorld = Returned tt initialWorld /\
  mrpInput (app (final (onmessage (toolCallMessage unknown_call) n_0 initialWorld))) = "100"%string /\
  sent (final (onmessage (toolCallMessage unknown_call) n_0 initialWorld)) = [].
Proof. repeat split. Qed.

(** C4, amended: the tool is named [updateMrp].  A call of that name with a
    numeric amount, whatever the number, sets the amount text to the string
    of the number and sends the acknowledgment "ok, updated value" under the
    call's id and name; the mode and the refs are untouched.  The
    recomputation that follows reads the number back from that text, so for
    every binary64 number it gives the quotes for the amount when the amount
    is positive, and none otherwise.  So [updateMrp(250)] leaves the text
    "250" and the quotes for 250, and [updateMrp(-5)] leaves the text "-5"
    and no quotes. *)
Theorem C4_updateMrp_sets_amount (w : World) (callId : string) (x now : number) :
  exists w',
    onmessage (toolCallMessage (functionCall callId "updateMrp" [("amount"%string, JNum x)])) now w
      = Returned tt w' /\
    mrpInput (app w') = Number_toString x /\
    calculationMode (app w') = calculationMode (app w) /\
    refs w' = refs w /\
    sent w' = sent w ++ [{| fr_id := Some callId;
                            fr_name := Some "updateMrp"%string;
                            fr_result := "ok, updated value" |}] /\
    (valid_binary prec emax x = true ->
     results (recalculate (app w')) =
       if gt x n_0 then Some (snapshot x (calculationMode (app w))) else None) /\
    (x = decimal 250 0 ->
     mrpInput (app w') = "250"%string /\
     results (recalculate (app w')) = Some (snapshot (decimal 250 0) (calculationMode (app w)))) /\
    (x = SFopp (decimal 5 0) ->
     mrpInput (app w') = "-5"%string /\
     results (recalculate (app w')) = None).
Proof.
  rewrite onmessage_single.
  rewrite (handle_updateMrp w _ [("amount"%string, JNum x)] x) by reflexivity.
  eexists. split; [reflexivity|]. cbn [app refs].
  split; [reflexivity|]. split; [reflexivity|]. split; [reflexivity|].
  split; [rewrite sent_app; reflexivity|].
  assert (R : valid_binary prec emax x = true ->
              results (recalculate (setMrpInput (Number_toString x) (app w))) =
              if gt x n_0 then Some (snapshot x (calculationMode (app w))) else None).
  { intros V. unfold recalculate. cbn [mrpInput setMrpInput calculationMode].
    rewrite (Printing.parse_back x V).
    destruct x as [s|s| |s m e]; try (destruct s; reflexivity); reflexivity. }
  split; [exact R|]. split.
  - intros ->. split; [vm_compute; reflexivity|]. apply R. reflexivity.
  - intros ->. split; [vm_compute; reflexivity|]. apply R. reflexivity.
Qed.

(** C9: a mode button, and a [switchMode] call with the mode "original" or
    "new", replace the mode and nothing else of the state; the amount text
    is the same after the switch and after the recomputation it triggers. *)
Theorem C9_mode_switch_keeps_amount_text
    (m : Mode) (st : AppState) (w : World) (callId : string) (now : number) :
  clickMode m st =
    {| mrpInput := mrpInput st; calculationMode := m; results := results st;
       aiAnalysis := aiAnalysis st; isLoadingAi := isLoadingAi st;
       isLiveActive := isLiveActive st; isAiSpeaking := isAiSpeaking st |} /\
  mrpInput (recalculate (clickMode m st)) = mrpInput st /\
  exists w',
    onmessage (toolCallMessage (functionCall callId "switchMode"
                 [("mode"%string, JStr (mode_name m))])) now w = Returned tt w' /\
    app w' =
      {| mrpInput := mrpInput (app w); calculationMode := m; results := results (app w);
         aiAnalysis := aiAnalysis (app w); isLoadingAi := isLoadingAi (app w);
         isLiveActive := isLiveActive (app w); isAiSpeaking := isAiSpeaking (app w) |} /\
    refs w' = refs w /\
    mrpInput (recalculate (app w')) = mrpInput (app w).
Proof.
  split; [reflexivity|].
  split; [apply (proj1 (recalculate_keeps_input (clickMode m st)))|].
  rewrite onmessage_single.
  destruct m; (eexists; split; [reflexivity|]; cbn [app refs];
    split; [reflexivity|]; split; [reflexivity|];
    apply (proj1 (recalculate_keeps_input (setCalculationMode _ (app w))))).
Qed.

Lemma negative_text_rejected (x : number) :
  is_negative x = true -> decimal_pattern (Number_toString x) = false.
Proof.
  destruct x as [s|s| |s m e]; try discriminate; destruct s; try discriminate; intros _.
  - reflexivity.
  - unfold Number_toString.
    destruct (shortest 17 (S754_finite false m e) (value (S754_finite false m e)) (decade m e) 1)
      as [[d n] k].
    reflexivity.
Qed.

Lemma rejected_text_not_committed (s : string) (st : AppState) :
  s <> ""%string -> decimal_pattern s = false -> handleInputChange s st = st.
Proof.
  intros Hne Hp. unfold handleInputChange. rewrite Hp.
  destruct (String.eqb_spec s ""); [contradiction|reflexivity].
Qed.

(** C10: an [updateMrp] call with a numeric amount commits the string of the
    number as the amount text, whatever the number.  For every negative
    number that string is one the manual input handler does not commit, and
    so is "1e+21", the string of ten to the twenty-first. *)
Theorem C10_voice_path_skips_input_pattern
    (w : World) (callId : string) (x now : number) (st : AppState) :
  mrpInput (app (final (onmessage (toolCallMessage (functionCall callId "updateMrp"
                          [("amount"%string, JNum x)])) now w)))
    = Number_toString x /\
  (is_negative x = true ->
   decimal_pattern (Number_toString x) = false /\
   handleInputChange (Number_toString x) st = st) /\
  Number_toString (decimal 1 21) = "1e+21"%string /\
  decimal_pattern "1e+21" = false /\
  handleInputChange "1e+21" st = st.
Proof.
  split; [|split; [|split; [|split]]].
  - rewrite onmessage_single.
    rewrite (handle_updateMrp w _ [("amount"%string, JNum x)] x) by reflexivity.
    reflexivity.
  - intros Hneg. pose proof (negative_text_rejected x Hneg) as Hp.
    split; [exact Hp|]. apply rejected_text_not_committed; [|exact Hp].
    intros E. rewrite E in Hp. discriminate.
  - vm_compute. reflexivity.
  - reflexivity.
  - apply rejected_text_not_committed; [discriminate|reflexivity].
Qed.

End Tools.

(** ** Messages of several tool calls *)

Module Calls.

Import Tools.

Lemma toString_method_stringified (v : jsval) (w : World) :
  toString_method v w =
  match stringified v with
  | Some text => Returned text w
  | None => Thrown TypeError w
  end.
Proof.
  unfold toString_method, stringified.
  destruct v as [| |b|x|s|items|fs]; try reflexivity;
    match goal with |- context [ToString ?v] => destruct (ToString v); reflexivity end.
Qed.

(** one call that does not throw *)
Lemma handleFunctionCall_returns (fc : FunctionCall) (w : World) :
  throwing_call fc = false ->
  exists a,
    handleFunctionCall fc w =
      Returned tt {| app := a; refs := refs w;
                     trace := trace w ++ map ToolResponseSent (acks [fc]);
                     nodes := nodes w |} /\
    mrpInput a = last_some [text_of fc] (mrpInput (app w)) /\
    calculationMode a = last_some [requested_mode fc] (calculationMode (app w)) /\
    results a = results (app w) /\ aiAnalysis a = aiAnalysis (app w) /\
    isLoadingAi a = isLoadingAi (app w) /\
    isLiveActive a = isLiveActive (app w) /\ isAiSpeaking a = isAiSpeaking (app w).
Proof.
  unfold acks, last_some. cbn [flat_map fold_left]. rewrite app_nil_r.
  unfold throwing_call, ack_of, text_of, requested_mode, amount_of, handleFunctionCall, property.
  destruct (name_is fc "updateMrp").
  - destruct (fc_args fc) as [fields|]; [|discriminate].
    unfold has_toString.
    destruct (lookup "amount" fields) as [v|]; [|discriminate].
    unfold bind, ret. rewrite toString_method_stringified.
    destruct (stringified v) as [text|]; [|discriminate]. intros _.
    eexists. split; [reflexivity|]. repeat split.
  - destruct (name_is fc "switchMode").
    + destruct (fc_args fc) as [fields|]; [|discriminate]. intros _.
      destruct (lookup "mode" fields) as [v|].
      * unfold bind, ret. destruct (mode_of v) as [m|].
        -- eexists. split; [reflexivity|]. repeat split.
        -- exists (app w). cbn [map]. rewrite app_nil_r.
           split; [destruct w; reflexivity|]. repeat split.
      * exists (app w). cbn [map]. rewrite app_nil_r.
        split; [destruct w; reflexivity|]. repeat split.
    + intros _. exists (app w). cbn [map]. rewrite app_nil_r.
      split; [destruct w; reflexivity|]. repeat split.
Qed.


Lemma acks_cons (fc : FunctionCall) (calls : list FunctionCall) :
  acks (fc :: calls) = acks [fc] ++ acks calls.
Proof. unfold acks. cbn [flat_map]. rewrite app_nil_r. reflexivity. Qed.

Lemma sent_acks (l : list FunctionResponse) :
  flat_map (fun e => match e with ToolResponseSent r => [r] | _ => [] end)
           (map ToolResponseSent l) = l.
Proof.
  induction l as [|r l IH]; [reflexivity|]. cbn [map flat_map List.app]. rewrite IH. reflexivity.
Qed.

(** a run of calls none of which throws *)
Lemma forEach_calls (calls : list FunctionCall) (w : World) :
  Forall (fun fc => throwing_call fc = false) calls ->
  exists a,
    forEach calls handleFunctionCall w =
      Returned tt {| app := a; refs := refs w;
                     trace := trace w ++ map ToolResponseSent (acks calls);
                     nodes := nodes w |} /\
    mrpInput a = last_some (map text_of calls) (mrpInput (app w)) /\
    calculationMode a = last_some (map requested_mode calls) (calculationMode (app w)) /\
    results a = results (app w) /\ aiAnalysis a = aiAnalysis (app w) /\
    isLoadingAi a = isLoadingAi (app w) /\
    isLiveActive a = isLiveActive (app w) /\ isAiSpeaking a = isAiSpeaking (app w).
Proof.
  intros H. revert w. induction H as [|fc calls Hfc _ IH]; intros w.
  - exists (app w). cbn [forEach acks flat_map map]. rewrite app_nil_r.
    split; [destruct w; reflexivity|]. repeat split.
  - destruct (handleFunctionCall_returns fc w Hfc) as (a1 & E1 & T1 & M1 & R1 & A1 & L1 & V1 & S1).
    cbn [forEach]. unfold bind at 1. rewrite E1.
    destruct (IH {| app := a1; refs := refs w;
                    trace := trace w ++ map ToolResponseSent (acks [fc]);
                    nodes := nodes w |}) as (a & E & T & M & R & A & L & V & S).
    exists a. cbn [app refs trace nodes] in *. split.
    + rewrite E. rewrite (acks_cons fc calls), map_app, app_assoc. reflexivity.
    + cbn [map]. unfold last_some in *. cbn [fold_left] in *.
      rewrite T, M, T1, M1. repeat split; congruence.
Qed.

(** X14: a message of tool calls none of which throws is carried out in
    order: [onmessage] returns, one acknowledgment is sent per [updateMrp]
    call and per [switchMode] call with a valid mode, in the order of the
    calls and under each call's id and name, and nothing else is sent; the
    amount text is the one the last [updateMrp] call asked for, the mode the
    one the last valid [switchMode] asked for (what they were when there is
    no such call); results, flags and refs are untouched. *)
Theorem tool_calls_acknowledged (calls : list FunctionCall) (now : number) (w : World) :
  Forall (fun fc => throwing_call fc = false) calls ->
  exists w',
    onmessage {| toolCall := Some (Some calls); audioData := None |} now w = Returned tt w' /\
    sent w' = sent w ++ acks calls /\
    trace w' = trace w ++ map ToolResponseSent (acks calls) /\
    mrpInput (app w') = last_some (map text_of calls) (mrpInput (app w)) /\
    calculationMode (app w') = last_some (map requested_mode calls) (calculationMode (app w)) /\
    results (app w') = results (app w) /\
    isLiveActive (app w') = isLiveActive (app w) /\
    isAiSpeaking (app w') = isAiSpeaking (app w) /\
    refs w' = refs w.
Proof.
  intros H. destruct (forEach_calls calls w H) as (a & E & T & M & R & A & L & V & S).
  unfold onmessage. cbn [toolCall audioData]. unfold bind at 1. rewrite E.
  eexists. split; [reflexivity|]. cbn [app refs trace].
  split; [|repeat split; assumption].
  rewrite sent_app. f_equal. apply sent_acks.
Qed.


Lemma handleFunctionCall_throws (fc : FunctionCall) (w : World) :
  throwing_call fc = true -> handleFunctionCall fc w = Thrown TypeError w.
Proof.
  unfold throwing_call, amount_of, handleFunctionCall, property.
  destruct (name_is fc "updateMrp").
  - destruct (fc_args fc) as [fields|]; [|reflexivity].
    unfold has_toString.
    destruct (lookup "amount" fields) as [v|]; [|reflexivity].
    unfold bind, ret. rewrite toString_method_stringified.
    destruct (stringified v) as [text|]; [discriminate|reflexivity].
  - destruct (name_is fc "switchMode"); [|discriminate].
    destruct (fc_args fc); [discriminate|reflexivity].
Qed.

Lemma forEach_app {A : Type} (f : A -> M unit) (l1 l2 : list A) (w : World) :
  forEach (l1 ++ l2) f w =
  match forEach l1 f w with
  | Returned _ w1 => forEach l2 f w1
  | Thrown e w1 => Thrown e w1
  end.
Proof.
  revert w. induction l1 as [|x l1 IH]; intros w; [reflexivity|].
  cbn [List.app forEach]. unfold bind. destruct (f x w) as [[] w1|e w1]; [apply IH|reflexivity].
Qed.

(** X15: tool calls that make the handler throw.  An [updateMrp] call
    without arguments, or whose amount is missing or null (there is nothing
    to call [toString] on), or is an object with an own [toString] key, or
    an array that holds such an object at any depth (what [join] cannot
    turn into a string), and a [switchMode] call without arguments, throw a
    [TypeError] and change nothing.  In a message the calls before such a
    call have been carried out and acknowledged; the calls after it and the
    audio of the message are never looked at.  A tool call without its list
    of calls throws as well.  An array of numbers, strings, nulls, plain
    objects and such arrays does not throw: its elements are joined with
    commas, null as the empty string. *)
Theorem tool_call_errors :
  let updateMrp amount := functionCall "a" "updateMrp" [("amount"%string, amount)] in
  let own := JObj [("toString"%string, JNum n_1)] in
  (forall fc w,
      throwing_call fc = true -> handleFunctionCall fc w = Thrown TypeError w) /\
  (forall pre fc post audio now w,
      Forall (fun c => throwing_call c = false) pre ->
      throwing_call fc = true ->
      exists w1,
        forEach pre handleFunctionCall w = Returned tt w1 /\
        onmessage {| toolCall := Some (Some (pre ++ fc :: post)); audioData := audio |} now w
          = Thrown TypeError w1 /\
        sent w1 = sent w ++ acks pre /\
        refs w1 = refs w) /\
  (forall audio now w,
      onmessage {| toolCall := Some None; audioData := audio |} now w = Thrown TypeError w) /\
  (forall fc,
      fc_args fc = None -> (name_is fc "updateMrp" || name_is fc "switchMode") = true ->
      throwing_call fc = true) /\
  throwing_call (functionCall "a" "updateMrp" []) = true /\
  throwing_call (updateMrp JNull) = true /\
  throwing_call (updateMrp own) = true /\
  throwing_call (updateMrp (JArr [own])) = true /\
  throwing_call (updateMrp (JArr [JNum n_1; JArr [JStr "a"; own]])) = true /\
  throwing_call (updateMrp (JArr [JNum n_1; JNull; JArr [JStr "a"; JObj []]])) = false /\
  text_of (updateMrp (JArr [JNum n_1; JNull; JArr [JStr "a"; JObj []]]))
    = Some "1,,a,[object Object]"%string.
Proof.
  intros updateMrp own.
  split; [exact handleFunctionCall_throws|].
  split; [|split; [reflexivity|split; [|repeat split]]];
    [|intros fc Ha Hn; unfold throwing_call, amount_of; rewrite Ha;
      destruct (name_is fc "updateMrp"); [reflexivity|]; cbn [orb] in Hn; rewrite Hn; reflexivity].
  intros pre fc post audio now w Hpre Hfc.
  destruct (forEach_calls pre w Hpre) as (a & E & _).
  eexists. split; [exact E|]. split; [|split].
  - unfold onmessage. cbn [toolCall audioData]. unfold bind at 1.
    rewrite forEach_app, E. cbn [forEach]. unfold bind at 1.
    rewrite (handleFunctionCall_throws fc _ Hfc). reflexivity.
  - rewrite sent_app, sent_acks. reflexivity.
  - reflexivity.
Qed.


(** X14, witness: an amount, a mode, a mode that does not exist, an amount *)
Lemma tool_calls_acknowledged_four :
  let calls := [functionCall "a" "updateMrp" [("amount"%string, JNum (decimal 250 0))];
                functionCall "b" "switchMode" [("mode"%string, JStr "new")];
                bad_mode_call;
                functionCall "c" "updateMrp" [("amount"%string, JStr "75")]] in
  exists w',
    onmessage {| toolCall := Some (Some calls); audioData := None |} n_0 initialWorld
      = Returned tt w' /\
    sent w' = sent initialWorld ++ acks calls /\
    trace w' = trace initialWorld ++ map ToolResponseSent (acks calls) /\
    mrpInput (app w') = last_some (map text_of calls) (mrpInput (app initialWorld)) /\
    calculationMode (app w')
      = last_some (map requested_mode calls) (calculationMode (app initialWorld)) /\
    results (app w') = results (app initialWorld) /\
    isLiveActive (app w') = isLiveActive (app initialWorld) /\
    isAiSpeaking (app w') = isAiSpeaking (app initialWorld) /\
    refs w' = refs initialWorld.
Proof.
  apply (tool_calls_acknowledged
           [functionCall "a" "updateMrp" [("amount"%string, JNum (decimal 250 0))];
            functionCall "b" "switchMode" [("mode"%string, JStr "new")];
            bad_mode_call;
            functionCall "c" "updateMrp" [("amount"%string, JStr "75")]] n_0 initialWorld).
  repeat constructor.
Defined.

End Calls.
